(** * The JOE03 model loader of VDrift (model_joe03.cpp)

    A shallow embedding of [ModelJoe03::Load], [LoadFromHandle], [ReadData],
    [NeedsNormalSwap], [BinaryRead] and [CorrectEndian], followed by the
    properties of the loader: header validation, the defect heuristic's
    correction of normals, the vertex welder and the construction of the
    flat arrays that are handed to the mesh.

    Conventions of the embedding.
    - [int] is a 32-bit and [short] a 16-bit two's-complement integer; both
      are carried as [Z].  A C [float] is carried as its IEEE-754 binary32
      bit pattern, a [Z] in [0, 2^32).
    - The file is a list of bytes; a read consumes a prefix of it.  An
      entry of a pack is read as a file is.
    - [GenerateListID] and [GenerateVertexArrayObject], which [Load] calls
      with the error stream after a successful read, are not part of
      model_joe03.cpp: what they write to the stream is a parameter.
    - [assert] is enabled.  A failed assertion, a C++ exception that nothing
      catches ([std::length_error] of [vector::resize]) and undefined
      behaviour (an index outside a vector, signed overflow) all end the
      run without a return value: [Aborted].
    - [&v[0]] only forms the address of a vector's storage (it is
      [v.data()]); it is not counted as an access of element 0.
    - The host has 64-bit [size_t] and memory allocation does not fail. *)

From Stdlib Require Import ZArith List String Ascii Lia Bool DecimalString SpecFloat.
From Stdlib.Strings Require Import Byte.
From stdpp Require Import base list.
Import ListNotations.
Local Open Scope Z_scope.

(** ** Stored values *)

Module Stored.

Definition byte_value (b : byte) : Z := Z.of_N (Byte.to_N b).

(** The unsigned value of a little-endian group of bytes. *)
Fixpoint le_value (bs : list byte) : Z :=
  match bs with
  | [] => 0
  | b :: rest => byte_value b + 256 * le_value rest
  end.

(** Two's-complement reading of an unsigned [w]-bit value. *)
Definition signed (w : Z) (u : Z) : Z :=
  if u <? 2 ^ (w - 1) then u else u - 2 ^ w.

(** Modelled from the spec: endian_utility.h (ENDIAN_SWAP_16, ENDIAN_SWAP_32,
    ENDIAN_SWAP_FLOAT) is not among the sources.  The format is stored in
    one fixed byte order and every field is corrected to host order
    right after it is read, so the value of a corrected field does not
    depend on the host; the stored order is taken to be little-endian. *)
Definition ENDIAN_SWAP_16 (raw : list byte) : Z := signed 16 (le_value (take 2 raw)).
Definition ENDIAN_SWAP_32 (raw : list byte) : Z := signed 32 (le_value (take 4 raw)).
Definition ENDIAN_SWAP_FLOAT (raw : list byte) : Z := le_value (take 4 raw).

(** The bytes of a buffer from offset [off], [len] of them. *)
Definition field (off len : nat) (buffer : list byte) : list byte :=
  take len (drop off buffer).

(** The [count] records of [size] bytes each that a buffer holds. *)
Fixpoint records (size count : nat) (buffer : list byte) : list (list byte) :=
  match count with
  | O => []
  | S c => take size buffer :: records size c (drop size buffer)
  end.

End Stored.

(** ** The C [float] *)

Module Float.

(** A [float] is its binary32 bit pattern. *)
Definition float := Z.

(** The literal [0] stored into a [float]. *)
Definition zero : float := 0.

(** Unary minus flips the sign bit. *)
Definition neg (x : float) : float :=
  if Z.testbit x 31 then x - 2 ^ 31 else x + 2 ^ 31.

(** The value denoted by a bit pattern. *)
Definition of_bits (w : float) : spec_float :=
  let s := Z.testbit w 31 in
  let e := Z.land (Z.shiftr w 23) 255 in
  let m := Z.land w (2 ^ 23 - 1) in
  if e =? 255 then (if m =? 0 then S754_infinity s else S754_nan)
  else if e =? 0 then
    match m with Zpos p => S754_finite s p (-149) | _ => S754_zero s end
  else
    match m + 2 ^ 23 with Zpos p => S754_finite s p (e - 150) | _ => S754_nan end.

(** A bit pattern of a value of the format (the quiet NaN for NaN). *)
Definition to_bits (x : spec_float) : float :=
  let sign (s : bool) := if s then 2 ^ 31 else 0 in
  match x with
  | S754_zero s => sign s
  | S754_infinity s => sign s + 255 * 2 ^ 23
  | S754_nan => 255 * 2 ^ 23 + 2 ^ 22
  | S754_finite s m e =>
      if Zpos m <? 2 ^ 23 then sign s + Zpos m
      else sign s + (e + 150) * 2 ^ 23 + (Zpos m - 2 ^ 23)
  end.

(** The usual arithmetic conversion of a [float] operand that is compared
    with a [double]: the same value in binary64.  The significand of a
    binary32 value has at most 24 bits; it is shifted to the 53 bits of
    binary64. *)
Definition to_double (x : spec_float) : spec_float :=
  match x with
  | S754_finite s m e =>
      let shift := 53 - Zpos (digits2_pos m) in
      S754_finite s (Z.to_pos (Zpos m * 2 ^ shift)) (e - shift)
  | _ => x
  end.

(** The [double] literals of the heuristic. *)
Definition lit_0_0001 : spec_float := S754_finite false 7378697629483821 (-66).
Definition lit_0_5 : spec_float := S754_finite false 4503599627370496 (-53).

(** [x > d], [x < d] and [x >= d] for a [float] [x] and a [double] [d]. *)
Definition gt_double (x : float) (d : spec_float) : bool := SFltb d (to_double (of_bits x)).
Definition lt_double (x : float) (d : spec_float) : bool := SFltb (to_double (of_bits x)) d.
Definition ge_double (x : float) (d : spec_float) : bool := SFleb d (to_double (of_bits x)).

(** The value of [(float) n] for an integer [0 <= n < 2^128]: [n] rounded
    to 24 significant bits, ties to the even significand. *)
Definition of_int (n : Z) : Z :=
  let e := Z.log2 n - 23 in
  if e <=? 0 then n
  else
    let ulp := 2 ^ e in
    let q := n / ulp in
    let r := n mod ulp in
    if 2 * r <? ulp then q * ulp
    else if ulp <? 2 * r then (q + 1) * ulp
    else if Z.even q then q * ulp else (q + 1) * ulp.

(** The product of two integer-valued floats, as a float. *)
Definition mul_int (x y : Z) : Z := of_int (x * y).

End Float.

(** ** Runs that end without a return value *)

Inductive fault : Type :=
| AssertionFailed      (* [assert] aborted the process *)
| LengthError          (* [std::length_error], thrown and not caught *)
| UndefinedBehaviour.  (* an access outside a vector, signed overflow *)

Inductive outcome (A : Type) : Type :=
| Returned (a : A)
| Aborted (why : fault).
Arguments Returned {A} a.
Arguments Aborted {A} why.

Definition bind {A B : Type} (c : outcome A) (k : A -> outcome B) : outcome B :=
  match c with
  | Returned a => k a
  | Aborted why => Aborted why
  end.

Declare Scope run_scope.
Delimit Scope run_scope with run.
Notation "x <- c ;; k" := (bind c (fun x => k))
  (at level 100, c at next level, right associativity) : run_scope.
Local Open Scope run_scope.

(** [assert(b)] *)
Definition assertion (b : bool) : outcome unit :=
  if b then Returned tt else Aborted AssertionFailed.

(** A value of type [int]: a result outside the type is signed overflow. *)
Definition int_result (n : Z) : outcome Z :=
  if (- 2 ^ 31 <=? n) && (n <? 2 ^ 31) then Returned n else Aborted UndefinedBehaviour.

(** The size given to a vector's constructor or to [resize]: an [int]
    converted to [size_t].  A negative one exceeds [max_size()]. *)
Definition vector_size (n : Z) : outcome nat :=
  if n <? 0 then Aborted LengthError else Returned (Z.to_nat n).

(** [l[i]], read. *)
Definition index {A : Type} (l : list A) (i : Z) : outcome A :=
  if i <? 0 then Aborted UndefinedBehaviour
  else match l !! Z.to_nat i with
       | Some x => Returned x
       | None => Aborted UndefinedBehaviour
       end.

(** [l[i] = x] *)
Definition store {A : Type} (l : list A) (i : Z) (x : A) : outcome (list A) :=
  if (0 <=? i) && (i <? Z.of_nat (length l)) then Returned (<[Z.to_nat i := x]> l)
  else Aborted UndefinedBehaviour.

(** [for (int i = first; i < first + n; i++) body] over the loop's state. *)
Fixpoint for_loop {St : Type} (body : Z -> St -> outcome St) (i : Z) (n : nat) (s : St)
  : outcome St :=
  match n with
  | O => Returned s
  | S n' => s' <- body i s ;; for_loop body (i + 1) n' s'
  end.

(** [for (int i = 0; i < n; i++) body] *)
Definition for_range {St : Type} (n : Z) (body : Z -> St -> outcome St) (s : St) : outcome St :=
  for_loop body 0 (Z.to_nat n) s.

(** [for (int i = 0; i < n; i++) l[i] = f(l[i])] *)
Definition modify_each {A : Type} (n : Z) (f : A -> outcome A) (l : list A)
  : outcome (list A) :=
  for_range n (fun i l => x <- index l i ;; y <- f x ;; store l i y) l.

(** ** The data of model_joe03.cpp *)

Definition triple (A : Type) : Type := (A * A * A)%type.

(** [a[d]] for an array of three. *)
Definition sel {A : Type} (a : triple A) (d : Z) : A :=
  let '(a0, a1, a2) := a in
  if d =? 0 then a0 else if d =? 1 then a1 else a2.

Record JoeHeader : Type := {
  magic : Z;
  version : Z;
  num_faces : Z;
  num_frames : Z
}.

Record JoeVertex : Type := { vertex : triple Float.float }.

Record JoeFace : Type := {
  vertexIndex : triple Z;
  normalIndex : triple Z;
  textureIndex : triple Z
}.

Record JoeTexCoord : Type := { u : Float.float; v : Float.float }.

Record JoeFrame : Type := {
  num_verts : Z;
  num_texcoords : Z;
  num_normals : Z;
  faces : list JoeFace;
  verts : list JoeVertex;
  normals : list JoeVertex;
  texcoords : list JoeTexCoord
}.

Record JoeObject : Type := {
  info : JoeHeader;
  frames : list JoeFrame
}.

Record VertEntry : Type := {
  original_index : Z;
  norm_index : Z;
  tex_index : Z
}.

(** [VertEntry()] *)
Definition VertEntry_new : VertEntry :=
  {| original_index := -1; norm_index := -1; tex_index := -1 |}.

Definition JOE_MAX_FACES : Z := 32000.
Definition JOE_VERSION : Z := 3.
(** [MODEL_SCALE = 1.0] *)
Definition MODEL_SCALE : Float.float := 1065353216.

Definition sizeof_JoeHeader : Z := 16.
Definition sizeof_JoeFace : Z := 18.
Definition sizeof_JoeVertex : Z := 12.
Definition sizeof_JoeTexCoord : Z := 8.
Definition sizeof_int : Z := 4.

(** mathvector.h is not among the sources: its [Vec3] is a parameter of
    the loader.  The members are the ones model_joe03.cpp calls. *)
Class MathVector : Type := {
  Vec3 : Type;
  vec_new : Vec3;                                   (* Vec3() *)
  vec_Set : triple Float.float -> Vec3;             (* Set, from an array of floats *)
  vec_at : Vec3 -> Z -> Float.float;                (* operator[] *)
  vec_add : Vec3 -> Vec3 -> Vec3;                   (* operator+ *)
  vec_sub : Vec3 -> Vec3 -> Vec3;                   (* operator- *)
  vec_mul : Vec3 -> Float.float -> Vec3;            (* product with a float *)
  vec_cross : Vec3 -> Vec3 -> Vec3;
  vec_dot : Vec3 -> Vec3 -> Float.float;
  vec_Magnitude : Vec3 -> Float.float;
  vec_Normalize : Vec3 -> Vec3
}.

(** Modelled from the spec: the render-target abstraction (the mesh's
    vertex array) is not among the sources.  It keeps what [SetFaces],
    [SetVertices], [SetNormals], [SetTexCoordSets] and [SetTexCoords] hand
    to it: the indices, the flat positions, the flat normals and the
    texture-coordinate sets. *)
Record VertexArray : Type := {
  mesh_faces : list Z;
  mesh_vertices : list Float.float;
  mesh_normals : list Float.float;
  mesh_texcoords : list (list Float.float)
}.

(** [Clear()] *)
Definition VertexArray_clear : VertexArray :=
  {| mesh_faces := []; mesh_vertices := []; mesh_normals := []; mesh_texcoords := [] |}.

(** Modelled from the spec: joepack.h is not among the sources.  A packed
    archive keeps "the same read/open/close contract scoped to a named
    entry": [JoePack_fopen pack name] is the content of the entry [name],
    if the archive can open it, [pack->fread] reads the open entry as
    [fread] reads a file, and [GetPath] is the path of the archive. *)
Record JoePack : Type := {
  GetPath : string;
  JoePack_fopen : string -> option (list byte)
}.

(** Modelled from the spec: [GenerateListID] and [GenerateVertexArrayObject]
    are declared outside model_joe03.cpp.  They are the "display-list-style
    precompute" and the "vertex-buffer-style precompute", "both delegated
    to the external render-target abstraction".  Each is handed the error
    stream and nothing else: what it writes to the stream for a mesh is a
    parameter of the loader; it returns and leaves the mesh as it is. *)
Class ModelBase : Type := {
  GenerateListID_errors : VertexArray -> string;
  GenerateVertexArrayObject_errors : VertexArray -> string
}.

(** ** What a load acts on: the open file, the error stream, the mesh *)

Record world : Type := {
  file : list byte;
  err_output : string;
  m_mesh : VertexArray
}.

Definition IO (A : Type) : Type := world -> outcome (A * world).

Definition io_ret {A : Type} (a : A) : IO A := fun w => Returned (a, w).

Definition io_bind {A B : Type} (c : IO A) (k : A -> IO B) : IO B :=
  fun w => r <- c w ;; k (fst r) (snd r).

Definition lift {A : Type} (c : outcome A) : IO A :=
  fun w => a <- c ;; Returned (a, w).

Declare Scope io_scope.
Delimit Scope io_scope with io.
Notation "x <- c ;; k" := (io_bind c (fun x => k))
  (at level 100, c at next level, right associativity) : io_scope.

(** [err_output << text] *)
Definition print (text : string) : IO unit :=
  fun w => Returned (tt, {| file := file w;
                            err_output := (err_output w ++ text)%string;
                            m_mesh := m_mesh w |}).

(** The decimal text of an [int], as [operator<<] writes it. *)
Definition show_int (n : Z) : string := NilZero.string_of_int (Z.to_int n).

(** [std::endl] *)
Definition endl : string := String (ascii_of_nat 10) EmptyString.

(** [BinaryRead]: [fread] hands over the complete elements it can read, at
    most [count] of them, and [assert(bytesread == count)] follows.  The
    result is the buffer's content.  [file] is what is left to read of the
    file that [Load] opened, or of the entry that it opened in the pack. *)
Definition BinaryRead (size : Z) (count : Z) : IO (list byte) :=
  fun w =>
    let count := count mod 2 ^ 32 in   (* unsigned int count *)
    let bytesread := Z.min count (Z.of_nat (length (file w)) / size) in
    let wanted := Z.to_nat (size * count) in
    if bytesread =? count
    then Returned (take wanted (file w),
                   {| file := drop wanted (file w);
                      err_output := err_output w;
                      m_mesh := m_mesh w |})
    else Aborted AssertionFailed.

(** ** Decoding the records of a frame: [BinaryRead] followed by [CorrectEndian] *)

Definition decode_shorts (off : nat) (record : list byte) : triple Z :=
  (Stored.ENDIAN_SWAP_16 (Stored.field off 2 record),
   Stored.ENDIAN_SWAP_16 (Stored.field (off + 2) 2 record),
   Stored.ENDIAN_SWAP_16 (Stored.field (off + 4) 2 record)).

Definition decode_JoeFace (record : list byte) : JoeFace :=
  {| vertexIndex := decode_shorts 0 record;
     normalIndex := decode_shorts 6 record;
     textureIndex := decode_shorts 12 record |}.

Definition decode_JoeVertex (record : list byte) : JoeVertex :=
  {| vertex := (Stored.ENDIAN_SWAP_FLOAT (Stored.field 0 4 record),
                Stored.ENDIAN_SWAP_FLOAT (Stored.field 4 4 record),
                Stored.ENDIAN_SWAP_FLOAT (Stored.field 8 4 record)) |}.

Definition decode_JoeTexCoord (record : list byte) : JoeTexCoord :=
  {| u := Stored.ENDIAN_SWAP_FLOAT (Stored.field 0 4 record);
     v := Stored.ENDIAN_SWAP_FLOAT (Stored.field 4 4 record) |}.

Definition decode_JoeHeader (buffer : list byte) : JoeHeader :=
  {| magic := Stored.ENDIAN_SWAP_32 (Stored.field 0 4 buffer);
     version := Stored.ENDIAN_SWAP_32 (Stored.field 4 4 buffer);
     num_faces := Stored.ENDIAN_SWAP_32 (Stored.field 8 4 buffer);
     num_frames := Stored.ENDIAN_SWAP_32 (Stored.field 12 4 buffer) |}.

(** An [int] read on its own and corrected. *)
Definition read_int : IO Z :=
  (raw <- BinaryRead sizeof_int 1 ;; io_ret (Stored.ENDIAN_SWAP_32 raw))%io.

(** The body of the first loop of [ReadData]: one frame is read. *)
Definition read_frame (n_faces : Z) : IO JoeFrame :=
  (size_f <- lift (vector_size n_faces) ;;
   raw_faces <- BinaryRead sizeof_JoeFace n_faces ;;
   n_verts <- read_int ;;
   n_texcoords <- read_int ;;
   n_normals <- read_int ;;
   size_v <- lift (vector_size n_verts) ;;
   size_n <- lift (vector_size n_normals) ;;
   size_t <- lift (vector_size n_texcoords) ;;
   raw_verts <- BinaryRead sizeof_JoeVertex n_verts ;;
   raw_normals <- BinaryRead sizeof_JoeVertex n_normals ;;
   raw_texcoords <- BinaryRead sizeof_JoeTexCoord n_texcoords ;;
   io_ret {| num_verts := n_verts;
             num_texcoords := n_texcoords;
             num_normals := n_normals;
             faces := map decode_JoeFace (Stored.records 18 size_f raw_faces);
             verts := map decode_JoeVertex (Stored.records 12 size_v raw_verts);
             normals := map decode_JoeVertex (Stored.records 12 size_n raw_normals);
             texcoords := map decode_JoeTexCoord (Stored.records 8 size_t raw_texcoords) |})%io.

Fixpoint read_frames (n_faces : Z) (n : nat) : IO (list JoeFrame) :=
  match n with
  | O => io_ret []
  | S n' => (frame <- read_frame n_faces ;;
             rest <- read_frames n_faces n' ;;
             io_ret (frame :: rest))%io
  end.

(** [Object.frames.resize(num_frames)] and the loop that reads the frames. *)
Definition read_object_frames (header : JoeHeader) : IO (list JoeFrame) :=
  (n <- lift (vector_size (num_frames header)) ;;
   read_frames (num_faces header) n)%io.

(** ** The vertex welder: the "build unique vertices" loop of [ReadData] *)

Definition with_verts (frame : JoeFrame) (vs : list JoeVertex) : JoeFrame :=
  {| num_verts := num_verts frame; num_texcoords := num_texcoords frame;
     num_normals := num_normals frame; faces := faces frame;
     verts := vs; normals := normals frame; texcoords := texcoords frame |}.

Definition with_normals (frame : JoeFrame) (ns : list JoeVertex) : JoeFrame :=
  {| num_verts := num_verts frame; num_texcoords := num_texcoords frame;
     num_normals := num_normals frame; faces := faces frame;
     verts := verts frame; normals := ns; texcoords := texcoords frame |}.

(** A [size_t] stored into an [int]. *)
Definition to_int (n : Z) : Z := Stored.signed 32 (n mod 2 ^ 32).

(** The body of the inner loop: corner [v] of face [i]. *)
Definition weld_corner (face : JoeFace) (i v : Z) (st : list VertEntry * list Z)
  : outcome (list VertEntry * list Z) :=
  let vert_master := fst st in
  let v_faces := snd st in
  let vi := sel (vertexIndex face) v in
  let ni := sel (normalIndex face) v in
  let ti := sel (textureIndex face) v in
  ve <- index vert_master vi ;;
  if original_index ve =? -1 then
    (* first entry *)
    _ <- assertion (0 <=? ti) ;;
    v_faces' <- store v_faces (i * 3 + v) vi ;;
    Returned (<[Z.to_nat vi := {| original_index := vi; norm_index := ni; tex_index := ti |}]>
                vert_master, v_faces')
  else if (norm_index ve =? ni) && (tex_index ve =? ti) then
    (* the pre-existing entry matches *)
    v_faces' <- store v_faces (i * 3 + v) vi ;;
    _ <- assertion (0 <=? tex_index ve) ;;
    Returned (vert_master, v_faces')
  else
    (* a new entry *)
    let vert_master' :=
      vert_master ++ [{| original_index := vi; norm_index := ni; tex_index := ti |}] in
    _ <- assertion (0 <=? ti) ;;
    v_faces' <- store v_faces (i * 3 + v) (to_int (Z.of_nat (length vert_master') - 1)) ;;
    Returned (vert_master', v_faces').

Definition weld_face (frame : JoeFrame) (i : Z) (st : list VertEntry * list Z)
  : outcome (list VertEntry * list Z) :=
  face <- index (faces frame) i ;;
  for_range 3 (weld_corner face i) st.

(** [vert_master] and [v_faces] as the welding loop leaves them. *)
Definition build_unique_vertices (frame : JoeFrame) (n_faces : Z)
  : outcome (list VertEntry * list Z) :=
  size_master <- vector_size (num_verts frame) ;;
  _ <- int_result (num_verts frame * 2) ;;          (* reserve(num_verts*2) *)
  n3 <- int_result (n_faces * 3) ;;
  size_faces <- vector_size n3 ;;
  for_range n_faces (weld_face frame)
            (replicate size_master VertEntry_new, replicate size_faces 0).

(** ** The flat arrays *)

Record FlatArrays : Type := {
  v_vertices : list Float.float;
  v_texcoords : list Float.float;
  v_normals : list Float.float
}.

(** [for (int d = 0; d < 3; d++) a[i*3+d] = x[d]] *)
Definition store3 (a : list Float.float) (i : Z) (x : triple Float.float)
  : outcome (list Float.float) :=
  for_range 3 (fun d a => k <- int_result (i * 3 + d) ;; store a k (sel x d)) a.

(** [a[i*2+0] = x; a[i*2+1] = y] *)
Definition store2 (a : list Float.float) (i : Z) (x y : Float.float)
  : outcome (list Float.float) :=
  k0 <- int_result (i * 2 + 0) ;;
  a' <- store a k0 x ;;
  k1 <- int_result (i * 2 + 1) ;;
  store a' k1 y.

(** The body of the filling loop for a populated entry. *)
Definition fill_entry (frame : JoeFrame) (i : Z) (e : VertEntry) (out : FlatArrays)
  : outcome FlatArrays :=
  p <- index (verts frame) (original_index e) ;;
  vs <- store3 (v_vertices out) i (vertex p) ;;
  n <- index (normals frame) (norm_index e) ;;
  ns <- store3 (v_normals out) i (vertex n) ;;
  ts <- (if tex_index e <? num_texcoords frame
         then t <- index (texcoords frame) (tex_index e) ;;
              store2 (v_texcoords out) i (u t) (v t)
         else store2 (v_texcoords out) i Float.zero Float.zero) ;;
  Returned {| v_vertices := vs; v_texcoords := ts; v_normals := ns |}.

(** [for (int i = 0; i < newvertnum; ++i)], where [newvertnum] is a [float]:
    [i] is converted to [float] for the comparison.  [entries] is what is
    left of [vert_master] from position [i] on. *)
Fixpoint fill_loop (frame : JoeFrame) (newvertnum : Z) (i : Z)
         (entries : list VertEntry) (out : FlatArrays) : outcome FlatArrays :=
  if Float.of_int i <? newvertnum then
    match entries with
    | [] => Aborted UndefinedBehaviour
    | e :: rest =>
        out' <- (if 0 <=? original_index e then fill_entry frame i e out
                 else Returned out) ;;
        i' <- int_result (i + 1) ;;
        fill_loop frame newvertnum i' rest out'
    end
  else Returned out.

(** [float newvertnum = vert_master.size()], the three vectors sized from
    it, and the loop that fills them. *)
Definition fill_arrays (frame : JoeFrame) (vert_master : list VertEntry)
  : outcome FlatArrays :=
  let newvertnum := Float.of_int (Z.of_nat (length vert_master)) in
  let zeros (n : Z) := replicate (Z.to_nat n) Float.zero in
  fill_loop frame newvertnum 0 vert_master
            {| v_vertices := zeros (Float.mul_int newvertnum 3);
               v_texcoords := zeros (Float.mul_int newvertnum 2);
               v_normals := zeros (Float.mul_int newvertnum 3) |}.

(** ** The loader *)

Section Loader.

Context {MV : MathVector} {MB : ModelBase}.

(** The body of the scaling loop: [temp.Set(vertex); temp = temp * MODEL_SCALE;
    vertex[n] = temp[n]]. *)
Definition scale_vertex (p : JoeVertex) : JoeVertex :=
  let temp := vec_mul (vec_Set (vertex p)) MODEL_SCALE in
  {| vertex := (vec_at temp 0, vec_at temp 1, vec_at temp 2) |}.

Definition scale_frames (n_frames : Z) (fs : list JoeFrame) : outcome (list JoeFrame) :=
  modify_each n_frames
    (fun frame =>
       vs <- modify_each (num_verts frame) (fun p => Returned (scale_vertex p))
                         (verts frame) ;;
       Returned (with_verts frame vs))
    fs.

(** Corner [c] of a face: the two assertions, then [tri[c]] and [norms[c]]. *)
Definition corner_vectors (frame : JoeFrame) (face : JoeFace) (c : Z)
  : outcome (Vec3 * Vec3) :=
  _ <- assertion (sel (vertexIndex face) c <? num_verts frame) ;;
  _ <- assertion (sel (normalIndex face) c <? num_normals frame) ;;
  p <- index (verts frame) (sel (vertexIndex face) c) ;;
  n <- index (normals frame) (sel (normalIndex face) c) ;;
  Returned (vec_Set (vertex p), vec_Set (vertex n)).

(** Whether a face counts towards [normal_flip_count]. *)
Definition flip_vote (tri norms : triple Vec3) : bool :=
  let norm := vec_add (vec_add (vec_add vec_new (sel norms 0)) (sel norms 1)) (sel norms 2) in
  let tnorm := vec_cross (vec_sub (sel tri 2) (sel tri 0)) (vec_sub (sel tri 1) (sel tri 0)) in
  if Float.gt_double (vec_Magnitude tnorm) Float.lit_0_0001
     && Float.gt_double (vec_Magnitude norm) Float.lit_0_0001
  then
    let norm := vec_Normalize norm in
    let tnorm := vec_Normalize tnorm in
    Float.lt_double (vec_dot norm tnorm) Float.lit_0_5
    && Float.gt_double (vec_dot norm tnorm) (SFopp Float.lit_0_5)
  else false.

(** The body of the loop over the faces of one frame. *)
Definition count_face (frame : JoeFrame) (i : Z) (normal_flip_count : Z) : outcome Z :=
  face <- index (faces frame) i ;;
  c0 <- corner_vectors frame face 0 ;;
  c1 <- corner_vectors frame face 1 ;;
  c2 <- corner_vectors frame face 2 ;;
  if flip_vote (fst c0, fst c1, fst c2) (snd c0, snd c1, snd c2)
  then Returned (normal_flip_count + 1)
  else Returned normal_flip_count.

Definition NeedsNormalSwap (Object : JoeObject) : outcome bool :=
  for_range (num_frames (info Object))
    (fun f need_normal_flip =>
       frame <- index (frames Object) f ;;
       normal_flip_count <- for_range (num_faces (info Object)) (count_face frame) 0 ;;
       if Z.quot (num_faces (info Object)) 4 <? normal_flip_count
       then Returned true
       else Returned need_normal_flip)
    false.

(** [std::swap(vertex[1], vertex[2]); vertex[1] = -vertex[1]] *)
Definition swap_normal (n : JoeVertex) : JoeVertex :=
  let '(x, y, z) := vertex n in
  let '(x, y, z) := (x, z, y) in
  {| vertex := (x, Float.neg y, z) |}.

Definition swap_normals (n_frames : Z) (fs : list JoeFrame) : outcome (list JoeFrame) :=
  modify_each n_frames
    (fun frame =>
       ns <- modify_each (num_normals frame) (fun n => Returned (swap_normal n))
                         (normals frame) ;;
       Returned (with_normals frame ns))
    fs.

(** The frames after the scaling loop and the conditional correction of
    the normals. *)
Definition prepare_frames (header : JoeHeader) (fs : list JoeFrame)
  : outcome (list JoeFrame) :=
  fs <- scale_frames (num_frames header) fs ;;
  flip <- NeedsNormalSwap {| info := header; frames := fs |} ;;
  if flip then swap_normals (num_frames header) fs else Returned fs.

(** What [ReadData] computes from the frames it has read: the welded
    frame 0. *)
Definition weld_object (header : JoeHeader) (fs : list JoeFrame)
  : outcome (list VertEntry * list Z * FlatArrays) :=
  fs <- prepare_frames header fs ;;
  frame <- index fs 0 ;;                              (* Object.frames[frame] *)
  built <- build_unique_vertices frame (num_faces header) ;;
  arrays <- fill_arrays frame (fst built) ;;
  Returned (built, arrays).

(** [SetFaces], [SetVertices], [SetNormals], [SetTexCoordSets(1)] and
    [SetTexCoords(0, ...)]. *)
Definition assign_mesh (v_faces : list Z) (arrays : FlatArrays) : IO unit :=
  fun w => Returned (tt, {| file := file w;
                            err_output := err_output w;
                            m_mesh := {| mesh_faces := v_faces;
                                         mesh_vertices := v_vertices arrays;
                                         mesh_normals := v_normals arrays;
                                         mesh_texcoords := [v_texcoords arrays] |} |}).

Definition ReadData (header : JoeHeader) : IO unit :=
  (fs <- read_object_frames header ;;
   welded <- lift (weld_object header fs) ;;
   assign_mesh (snd (fst welded)) (snd welded))%io.

(** [GenerateMeshMetrics] belongs to the mesh's base class, which is not
    among the sources; it reads the mesh and leaves what is modelled
    unchanged. *)
Definition GenerateMeshMetrics : IO unit := io_ret tt.

Definition LoadFromHandle : IO bool :=
  (buffer <- BinaryRead sizeof_JoeHeader 1 ;;
   let header := decode_JoeHeader buffer in
   if negb (version header =? JOE_VERSION) then
     _ <- print ("Invalid file format (Version is " ++ show_int (version header)
                 ++ " not " ++ show_int JOE_VERSION ++ "). ") ;;
     io_ret false
   else if JOE_MAX_FACES <? num_faces header then
     _ <- print (show_int (num_faces header) ++ " faces (max "
                 ++ show_int JOE_MAX_FACES ++ "). ") ;;
     io_ret false
   else
     _ <- ReadData header ;;
     _ <- GenerateMeshMetrics ;;
     io_ret true)%io.

(** [GenerateListID(err_output)] and [GenerateVertexArrayObject(err_output)] *)
Definition GenerateListID : IO unit :=
  fun w => print (GenerateListID_errors (m_mesh w)) w.

Definition GenerateVertexArrayObject : IO unit :=
  fun w => print (GenerateVertexArrayObject_errors (m_mesh w)) w.

(** [Load].  [disk] is the content of the file [filename], if [fopen] can
    open it; [pack] is the pack, if there is one; [err] is what the error
    stream holds so far.  After [Clear()] the source is opened: the file
    when there is no pack, the entry [filename] of the pack otherwise.
    The world that is returned holds what was left to read when the
    source was closed. *)
Definition Load (filename : string) (disk : option (list byte)) (genlist : bool)
           (pack : option JoePack) (err : string) : outcome (bool * world) :=
  let failed_to_open (message : string) :=
    Returned (false, {| file := [];
                        err_output := (err ++ message)%string;
                        m_mesh := VertexArray_clear |}) in
  let opened (content : list byte) :=
    r <- LoadFromHandle {| file := content; err_output := err;
                           m_mesh := VertexArray_clear |} ;;
    (if fst r
     then _ <- (if genlist then GenerateListID else GenerateVertexArrayObject) ;;
          io_ret true
     else _ <- print ("in " ++ filename ++ endl) ;;
          io_ret false)%io (snd r) in
  match pack with
  | None =>
      match disk with
      | None => failed_to_open ("MODEL_JOE03: Failed to open file "
                                ++ filename ++ endl)%string
      | Some content => opened content
      end
  | Some p =>
      match JoePack_fopen p filename with
      | None => failed_to_open ("MODEL_JOE03: Failed to open file " ++ filename
                                ++ " in " ++ GetPath p ++ endl)%string
      | Some content => opened content
      end
  end.

End Loader.

(** ** The stored form of an object *)

Module Write.

Definition byte_of (x : Z) : byte :=
  match Byte.of_N (Z.to_N (x mod 256)) with
  | Some b => b
  | None => x00
  end.

(** [n] little-endian bytes of [x]. *)
Fixpoint le_bytes (n : nat) (x : Z) : list byte :=
  match n with
  | O => []
  | S n' => byte_of x :: le_bytes n' (x / 256)
  end.

Definition put_short (x : Z) : list byte := le_bytes 2 (x mod 2 ^ 16).
Definition put_int (x : Z) : list byte := le_bytes 4 (x mod 2 ^ 32).
Definition put_float (x : Float.float) : list byte := le_bytes 4 x.

Definition put_shorts (t : triple Z) : list byte :=
  let '(a, b, c) := t in put_short a ++ put_short b ++ put_short c.

Definition put_JoeFace (f : JoeFace) : list byte :=
  put_shorts (vertexIndex f) ++ put_shorts (normalIndex f) ++ put_shorts (textureIndex f).

Definition put_JoeVertex (p : JoeVertex) : list byte :=
  let '(x, y, z) := vertex p in put_float x ++ put_float y ++ put_float z.

Definition put_JoeTexCoord (t : JoeTexCoord) : list byte :=
  put_float (u t) ++ put_float (v t).

Definition put_JoeHeader (h : JoeHeader) : list byte :=
  put_int (magic h) ++ put_int (version h) ++ put_int (num_faces h)
          ++ put_int (num_frames h).

Definition put_JoeFrame (f : JoeFrame) : list byte :=
  concat (map put_JoeFace (faces f))
  ++ put_int (num_verts f) ++ put_int (num_texcoords f) ++ put_int (num_normals f)
  ++ concat (map put_JoeVertex (verts f))
  ++ concat (map put_JoeVertex (normals f))
  ++ concat (map put_JoeTexCoord (texcoords f)).

Definition put_JoeObject (o : JoeObject) : list byte :=
  put_JoeHeader (info o) ++ concat (map put_JoeFrame (frames o)).

End Write.

(** ** A reference [Vec3] *)

Module Reference.

Definition binary32 : Type := spec_float.
Definition add : binary32 -> binary32 -> binary32 := SFadd 24 128.
Definition sub : binary32 -> binary32 -> binary32 := SFsub 24 128.
Definition mul : binary32 -> binary32 -> binary32 := SFmul 24 128.
Definition div : binary32 -> binary32 -> binary32 := SFdiv 24 128.
Definition sqrt : binary32 -> binary32 := SFsqrt 24 128.

Definition dot (a b : triple binary32) : binary32 :=
  let '(a0, a1, a2) := a in
  let '(b0, b1, b2) := b in
  add (add (mul a0 b0) (mul a1 b1)) (mul a2 b2).

Definition cross (a b : triple binary32) : triple binary32 :=
  let '(a0, a1, a2) := a in
  let '(b0, b1, b2) := b in
  (sub (mul a1 b2) (mul a2 b1), sub (mul a2 b0) (mul a0 b2), sub (mul a0 b1) (mul a1 b0)).

Definition pointwise (f : binary32 -> binary32) (a : triple binary32) : triple binary32 :=
  let '(a0, a1, a2) := a in (f a0, f a1, f a2).

Definition pointwise2 (f : binary32 -> binary32 -> binary32) (a b : triple binary32)
  : triple binary32 :=
  let '(a0, a1, a2) := a in
  let '(b0, b1, b2) := b in
  (f a0 b0, f a1 b1, f a2 b2).

Definition magnitude (a : triple binary32) : binary32 := sqrt (dot a a).

(** Modelled from the spec: mathvector.h is not among the sources.  The
    vectors are triples of binary32 values; sum, difference, cross and
    dot product, magnitude and normalization are computed component by
    component in binary32, each operation rounded to nearest even. *)
Definition ieee_vec3 : MathVector :=
  {| Vec3 := triple binary32;
     vec_new := (S754_zero false, S754_zero false, S754_zero false);
     vec_Set := fun t => let '(x, y, z) := t in
                         (Float.of_bits x, Float.of_bits y, Float.of_bits z);
     vec_at := fun a d => Float.to_bits (sel a d);
     vec_add := pointwise2 add;
     vec_sub := pointwise2 sub;
     vec_mul := fun a k => pointwise (fun x => mul x (Float.of_bits k)) a;
     vec_cross := cross;
     vec_dot := fun a b => Float.to_bits (dot a b);
     vec_Magnitude := fun a => Float.to_bits (magnitude a);
     vec_Normalize := fun a => pointwise (fun x => div x (magnitude a)) a |}.

(** A render target that reports no error. *)
Definition no_errors : ModelBase :=
  {| GenerateListID_errors := fun _ => EmptyString;
     GenerateVertexArrayObject_errors := fun _ => EmptyString |}.

End Reference.

(** * The vocabulary of the properties *)

(** What the reading loop establishes about a frame: every array has the
    length its count announces. *)
Definition frame_shape (n_faces : Z) (f : JoeFrame) : Prop :=
  (0 <= n_faces /\ length (faces f) = Z.to_nat n_faces)
  /\ (0 <= num_verts f /\ length (verts f) = Z.to_nat (num_verts f))
  /\ (0 <= num_normals f /\ length (normals f) = Z.to_nat (num_normals f))
  /\ (0 <= num_texcoords f /\ length (texcoords f) = Z.to_nat (num_texcoords f)).

(** The correction of a normal in the words of the specification:
    [(x, y, z)] becomes [(x, -z, y)]. *)
Definition corrected (n : JoeVertex) : JoeVertex :=
  let '(x, y, z) := vertex n in {| vertex := (x, Float.neg z, y) |}.

(** The entry that corner [c] of a face asks for. *)
Definition corner_entry (face : JoeFace) (c : Z) : VertEntry :=
  {| original_index := sel (vertexIndex face) c;
     norm_index := sel (normalIndex face) c;
     tex_index := sel (textureIndex face) c |}.

(** A populated slot, as the filling loop tests it. *)
Definition populated (e : VertEntry) : Prop := 0 <= original_index e.

(** The (vertex, normal, texcoord) triple of an entry. *)
Definition attributes (e : VertEntry) : Z * Z * Z :=
  (original_index e, norm_index e, tex_index e).

(** The layout of [vert_master] over [nv] source vertices.  A slot below
    [nv] is empty or holds an entry of the vertex of its own position.  A
    slot from [nv] on was appended: it is populated, and when its vertex
    is one of the [nv], the slot of that vertex is populated with another
    normal or another texture coordinate. *)
Definition table_layout (nv : nat) (vm : list VertEntry) : Prop :=
  (nv <= length vm)%nat
  /\ forall (k : nat) (e : VertEntry),
      vm !! k = Some e ->
      ((k < nv)%nat -> original_index e = -1 \/ original_index e = Z.of_nat k)
      /\ ((nv <= k)%nat ->
          0 <= original_index e
          /\ (original_index e < Z.of_nat nv ->
              exists e0, vm !! Z.to_nat (original_index e) = Some e0
                         /\ original_index e0 = original_index e
                         /\ (norm_index e0 <> norm_index e \/ tex_index e0 <> tex_index e))).

(** Every entry is the initial one or the entry of a corner of a face. *)
Definition from_corners (fcs : list JoeFace) (vm : list VertEntry) : Prop :=
  forall (k : nat) (e : VertEntry),
    vm !! k = Some e ->
    e = VertEntry_new
    \/ exists face c, face ∈ fcs /\ (c = 0 \/ c = 1 \/ c = 2) /\ e = corner_entry face c.

(** The indices of a face are in range for a frame: the vertex and the
    normal index of every corner lie inside the frame's arrays, and the
    texture index is not negative (one that is too large is tolerated). *)
Definition face_in_range (frame : JoeFrame) (face : JoeFace) : Prop :=
  forall c, 0 <= c < 3 ->
    0 <= sel (vertexIndex face) c < num_verts frame
    /\ 0 <= sel (normalIndex face) c < num_normals frame
    /\ 0 <= sel (textureIndex face) c.

Definition frame_in_range (frame : JoeFrame) : Prop :=
  forall face, face ∈ faces frame -> face_in_range frame face.

(** Every vertex index is paired with one normal index and one texture
    index over all the corners that use it. *)
Definition one_pair_per_vertex (fcs : list JoeFace) : Prop :=
  forall f1 f2 c1 c2,
    f1 ∈ fcs -> f2 ∈ fcs -> 0 <= c1 < 3 -> 0 <= c2 < 3 ->
    sel (vertexIndex f1) c1 = sel (vertexIndex f2) c2 ->
    sel (normalIndex f1) c1 = sel (normalIndex f2) c2
    /\ sel (textureIndex f1) c1 = sel (textureIndex f2) c2.

(** The texture coordinates of a slot in the words of the specification:
    gathered if the source index is within the frame's texcoord count,
    (0, 0) otherwise. *)
Definition texcoord_for (frame : JoeFrame) (e : VertEntry)
  : option (Float.float * Float.float) :=
  if tex_index e <? num_texcoords frame
  then match texcoords frame !! Z.to_nat (tex_index e) with
       | Some t => Some (u t, v t)
       | None => None
       end
  else Some (Float.zero, Float.zero).

(** The filling loop reaches position [k] of a table of [len] entries:
    its test [i < newvertnum], made in [float], passes up to [k]. *)
Definition reached (len : nat) (k : nat) : Prop :=
  forall j, 0 <= j <= Z.of_nat k -> Float.of_int j < Float.of_int (Z.of_nat len).

(** The sources of a populated entry exist in the frame: its vertex and
    its normal are there, and its texture index is not negative. *)
Definition entry_in_range (frame : JoeFrame) (e : VertEntry) : Prop :=
  populated e ->
  original_index e < Z.of_nat (length (verts frame))
  /\ 0 <= norm_index e < Z.of_nat (length (normals frame))
  /\ 0 <= tex_index e.

(** Two frames with the same faces and counts, and arrays of the same
    lengths: scaling and the correction of the normals change the floats
    and nothing else. *)
Definition same_topology (f f' : JoeFrame) : Prop :=
  faces f' = faces f
  /\ num_verts f' = num_verts f
  /\ num_normals f' = num_normals f
  /\ num_texcoords f' = num_texcoords f
  /\ length (verts f') = length (verts f)
  /\ length (normals f') = length (normals f)
  /\ length (texcoords f') = length (texcoords f).

(** The frames after the scaling loop. *)
Definition scaled {MV : MathVector} (fs : list JoeFrame) : list JoeFrame :=
  map (fun f => with_verts f (map scale_vertex (verts f))) fs.

(** ** The heuristic in the words of its description *)

(** The position and the normal of corner [c] of a face. *)
Definition corner_lookup {MV : MathVector} (frame : JoeFrame) (face : JoeFace) (c : Z)
  : option (Vec3 * Vec3) :=
  match verts frame !! Z.to_nat (sel (vertexIndex face) c),
        normals frame !! Z.to_nat (sel (normalIndex face) c) with
  | Some p, Some n => Some (vec_Set (vertex p), vec_Set (vertex n))
  | _, _ => None
  end.

(** A face casts a flip vote when the geometric face normal
    [(v2 - v0) x (v1 - v0)] and the summed vertex normal (accumulated from
    the zero vector) both have a magnitude not below 0.0001, and the dot
    product of their normalizations is strictly between -0.5 and 0.5.  The
    comparisons are those of the floating-point format: none holds of a
    NaN. *)
Definition casts_flip_vote {MV : MathVector} (v0 v1 v2 n0 n1 n2 : Vec3) : bool :=
  let face_normal := vec_cross (vec_sub v2 v0) (vec_sub v1 v0) in
  let vertex_normal := vec_add (vec_add (vec_add vec_new n0) n1) n2 in
  let d := vec_dot (vec_Normalize vertex_normal) (vec_Normalize face_normal) in
  Float.ge_double (vec_Magnitude face_normal) Float.lit_0_0001
  && Float.ge_double (vec_Magnitude vertex_normal) Float.lit_0_0001
  && (Float.gt_double d (SFopp Float.lit_0_5) && Float.lt_double d Float.lit_0_5).

Definition face_votes {MV : MathVector} (frame : JoeFrame) (face : JoeFace) : bool :=
  match corner_lookup frame face 0, corner_lookup frame face 1, corner_lookup frame face 2 with
  | Some (v0, n0), Some (v1, n1), Some (v2, n2) => casts_flip_vote v0 v1 v2 n0 n1 n2
  | _, _, _ => false
  end.

(** The flip-vote count of a frame: the voting faces among its first
    [n_faces] faces. *)
Definition flip_votes {MV : MathVector} (n_faces : Z) (frame : JoeFrame) : Z :=
  Z.of_nat (length (List.filter (face_votes frame) (take (Z.to_nat n_faces) (faces frame)))).

(** ** Files that the format stores without loss *)

Definition is_short (x : Z) : Prop := - 2 ^ 15 <= x < 2 ^ 15.
Definition is_int (x : Z) : Prop := - 2 ^ 31 <= x < 2 ^ 31.
Definition is_float (x : Float.float) : Prop := 0 <= x < 2 ^ 32.

Definition each {A : Type} (P : A -> Prop) (t : triple A) : Prop :=
  let '(a, b, c) := t in P a /\ P b /\ P c.

Definition storable_face (f : JoeFace) : Prop :=
  each is_short (vertexIndex f) /\ each is_short (normalIndex f)
  /\ each is_short (textureIndex f).

Definition storable_vertex (p : JoeVertex) : Prop := each is_float (vertex p).

Definition storable_texcoord (t : JoeTexCoord) : Prop := is_float (u t) /\ is_float (v t).

Definition storable_frame (n_faces : Z) (f : JoeFrame) : Prop :=
  frame_shape n_faces f
  /\ n_faces < 2 ^ 31
  /\ num_verts f < 2 ^ 31 /\ num_normals f < 2 ^ 31 /\ num_texcoords f < 2 ^ 31
  /\ Forall storable_face (faces f)
  /\ Forall storable_vertex (verts f)
  /\ Forall storable_vertex (normals f)
  /\ Forall storable_texcoord (texcoords f).

(** * More vocabulary *)

(** ** Reading a prefix of the file *)

(** The world with another content of the file. *)
Definition with_file (w : world) (content : list byte) : world :=
  {| file := content; err_output := err_output w; m_mesh := m_mesh w |}.

(** [p] is a beginning of [l] that stops before its end. *)
Definition cut_short (p l : list byte) : Prop :=
  p `prefix_of` l /\ (length p < length l)%nat.

(** A computation reads a prefix of the file and looks at nothing else of
    it: when it returns, it has consumed a prefix [used] of the file; it
    returns the same on every file that begins with [used]; and on every
    file that ends inside [used] it fails the assertion of [BinaryRead]. *)
Definition reads_prefix {A : Type} (c : IO A) : Prop :=
  forall (w : world) (a : A) (w' : world),
    c w = Returned (a, w') ->
    exists used : list byte,
      file w = used ++ file w'
      /\ (forall rest, c (with_file w (used ++ rest)) = Returned (a, with_file w' rest))
      /\ (forall p, cut_short p used -> c (with_file w p) = Aborted AssertionFailed).

(** ** The steps of a load *)

(** The frames after scaling and, when the object is flagged, the
    correction of the normals. *)
Definition prepared {MV : MathVector} (flag : bool) (fs : list JoeFrame) : list JoeFrame :=
  if flag
  then map (fun f => with_normals f (map corrected (normals f))) (scaled fs)
  else scaled fs.

(** The steps from the frames that were read to the welded mesh: the
    heuristic's flag, the prepared frame 0, its table and index array, and
    the flat arrays. *)
Definition welds {MV : MathVector} (header : JoeHeader) (fs : list JoeFrame)
           (flag : bool) (f0 : JoeFrame) (vm : list VertEntry) (vf : list Z)
           (arrays : FlatArrays) : Prop :=
  NeedsNormalSwap {| info := header; frames := scaled fs |} = Returned flag
  /\ prepared flag fs !! 0%nat = Some f0
  /\ build_unique_vertices f0 (num_faces header) = Returned (vm, vf)
  /\ fill_arrays f0 vm = Returned arrays.

(** The mesh that [ReadData] assigns. *)
Definition mesh_of (vf : list Z) (arrays : FlatArrays) : VertexArray :=
  {| mesh_faces := vf;
     mesh_vertices := v_vertices arrays;
     mesh_normals := v_normals arrays;
     mesh_texcoords := [v_texcoords arrays] |}.

(** What the precompute step that [genlist] selects writes to the error
    stream. *)
Definition generation_errors {MB : ModelBase} (genlist : bool) (mesh : VertexArray)
  : string :=
  if genlist then GenerateListID_errors mesh else GenerateVertexArrayObject_errors mesh.

(** The vertex and the normal index of every corner of a face lie inside
    the frame's arrays (nothing is said about the texture index). *)
Definition face_geometry_in_range (frame : JoeFrame) (face : JoeFace) : Prop :=
  forall c, 0 <= c < 3 ->
    0 <= sel (vertexIndex face) c < num_verts frame
    /\ 0 <= sel (normalIndex face) c < num_normals frame.

Definition geometry_in_range (frame : JoeFrame) : Prop :=
  forall face, face ∈ faces frame -> face_geometry_in_range frame face.

(** Every vertex index of the faces is below the frame's vertex count
    (what the assertions of [NeedsNormalSwap] have checked when the welder
    runs). *)
Definition vertices_below_count (frame : JoeFrame) : Prop :=
  forall face c, face ∈ faces frame -> 0 <= c < 3 ->
                 sel (vertexIndex face) c < num_verts frame.

(** The three floats of [x] at the positions of vertex [i] of a flat
    array. *)
Definition put3 (a : list Float.float) (i : Z) (x : triple Float.float) : list Float.float :=
  <[Z.to_nat (i * 3 + 2) := sel x 2]>
    (<[Z.to_nat (i * 3 + 1) := sel x 1]> (<[Z.to_nat (i * 3) := sel x 0]> a)).

(** A flat array holds [x] as its vertex [k]. *)
Definition holds3 (a : list Float.float) (k : Z) (x : triple Float.float) : Prop :=
  forall d, 0 <= d < 3 -> a !! Z.to_nat (k * 3 + d) = Some (sel x d).

(** One frame after scaling and, when the object is flagged, the
    correction of its normals. *)
Definition prepared_frame {MV : MathVector} (flag : bool) (f : JoeFrame) : JoeFrame :=
  let f1 := with_verts f (map scale_vertex (verts f)) in
  if flag then with_normals f1 (map corrected (normals f1)) else f1.

(** Vertex [k] of a mesh: its position, its normal and its pair of texture
    coordinates in the one texture-coordinate set. *)
Definition mesh_vertex_is (mesh : VertexArray) (k : Z)
           (position normal : triple Float.float) (uv : Float.float * Float.float) : Prop :=
  holds3 (mesh_vertices mesh) k position
  /\ holds3 (mesh_normals mesh) k normal
  /\ exists t, mesh_texcoords mesh = [t]
               /\ t !! Z.to_nat (k * 2) = Some (fst uv)
               /\ t !! Z.to_nat (k * 2 + 1) = Some (snd uv).

(** The bytes of one frame in the file: the faces, the three counts, the
    vertices, the normals and the texture coordinates. *)
Definition frame_bytes (n_faces : Z) (f : JoeFrame) : Z :=
  sizeof_JoeFace * n_faces + 3 * sizeof_int
  + sizeof_JoeVertex * num_verts f + sizeof_JoeVertex * num_normals f
  + sizeof_JoeTexCoord * num_texcoords f.

Definition frames_bytes (n_faces : Z) (fs : list JoeFrame) : Z :=
  fold_right Z.add 0 (map (frame_bytes n_faces) fs).

(** ** Files used as examples *)

Module Example.

(** 1.0f *)
Definition one : Float.float := 1065353216.

Definition point (x y z : Float.float) : JoeVertex := {| vertex := (x, y, z) |}.

(** Two triangles over three vertices.  The second face uses another
    normal at the vertices 2 and 1, and the first face refers to a
    texture coordinate that the frame does not have (index 5 of 1). *)
Definition two_faces_frame : JoeFrame :=
  {| num_verts := 3; num_texcoords := 1; num_normals := 2;
     faces := [ {| vertexIndex := (0, 1, 2); normalIndex := (0, 0, 0);
                   textureIndex := (0, 0, 5) |};
                {| vertexIndex := (0, 2, 1); normalIndex := (0, 1, 1);
                   textureIndex := (0, 0, 0) |} ];
     verts := [ point 0 0 0; point one 0 0; point 0 one 0 ];
     normals := [ point 0 0 one; point 0 one 0 ];
     texcoords := [ {| u := one; v := one |} ] |}.

Definition two_faces : JoeObject :=
  {| info := {| magic := 8; version := 3; num_faces := 2; num_frames := 1 |};
     frames := [ two_faces_frame ] |}.

(** The table that the welder builds for [two_faces_frame]. *)
Definition two_faces_table : list VertEntry :=
  [ {| original_index := 0; norm_index := 0; tex_index := 0 |};
    {| original_index := 1; norm_index := 0; tex_index := 0 |};
    {| original_index := 2; norm_index := 0; tex_index := 5 |};
    {| original_index := 2; norm_index := 1; tex_index := 0 |};
    {| original_index := 1; norm_index := 1; tex_index := 0 |} ].

(** One triangle over three vertices, every vertex with one normal and
    one texture coordinate. *)
Definition one_face : JoeFrame :=
  {| num_verts := 3; num_texcoords := 1; num_normals := 1;
     faces := [ {| vertexIndex := (0, 1, 2); normalIndex := (0, 0, 0);
                   textureIndex := (0, 0, 0) |} ];
     verts := [ point 0 0 0; point one 0 0; point 0 one 0 ];
     normals := [ point 0 0 one ];
     texcoords := [ {| u := one; v := one |} ] |}.

(** One face whose three corners are the same vertex, the second and
    the third with another normal than the first. *)
Definition repeated_corner : JoeObject :=
  {| info := {| magic := 8; version := 3; num_faces := 1; num_frames := 1 |};
     frames :=
       [ {| num_verts := 1; num_texcoords := 1; num_normals := 2;
            faces := [ {| vertexIndex := (0, 0, 0); normalIndex := (0, 1, 1);
                          textureIndex := (0, 0, 0) |} ];
            verts := [ point 0 0 0 ];
            normals := [ point 0 0 one; point 0 one 0 ];
            texcoords := [ {| u := one; v := one |} ] |} ] |}.

(** 2^24 vertices, of which one face uses the first, three times, the
    second time with another normal.  The welder appends one entry, so
    the table has 2^24 + 1 entries, a count that no [float] holds. *)
Definition many : Z := 16777216.

Definition thrice : JoeFace :=
  {| vertexIndex := (0, 0, 0); normalIndex := (0, 1, 0); textureIndex := (0, 0, 0) |}.

Definition many_frame : JoeFrame :=
  {| num_verts := many; num_texcoords := 1; num_normals := 2;
     faces := [ thrice ];
     verts := replicate (Z.to_nat many) (point 0 0 0);
     normals := [ point 0 0 one; point 0 one 0 ];
     texcoords := [ {| u := one; v := one |} ] |}.

Definition many_vertices : JoeObject :=
  {| info := {| magic := 8; version := 3; num_faces := 1; num_frames := 1 |};
     frames := [ many_frame ] |}.

(** A header and nothing else: version 3, no face, no frame. *)
Definition no_frame : JoeHeader :=
  {| magic := 8; version := 3; num_faces := 0; num_frames := 0 |}.

Definition header (v f n : Z) : JoeHeader :=
  {| magic := 8; version := v; num_faces := f; num_frames := n |}.

(** The state in which [Load] calls [LoadFromHandle]. *)
Definition opened (content : list byte) : world :=
  {| file := content; err_output := ""; m_mesh := VertexArray_clear |}.

(** A pack without entries. *)
Definition empty_pack : JoePack :=
  {| GetPath := "cars.jpk"; JoePack_fopen := fun _ => None |}.

(** A pack whose entries all hold the same content. *)
Definition pack_of (content : list byte) : JoePack :=
  {| GetPath := "cars.jpk"; JoePack_fopen := fun _ => Some content |}.

End Example.

(** * Properties *)

(** ** Runs *)

Lemma bind_Returned {A B : Type} (c : outcome A) (k : A -> outcome B) (b : B) :
  bind c k = Returned b <-> exists a, c = Returned a /\ k a = Returned b.
Proof.
  destruct c as [a|why]; simpl; split.
  - intros H. exists a. split; [reflexivity | exact H].
  - intros (a' & Ha & Hk). inversion Ha; subst. exact Hk.
  - discriminate.
  - intros (a' & Ha & _). discriminate.
Qed.

Lemma assertion_Returned (b : bool) (x : unit) :
  assertion b = Returned x <-> b = true.
Proof.
  destruct b, x; simpl; split; intros H; try reflexivity; discriminate.
Qed.

Lemma int_result_Returned (n m : Z) :
  int_result n = Returned m <-> (m = n /\ - 2 ^ 31 <= n < 2 ^ 31).
Proof.
  unfold int_result.
  destruct (Z.leb_spec (- 2 ^ 31) n), (Z.ltb_spec n (2 ^ 31)); simpl; split;
    try discriminate; try (intros [_ ?]; lia).
  - intros H1; inversion H1; lia.
  - intros [-> _]; reflexivity.
Qed.

Lemma int_result_in_range (n : Z) :
  - 2 ^ 31 <= n < 2 ^ 31 -> int_result n = Returned n.
Proof. intros H. apply int_result_Returned. lia. Qed.

Lemma vector_size_Returned (n : Z) (k : nat) :
  vector_size n = Returned k <-> (0 <= n /\ k = Z.to_nat n).
Proof.
  unfold vector_size. destruct (Z.ltb_spec n 0); split.
  - discriminate.
  - intros [? _]; lia.
  - intros H1; inversion H1; lia.
  - intros [_ ->]; reflexivity.
Qed.

Lemma index_Returned {A : Type} (l : list A) (i : Z) (x : A) :
  index l i = Returned x <-> (0 <= i /\ l !! Z.to_nat i = Some x).
Proof.
  unfold index. destruct (Z.ltb_spec i 0).
  - split; [discriminate | intros [? _]; lia].
  - destruct (l !! Z.to_nat i) as [y|]; split.
    + intros H1; inversion H1; auto.
    + intros [_ H1]; inversion H1; reflexivity.
    + discriminate.
    + intros [_ ?]; discriminate.
Qed.

Lemma index_in_range {A : Type} (l : list A) (i : Z) :
  0 <= i < Z.of_nat (length l) -> exists x, index l i = Returned x.
Proof.
  intros H. destruct (lookup_lt_is_Some_2 l (Z.to_nat i)) as [x Hx]; [lia|].
  exists x. apply index_Returned. split; [lia | exact Hx].
Qed.

Lemma store_Returned {A : Type} (l l' : list A) (i : Z) (x : A) :
  store l i x = Returned l' <->
  (0 <= i < Z.of_nat (length l) /\ l' = <[Z.to_nat i := x]> l).
Proof.
  unfold store.
  destruct (Z.leb_spec 0 i), (Z.ltb_spec i (Z.of_nat (length l))); simpl; split;
    try discriminate; try (intros [? _]; lia).
  - intros H1; inversion H1; auto.
  - intros [_ ->]; reflexivity.
Qed.

Lemma store_in_range {A : Type} (l : list A) (i : Z) (x : A) :
  0 <= i < Z.of_nat (length l) -> store l i x = Returned (<[Z.to_nat i := x]> l).
Proof. intros H. apply store_Returned. auto. Qed.

(** ** Loops *)

(** What holds before a loop and is kept by every iteration that returns
    holds when the loop returns. *)
Lemma for_loop_invariant {St : Type} (P : Z -> St -> Prop) (body : Z -> St -> outcome St) :
  forall (n : nat) (i : Z) (s s' : St),
    (forall j t t', i <= j < i + Z.of_nat n -> P j t -> body j t = Returned t' -> P (j + 1) t') ->
    P i s ->
    for_loop body i n s = Returned s' ->
    P (i + Z.of_nat n) s'.
Proof.
  induction n as [|n IH]; intros i s s' Hstep Hinit Hrun; simpl in Hrun.
  - inversion Hrun; subst. replace (i + Z.of_nat 0) with i by lia. exact Hinit.
  - apply bind_Returned in Hrun as (t & Hb & Hrest).
    replace (i + Z.of_nat (S n)) with ((i + 1) + Z.of_nat n) by lia.
    apply IH with (s := t); [ | | exact Hrest].
    + intros j u u' Hj. apply Hstep. lia.
    + apply Hstep with (t := s); [lia | exact Hinit | exact Hb].
Qed.

(** A loop whose iterations all return, returns. *)
Lemma for_loop_returns {St : Type} (P : Z -> St -> Prop) (body : Z -> St -> outcome St) :
  forall (n : nat) (i : Z) (s : St),
    (forall j t, i <= j < i + Z.of_nat n -> P j t ->
                 exists t', body j t = Returned t' /\ P (j + 1) t') ->
    P i s ->
    exists s', for_loop body i n s = Returned s' /\ P (i + Z.of_nat n) s'.
Proof.
  induction n as [|n IH]; intros i s Hstep Hinit; simpl.
  - exists s. split; [reflexivity|]. replace (i + Z.of_nat 0) with i by lia. exact Hinit.
  - destruct (Hstep i s) as (t & Hb & Ht); [lia | exact Hinit |].
    rewrite Hb; simpl.
    replace (i + Z.of_nat (S n)) with ((i + 1) + Z.of_nat n) by lia.
    apply IH; [ | exact Ht].
    intros j u Hj. apply Hstep. lia.
Qed.

(** A loop that rewrites every element of a vector in place maps the
    element's function over it. *)
Lemma modify_each_map {A : Type} (f : A -> outcome A) (g : A -> A) (n : Z) (l : list A) :
  Z.to_nat n = length l ->
  (forall x, x ∈ l -> f x = Returned (g x)) ->
  modify_each n f l = Returned (map g l).
Proof.
  intros Hn Hf. unfold modify_each, for_range. rewrite Hn.
  assert (Hgen : forall (done todo : list A),
             (forall x, x ∈ todo -> f x = Returned (g x)) ->
             for_loop (fun i l => x <- index l i ;; y <- f x ;; store l i y)
                      (Z.of_nat (length done)) (length todo) (done ++ todo)
             = Returned (done ++ map g todo)).
  { intros done todo. revert done.
    induction todo as [|x todo IH]; intros done Hall; simpl.
    - reflexivity.
    - assert (Hix : index (done ++ x :: todo) (Z.of_nat (length done)) = Returned x).
      { apply index_Returned. split; [lia|].
        rewrite Nat2Z.id. apply list_lookup_middle. reflexivity. }
      rewrite Hix; simpl. rewrite (Hall x) by (apply list_elem_of_here). simpl.
      rewrite store_in_range by (rewrite length_app; simpl; lia). simpl.
      rewrite Nat2Z.id.
      replace (<[length done:=g x]> (done ++ x :: todo)) with ((done ++ [g x]) ++ todo).
      2:{ rewrite insert_app_r_alt by lia. rewrite Nat.sub_diag. simpl.
          rewrite <- app_assoc. reflexivity. }
      replace (Z.of_nat (length done) + 1) with (Z.of_nat (length (done ++ [g x])))
        by (rewrite length_app; simpl; lia).
      rewrite IH.
      + rewrite <- app_assoc. reflexivity.
      + intros y Hy. apply Hall. apply list_elem_of_further. exact Hy. }
  exact (Hgen [] l Hf).
Qed.

(** ** The header *)

Section Header.

Context {MV : MathVector} {MB : ModelBase}.

(** What [LoadFromHandle] does once the 16 bytes of the header are there. *)
Lemma LoadFromHandle_header (hb body : list byte) (err : string) (mesh : VertexArray) :
  length hb = 16%nat ->
  LoadFromHandle {| file := hb ++ body; err_output := err; m_mesh := mesh |}
  = let header := decode_JoeHeader hb in
    let w := {| file := body; err_output := err; m_mesh := mesh |} in
    if negb (version header =? JOE_VERSION) then
      Returned (false,
                {| file := body;
                   err_output := (err ++ ("Invalid file format (Version is "
                                          ++ show_int (version header)
                                          ++ " not " ++ show_int JOE_VERSION ++ "). "))%string;
                   m_mesh := mesh |})
    else if JOE_MAX_FACES <? num_faces header then
      Returned (false,
                {| file := body;
                   err_output := (err ++ (show_int (num_faces header) ++ " faces (max "
                                          ++ show_int JOE_MAX_FACES ++ "). "))%string;
                   m_mesh := mesh |})
    else r <- ReadData header w ;; Returned (true, snd r).
Proof.
  intros Hlen. unfold LoadFromHandle, io_bind at 1, BinaryRead. cbn [file err_output m_mesh].
  change (1 mod 2 ^ 32) with 1. change (sizeof_JoeHeader * 1) with 16.
  change (Z.to_nat 16) with 16%nat. unfold sizeof_JoeHeader.
  assert (Hq : Z.min 1 (Z.of_nat (length (hb ++ body)) / 16) = 1).
  { rewrite length_app, Hlen. apply Z.min_l.
    apply Z.div_le_lower_bound; lia. }
  rewrite Hq. change (1 =? 1) with true. cbn [bind fst snd].
  replace (take 16 (hb ++ body)) with hb
    by (rewrite <- Hlen, take_app_length; reflexivity).
  replace (drop 16 (hb ++ body)) with body
    by (rewrite <- Hlen, drop_app_length; reflexivity).
  cbv zeta.
  destruct (version (decode_JoeHeader hb) =? JOE_VERSION); cbn [negb].
  - destruct (JOE_MAX_FACES <? num_faces (decode_JoeHeader hb)).
    + reflexivity.
    + unfold io_bind, GenerateMeshMetrics, io_ret.
      destruct (ReadData (decode_JoeHeader hb) _) as [[[] w']|why]; reflexivity.
  - reflexivity.
Qed.

(** A file that ends inside the header fails the assertion of [BinaryRead]. *)
Lemma LoadFromHandle_truncated (w : world) :
  (length (file w) < 16)%nat -> LoadFromHandle w = Aborted AssertionFailed.
Proof.
  intros Hlen. unfold LoadFromHandle, io_bind at 1, BinaryRead.
  change (1 mod 2 ^ 32) with 1. unfold sizeof_JoeHeader.
  rewrite Z.div_small by lia. reflexivity.
Qed.

(** [Load] of a file that [fopen] opens, without a pack: what
    [LoadFromHandle] returns, and the error stream after the precompute
    step or after the name of the file. *)
Lemma Load_file (filename : string) (content : list byte) (genlist : bool) (err : string) :
  Load filename (Some content) genlist None err
  = (r <- LoadFromHandle {| file := content; err_output := err;
                            m_mesh := VertexArray_clear |} ;;
     Returned (fst r,
               {| file := file (snd r);
                  err_output := (err_output (snd r)
                                 ++ if fst r then generation_errors genlist (m_mesh (snd r))
                                    else "in " ++ filename ++ endl)%string;
                  m_mesh := m_mesh (snd r) |})).
Proof.
  unfold Load. destruct (LoadFromHandle _) as [[[] w]|why]; cbn [bind fst snd].
  - destruct genlist; reflexivity.
  - reflexivity.
  - reflexivity.
Qed.

(** [Load] from a pack that opens the entry is [Load] of a file with the
    content of the entry: what is shown of the load of a file holds of
    the load of an entry. *)
Lemma Load_pack (filename : string) (disk : option (list byte)) (genlist : bool)
      (p : JoePack) (err : string) (content : list byte) :
  JoePack_fopen p filename = Some content ->
  Load filename disk genlist (Some p) err = Load filename (Some content) genlist None err.
Proof.
  intros H. unfold Load. rewrite H. reflexivity.
Qed.

(** [ReadData] looks at the face and frame counts of the header only. *)
Lemma ReadData_counts (h1 h2 : JoeHeader) :
  num_faces h1 = num_faces h2 -> num_frames h1 = num_frames h2 ->
  ReadData h1 = ReadData h2.
Proof.
  destruct h1 as [m1 v1 f1 n1], h2 as [m2 v2 f2 n2]; simpl.
  intros -> ->. reflexivity.
Qed.

End Header.

Section HeaderClaims.

Context {MV : MathVector} {MB : ModelBase}.

(** C6.  The face cap is inclusive.  A file whose header holds version 3
    and 32000 faces passes validation: [LoadFromHandle] goes on to
    [ReadData] on what follows the header and returns true when that
    returns.  With 32001 faces [LoadFromHandle] returns false, the error
    stream has received "32001 faces (max 32000). ", the file stands
    right behind the header (no frame has been read) and the mesh is
    untouched. *)
Theorem face_cap_is_inclusive
  (hb body : list byte) (err : string) (mesh : VertexArray) :
  length hb = 16%nat ->
  version (decode_JoeHeader hb) = 3 ->
  (num_faces (decode_JoeHeader hb) = 32000 ->
   LoadFromHandle {| file := hb ++ body; err_output := err; m_mesh := mesh |}
   = (r <- ReadData (decode_JoeHeader hb)
                    {| file := body; err_output := err; m_mesh := mesh |} ;;
      Returned (true, snd r)))
  /\
  (num_faces (decode_JoeHeader hb) = 32001 ->
   LoadFromHandle {| file := hb ++ body; err_output := err; m_mesh := mesh |}
   = Returned (false, {| file := body;
                         err_output := (err ++ "32001 faces (max 32000). ")%string;
                         m_mesh := mesh |})).
Proof.
  intros Hlen Hv. split; intros Hf.
  - rewrite LoadFromHandle_header by exact Hlen. cbv zeta.
    rewrite Hv, Hf. reflexivity.
  - rewrite LoadFromHandle_header by exact Hlen. cbv zeta.
    rewrite Hv, Hf. reflexivity.
Qed.

(** C7.  The version check is an equality test.  A file whose header
    holds a version other than 3 makes [LoadFromHandle] return false with
    "Invalid file format (Version is <found> not 3). " on the error
    stream, the file right behind the header and the mesh untouched.
    With version 3 the run is the rest of [LoadFromHandle]: the face-count
    check and, past it, [ReadData]. *)
Theorem version_must_equal_3
  (hb body : list byte) (err : string) (mesh : VertexArray) :
  length hb = 16%nat ->
  (version (decode_JoeHeader hb) <> 3 ->
   LoadFromHandle {| file := hb ++ body; err_output := err; m_mesh := mesh |}
   = Returned (false,
               {| file := body;
                  err_output := (err ++ ("Invalid file format (Version is "
                                         ++ show_int (version (decode_JoeHeader hb))
                                         ++ " not 3). "))%string;
                  m_mesh := mesh |}))
  /\
  (version (decode_JoeHeader hb) = 3 ->
   LoadFromHandle {| file := hb ++ body; err_output := err; m_mesh := mesh |}
   = if 32000 <? num_faces (decode_JoeHeader hb) then
       Returned (false,
                 {| file := body;
                    err_output := (err ++ (show_int (num_faces (decode_JoeHeader hb))
                                           ++ " faces (max 32000). "))%string;
                    m_mesh := mesh |})
     else (r <- ReadData (decode_JoeHeader hb)
                         {| file := body; err_output := err; m_mesh := mesh |} ;;
           Returned (true, snd r))).
Proof.
  intros Hlen. split; intros Hv.
  - rewrite LoadFromHandle_header by exact Hlen. cbv zeta.
    apply Z.eqb_neq in Hv. unfold JOE_VERSION at 1. rewrite Hv. reflexivity.
  - rewrite LoadFromHandle_header by exact Hlen. cbv zeta.
    rewrite Hv. reflexivity.
Qed.

(** The fields behind the magic number do not depend on it. *)
Lemma decode_JoeHeader_behind_magic (m1 m2 rest : list byte) :
  length m1 = 4%nat -> length m2 = 4%nat ->
  version (decode_JoeHeader (m1 ++ rest)) = version (decode_JoeHeader (m2 ++ rest))
  /\ num_faces (decode_JoeHeader (m1 ++ rest)) = num_faces (decode_JoeHeader (m2 ++ rest))
  /\ num_frames (decode_JoeHeader (m1 ++ rest)) = num_frames (decode_JoeHeader (m2 ++ rest)).
Proof.
  intros H1 H2. unfold decode_JoeHeader, Stored.field; cbn [version num_faces num_frames].
  rewrite !drop_app_ge by lia. rewrite H1, H2. auto.
Qed.

(** C10.  The magic number is read and never looked at: two files that
    differ in their first four bytes only are loaded with the same
    outcome, be it the returned flag, the text on the error stream and
    the mesh, or the way the run ends without a return. *)
Theorem magic_is_not_validated
  (filename : string) (genlist : bool) (err : string) (m1 m2 rest : list byte) :
  length m1 = 4%nat -> length m2 = 4%nat ->
  Load filename (Some (m1 ++ rest)) genlist None err
  = Load filename (Some (m2 ++ rest)) genlist None err.
Proof.
  intros H1 H2. unfold Load. f_equal.
  destruct (Nat.le_gt_cases 12 (length rest)) as [Hlong|Hshort].
  - rewrite <- (take_drop 12 rest).
    rewrite !(app_assoc _ (take 12 rest)).
    assert (Hl1 : length (m1 ++ take 12 rest) = 16%nat)
      by (rewrite length_app, length_take; lia).
    assert (Hl2 : length (m2 ++ take 12 rest) = 16%nat)
      by (rewrite length_app, length_take; lia).
    rewrite !LoadFromHandle_header by assumption. cbv zeta.
    destruct (decode_JoeHeader_behind_magic m1 m2 (take 12 rest) H1 H2) as (Hv & Hf & Hn).
    rewrite Hv, Hf.
    rewrite (ReadData_counts _ _ Hf Hn). reflexivity.
  - rewrite !LoadFromHandle_truncated
      by (cbn [file]; rewrite length_app; lia).
    reflexivity.
Qed.

End HeaderClaims.

(** ** Reading the frames *)

Lemma io_bind_Returned {A B : Type} (c : IO A) (k : A -> IO B) (w : world) (r : B * world) :
  io_bind c k w = Returned r <->
  exists a w', c w = Returned (a, w') /\ k a w' = Returned r.
Proof.
  unfold io_bind. rewrite bind_Returned. split.
  - intros ([a w'] & Hc & Hk). exists a, w'. auto.
  - intros (a & w' & Hc & Hk). exists (a, w'). auto.
Qed.

Lemma lift_Returned {A : Type} (c : outcome A) (w : world) (r : A * world) :
  lift c w = Returned r <-> (c = Returned (fst r) /\ snd r = w).
Proof.
  unfold lift. rewrite bind_Returned. destruct r as [a w']; simpl. split.
  - intros (a' & Hc & Hr). inversion Hr; subst. auto.
  - intros [Hc ->]. exists a. auto.
Qed.

Lemma io_ret_Returned {A : Type} (a : A) (w : world) (r : A * world) :
  io_ret a w = Returned r <-> r = (a, w).
Proof. unfold io_ret. split; intros H; inversion H; reflexivity. Qed.

Lemma length_records (size count : nat) (buffer : list byte) :
  length (Stored.records size count buffer) = count.
Proof.
  revert buffer. induction count as [|c IH]; intros buffer; simpl; [reflexivity|].
  rewrite IH. reflexivity.
Qed.

Lemma read_frame_shape (n_faces : Z) (w w' : world) (f : JoeFrame) :
  read_frame n_faces w = Returned (f, w') -> frame_shape n_faces f.
Proof.
  unfold read_frame. intros H.
  repeat (apply io_bind_Returned in H as (? & ? & ? & H)).
  repeat match goal with
         | Hl : lift _ _ = Returned _ |- _ =>
             apply lift_Returned in Hl as [Hl _]; cbn [fst] in Hl;
             apply vector_size_Returned in Hl as [? ?]
         end.
  apply io_ret_Returned in H. inversion H; subst.
  unfold frame_shape; cbn [faces verts normals texcoords num_verts num_normals num_texcoords].
  rewrite !length_map, !length_records. auto.
Qed.

Lemma read_frames_shape (n_faces : Z) (n : nat) :
  forall (w w' : world) (fs : list JoeFrame),
    read_frames n_faces n w = Returned (fs, w') ->
    length fs = n /\ Forall (frame_shape n_faces) fs.
Proof.
  induction n as [|n IH]; intros w w' fs H; simpl in H.
  - apply io_ret_Returned in H. inversion H; subst. split; [reflexivity | constructor].
  - apply io_bind_Returned in H as (f & w1 & Hf & H).
    apply io_bind_Returned in H as (rest & w2 & Hrest & H).
    apply io_ret_Returned in H. inversion H; subst.
    apply IH in Hrest as [Hlen Hall]. apply read_frame_shape in Hf.
    split; [simpl; lia | constructor; assumption].
Qed.

Lemma read_object_frames_shape (header : JoeHeader) (w w' : world) (fs : list JoeFrame) :
  read_object_frames header w = Returned (fs, w') ->
  0 <= num_frames header
  /\ length fs = Z.to_nat (num_frames header)
  /\ Forall (frame_shape (num_faces header)) fs.
Proof.
  unfold read_object_frames. intros H.
  apply io_bind_Returned in H as (n & w1 & Hn & H).
  apply lift_Returned in Hn as [Hn Hw]. cbn [fst snd] in Hn, Hw. subst w1.
  apply vector_size_Returned in Hn as [Hpos ->].
  apply read_frames_shape in H as [Hlen Hall]. auto.
Qed.

(** ** Scaling and the correction of the normals *)

Section Normals.

Context {MV : MathVector} {MB : ModelBase}.

Lemma scale_frames_map (n_faces n_frames : Z) (fs : list JoeFrame) :
  length fs = Z.to_nat n_frames ->
  Forall (frame_shape n_faces) fs ->
  scale_frames n_frames fs = Returned (scaled fs).
Proof.
  intros Hlen Hall. unfold scale_frames, scaled.
  apply modify_each_map; [lia|].
  intros f Hf. rewrite Forall_forall in Hall. destruct (Hall f Hf) as (_ & [_ Hv] & _).
  rewrite modify_each_map with (g := scale_vertex); [reflexivity | lia | reflexivity].
Qed.

Lemma swap_normal_corrected (n : JoeVertex) : swap_normal n = corrected n.
Proof. unfold swap_normal, corrected. destruct (vertex n) as [[x y] z]. reflexivity. Qed.

Lemma swap_normals_map (n_faces n_frames : Z) (fs : list JoeFrame) :
  length fs = Z.to_nat n_frames ->
  Forall (frame_shape n_faces) fs ->
  swap_normals n_frames fs
  = Returned (map (fun f => with_normals f (map corrected (normals f))) fs).
Proof.
  intros Hlen Hall. unfold swap_normals.
  apply modify_each_map; [lia|].
  intros f Hf. rewrite Forall_forall in Hall. destruct (Hall f Hf) as (_ & _ & [_ Hn] & _).
  rewrite modify_each_map with (g := corrected); [reflexivity | lia |].
  intros n _. rewrite swap_normal_corrected. reflexivity.
Qed.

Lemma scaled_shape (n_faces : Z) (fs : list JoeFrame) :
  Forall (frame_shape n_faces) fs -> Forall (frame_shape n_faces) (scaled fs).
Proof.
  intros Hall. unfold scaled. rewrite Forall_map.
  eapply Forall_impl; [exact Hall|].
  intros f Hf. unfold frame_shape in *. cbn. rewrite length_map. exact Hf.
Qed.

(** The frames that leave the scaling loop and the conditional
    correction. *)
Lemma prepare_frames_value (header : JoeHeader) (fs : list JoeFrame) (flag : bool) :
  length fs = Z.to_nat (num_frames header) ->
  Forall (frame_shape (num_faces header)) fs ->
  NeedsNormalSwap {| info := header; frames := scaled fs |} = Returned flag ->
  prepare_frames header fs
  = Returned (if flag
              then map (fun f => with_normals f (map corrected (normals f))) (scaled fs)
              else scaled fs).
Proof.
  intros Hlen Hall Hflag. unfold prepare_frames.
  rewrite (scale_frames_map (num_faces header)) by assumption. cbn [bind].
  rewrite Hflag. cbn [bind]. destruct flag; [|reflexivity].
  apply (swap_normals_map (num_faces header)).
  - unfold scaled. rewrite length_map. exact Hlen.
  - apply scaled_shape. exact Hall.
Qed.


End Normals.

(** ** The welder *)

(** The three ways in which a corner is welded. *)
Lemma weld_corner_Returned (face : JoeFace) (i c : Z)
      (vm vm' : list VertEntry) (vf vf' : list Z) :
  weld_corner face i c (vm, vf) = Returned (vm', vf') <->
  exists ve,
    (0 <= original_index (corner_entry face c)
     /\ vm !! Z.to_nat (original_index (corner_entry face c)) = Some ve)
    /\ 0 <= i * 3 + c < Z.of_nat (length vf)
    /\ 0 <= tex_index (corner_entry face c)
    /\ ((original_index ve = -1
         /\ vm' = <[Z.to_nat (original_index (corner_entry face c)) := corner_entry face c]> vm
         /\ vf' = <[Z.to_nat (i * 3 + c) := original_index (corner_entry face c)]> vf)
        \/ (original_index ve <> -1
            /\ norm_index ve = norm_index (corner_entry face c)
            /\ tex_index ve = tex_index (corner_entry face c)
            /\ vm' = vm
            /\ vf' = <[Z.to_nat (i * 3 + c) := original_index (corner_entry face c)]> vf)
        \/ (original_index ve <> -1
            /\ (norm_index ve <> norm_index (corner_entry face c)
                \/ tex_index ve <> tex_index (corner_entry face c))
            /\ vm' = vm ++ [corner_entry face c]
            /\ vf' = <[Z.to_nat (i * 3 + c) := to_int (Z.of_nat (length vm))]> vf)).
Proof.
  unfold weld_corner, corner_entry; cbn [fst snd original_index norm_index tex_index].
  set (vi := sel (vertexIndex face) c).
  set (ni := sel (normalIndex face) c).
  set (ti := sel (textureIndex face) c).
  rewrite bind_Returned. setoid_rewrite index_Returned.
  split.
  - intros (ve & Hix & Hrun). exists ve. split; [exact Hix|].
    destruct (Z.eqb_spec (original_index ve) (-1)) as [Hempty|Hfull].
    + apply bind_Returned in Hrun as ([] & Ha & Hrun). apply assertion_Returned in Ha.
      apply bind_Returned in Hrun as (vf1 & Hs & Hrun). apply store_Returned in Hs as [Hr ->].
      inversion Hrun; subst. repeat split; try lia. left. auto.
    + destruct (Z.eqb_spec (norm_index ve) ni) as [Hn|Hn];
        [destruct (Z.eqb_spec (tex_index ve) ti) as [Ht|Ht]|]; cbn [andb] in Hrun.
      * apply bind_Returned in Hrun as (vf1 & Hs & Hrun). apply store_Returned in Hs as [Hr ->].
        apply bind_Returned in Hrun as ([] & Ha & Hrun). apply assertion_Returned in Ha.
        inversion Hrun; subst. repeat split; try lia. right; left. auto.
      * apply bind_Returned in Hrun as ([] & Ha & Hrun). apply assertion_Returned in Ha.
        apply bind_Returned in Hrun as (vf1 & Hs & Hrun). apply store_Returned in Hs as [Hr ->].
        inversion Hrun; subst. repeat split; try lia. right; right.
        rewrite length_app; cbn [length].
        replace (Z.of_nat (length vm + 1) - 1) with (Z.of_nat (length vm)) by lia. auto.
      * apply bind_Returned in Hrun as ([] & Ha & Hrun). apply assertion_Returned in Ha.
        apply bind_Returned in Hrun as (vf1 & Hs & Hrun). apply store_Returned in Hs as [Hr ->].
        inversion Hrun; subst. repeat split; try lia. right; right.
        rewrite length_app; cbn [length].
        replace (Z.of_nat (length vm + 1) - 1) with (Z.of_nat (length vm)) by lia. auto.
  - intros (ve & Hix & Hr & Ht & Hcase). exists ve. split; [exact Hix|].
    assert (Hti : (0 <=? ti) = true) by (apply Z.leb_le; exact Ht).
    destruct Hcase as [(He & -> & ->) | [(He & Hn & Htx & -> & ->) | (He & Hd & -> & ->)]].
    + rewrite He. cbn [Z.eqb Pos.eqb]. rewrite Hti. cbn [assertion bind].
      rewrite store_in_range by exact Hr. reflexivity.
    + apply Z.eqb_neq in He. rewrite He, Hn, Htx, !Z.eqb_refl. cbn [andb].
      rewrite store_in_range by exact Hr. cbn [bind]. rewrite Hti. reflexivity.
    + apply Z.eqb_neq in He. rewrite He.
      assert (Hneq : (norm_index ve =? ni) && (tex_index ve =? ti) = false).
      { apply andb_false_iff. destruct Hd as [Hd|Hd]; [left|right]; apply Z.eqb_neq; exact Hd. }
      rewrite Hneq, Hti. cbn [assertion bind].
      rewrite length_app; cbn [length].
      replace (Z.of_nat (length vm + 1) - 1) with (Z.of_nat (length vm)) by lia.
      rewrite store_in_range by exact Hr. reflexivity.
Qed.

Lemma for_range_3 {St : Type} (body : Z -> St -> outcome St) (s : St) :
  for_range 3 body s
  = (s1 <- body 0 s ;; s2 <- body 1 s1 ;; s3 <- body 2 s2 ;; Returned s3).
Proof. reflexivity. Qed.

(** What holds of the empty table and is kept by the welding of a corner
    holds of the welded table.  [Q k] speaks about the state after [k]
    corners. *)
Lemma build_unique_vertices_invariant
      (Q : Z -> list VertEntry * list Z -> Prop) (frame : JoeFrame) (n : Z)
      (st' : list VertEntry * list Z) :
  build_unique_vertices frame n = Returned st' ->
  Q 0 (replicate (Z.to_nat (num_verts frame)) VertEntry_new, replicate (Z.to_nat (n * 3)) 0) ->
  (forall face i c st st1,
      faces frame !! Z.to_nat i = Some face -> 0 <= i < n -> 0 <= c < 3 ->
      Q (i * 3 + c) st -> weld_corner face i c st = Returned st1 -> Q (i * 3 + c + 1) st1) ->
  (0 <= num_verts frame /\ 0 <= n) /\ Q (n * 3) st'.
Proof.
  unfold build_unique_vertices. intros Hrun Hinit Hstep.
  apply bind_Returned in Hrun as (sm & Hsm & Hrun). apply vector_size_Returned in Hsm as [Hnv ->].
  apply bind_Returned in Hrun as (x & _ & Hrun).
  apply bind_Returned in Hrun as (n3 & Hn3 & Hrun). apply int_result_Returned in Hn3 as [-> _].
  apply bind_Returned in Hrun as (sf & Hsf & Hrun). apply vector_size_Returned in Hsf as [Hn ->].
  split; [lia|].
  unfold for_range in Hrun.
  apply (for_loop_invariant (fun i st => Q (i * 3) st)) in Hrun.
  - replace (0 + Z.of_nat (Z.to_nat n)) with n in Hrun by lia. exact Hrun.
  - intros i st st1 Hi HQ Hface. unfold weld_face in Hface.
    apply bind_Returned in Hface as (face & Hix & Hface).
    apply index_Returned in Hix as [_ Hix].
    rewrite for_range_3 in Hface.
    apply bind_Returned in Hface as (s1 & H0 & Hface).
    apply bind_Returned in Hface as (s2 & H1 & Hface).
    apply bind_Returned in Hface as (s3 & H2 & Hface).
    inversion Hface; subst s3.
    apply (Hstep face i 0) in H0; [ | exact Hix | lia | lia | rewrite Z.add_0_r; exact HQ].
    rewrite Z.add_0_r in H0.
    apply (Hstep face i 1) in H1; [ | exact Hix | lia | lia | exact H0].
    replace (i * 3 + 1 + 1) with (i * 3 + 2) in H1 by lia.
    apply (Hstep face i 2) in H2; [ | exact Hix | lia | lia | exact H1].
    replace ((i + 1) * 3) with (i * 3 + 2 + 1) by lia. exact H2.
  - exact Hinit.
Qed.

(** The welding returns when the welding of every corner does. *)
Lemma build_unique_vertices_returns
      (Q : Z -> list VertEntry * list Z -> Prop) (frame : JoeFrame) (n : Z) :
  0 <= num_verts frame -> num_verts frame * 2 < 2 ^ 31 ->
  0 <= n -> n * 3 < 2 ^ 31 ->
  (Z.to_nat n <= length (faces frame))%nat ->
  Q 0 (replicate (Z.to_nat (num_verts frame)) VertEntry_new, replicate (Z.to_nat (n * 3)) 0) ->
  (forall face i c st,
      faces frame !! Z.to_nat i = Some face -> 0 <= i < n -> 0 <= c < 3 ->
      Q (i * 3 + c) st ->
      exists st1, weld_corner face i c st = Returned st1 /\ Q (i * 3 + c + 1) st1) ->
  exists st', build_unique_vertices frame n = Returned st' /\ Q (n * 3) st'.
Proof.
  intros Hnv Hnv2 Hn Hn3 Hfaces Hinit Hstep. unfold build_unique_vertices.
  assert (Hv1 : vector_size (num_verts frame) = Returned (Z.to_nat (num_verts frame)))
    by (apply vector_size_Returned; auto).
  rewrite Hv1; cbn [bind].
  rewrite int_result_in_range by lia. cbn [bind].
  rewrite int_result_in_range by lia. cbn [bind].
  assert (Hv2 : vector_size (n * 3) = Returned (Z.to_nat (n * 3)))
    by (apply vector_size_Returned; split; [lia | reflexivity]).
  rewrite Hv2; cbn [bind].
  unfold for_range.
  destruct (for_loop_returns (fun i st => Q (i * 3) st) (weld_face frame) (Z.to_nat n) 0
              (replicate (Z.to_nat (num_verts frame)) VertEntry_new,
               replicate (Z.to_nat (n * 3)) 0)) as (st' & Hrun & HQ).
  - intros i st Hi HQ. unfold weld_face.
    destruct (index_in_range (faces frame) i) as (face & Hface); [lia|].
    rewrite Hface; cbn [bind]. apply index_Returned in Hface as [_ Hface].
    rewrite for_range_3.
    destruct (Hstep face i 0 st) as (s1 & H0 & Q1);
      [exact Hface | lia | lia | rewrite Z.add_0_r; exact HQ |].
    rewrite H0; cbn [bind]. rewrite Z.add_0_r in Q1.
    destruct (Hstep face i 1 s1) as (s2 & H1 & Q2); [exact Hface | lia | lia | exact Q1 |].
    rewrite H1; cbn [bind]. replace (i * 3 + 1 + 1) with (i * 3 + 2) in Q2 by lia.
    destruct (Hstep face i 2 s2) as (s3 & H2 & Q3); [exact Hface | lia | lia | exact Q2 |].
    rewrite H2; cbn [bind].
    exists s3. split; [reflexivity|].
    replace ((i + 1) * 3) with (i * 3 + 2 + 1) by lia. exact Q3.
  - exact Hinit.
  - exists st'. split; [exact Hrun|].
    replace (0 + Z.of_nat (Z.to_nat n)) with n in HQ by lia. exact HQ.
Qed.

Lemma weld_corner_sizes (face : JoeFace) (i c : Z)
      (vm vm' : list VertEntry) (vf vf' : list Z) :
  weld_corner face i c (vm, vf) = Returned (vm', vf') ->
  length vf' = length vf
  /\ (length vm <= length vm' <= length vm + 1)%nat.
Proof.
  intros H. apply weld_corner_Returned in H as (ve & _ & _ & _ & Hcase).
  destruct Hcase as [(_ & -> & ->) | [(_ & _ & _ & -> & ->) | (_ & _ & -> & ->)]];
    rewrite ?length_insert, ?length_app; cbn [length]; lia.
Qed.

Lemma weld_corner_layout (nv : nat) (face : JoeFace) (i c : Z)
      (vm vm' : list VertEntry) (vf vf' : list Z) :
  table_layout nv vm ->
  weld_corner face i c (vm, vf) = Returned (vm', vf') ->
  table_layout nv vm'.
Proof.
  intros [Hlen Hslots] H.
  apply weld_corner_Returned in H as (ve & [Hvi Hve] & _ & _ & Hcase).
  set (ce := corner_entry face c) in *.
  destruct Hcase as [(He & -> & _) | [(_ & _ & _ & -> & _) | (He & Hd & -> & _)]].
  - (* the slot of the vertex was empty *)
    assert (Hlt : (Z.to_nat (original_index ce) < nv)%nat).
    { destruct (Nat.lt_ge_cases (Z.to_nat (original_index ce)) nv) as [?|Hge]; [assumption|].
      destruct (Hslots _ _ Hve) as [_ Hap]. destruct (Hap Hge) as [? _]. lia. }
    split; [rewrite length_insert; exact Hlen|].
    intros k e Hk. apply list_lookup_insert_Some in Hk as [(<- & <- & _) | (Hne & Hk)].
    + split; [intros _; right; lia | intros ?; lia].
    + destruct (Hslots _ _ Hk) as [Hlow Hhigh]. split; [exact Hlow|].
      intros Hge. destruct (Hhigh Hge) as [Hpos Hsrc]. split; [exact Hpos|].
      intros Hsmall. destruct (Hsrc Hsmall) as (e0 & He0 & Ho & Hdiff).
      exists e0. split; [|auto].
      rewrite list_lookup_insert_ne; [exact He0|].
      intros Heq. rewrite <- Heq in He0. rewrite Hve in He0. inversion He0; subst e0. lia.
  - split; assumption.
  - (* a new entry is appended *)
    split; [rewrite length_app; lia|].
    intros k e Hk. apply lookup_app_Some in Hk as [Hk | [Hge Hk]].
    + destruct (Hslots _ _ Hk) as [Hlow Hhigh]. split; [exact Hlow|].
      intros Hge. destruct (Hhigh Hge) as [Hpos Hsrc]. split; [exact Hpos|].
      intros Hsmall. destruct (Hsrc Hsmall) as (e0 & He0 & Ho & Hdiff).
      exists e0. split; [|auto]. apply lookup_app_l_Some. exact He0.
    + apply list_lookup_singleton_Some in Hk as [_ <-].
      split; [intros ?; lia|]. intros _. split; [exact Hvi|].
      intros Hsmall. exists ve. split; [apply lookup_app_l_Some; exact Hve|].
      destruct (Hslots _ _ Hve) as [Hlow _].
      split; [|exact Hd].
      destruct Hlow as [?|?]; [lia | contradiction | lia].
Qed.

Lemma weld_corner_from_corners (fcs : list JoeFace) (face : JoeFace) (i c : Z)
      (vm vm' : list VertEntry) (vf vf' : list Z) :
  face ∈ fcs -> 0 <= c < 3 ->
  from_corners fcs vm ->
  weld_corner face i c (vm, vf) = Returned (vm', vf') ->
  from_corners fcs vm'.
Proof.
  intros Hface Hc Hfrom H.
  apply weld_corner_Returned in H as (ve & _ & _ & _ & Hcase).
  assert (Hce : exists face' c', face' ∈ fcs /\ (c' = 0 \/ c' = 1 \/ c' = 2)
                                 /\ corner_entry face c = corner_entry face' c')
    by (exists face, c; split; [exact Hface | split; [lia | reflexivity]]).
  destruct Hcase as [(_ & -> & _) | [(_ & _ & _ & -> & _) | (_ & _ & -> & _)]].
  - intros k e Hk. apply list_lookup_insert_Some in Hk as [(_ & <- & _) | (_ & Hk)].
    + right. exact Hce.
    + exact (Hfrom k e Hk).
  - exact Hfrom.
  - intros k e Hk. apply lookup_app_Some in Hk as [Hk | [_ Hk]].
    + exact (Hfrom k e Hk).
    + apply list_lookup_singleton_Some in Hk as [_ <-]. right. exact Hce.
Qed.

Lemma replicate_layout (nv : nat) : table_layout nv (replicate nv VertEntry_new).
Proof.
  split; [rewrite length_replicate; lia|].
  intros k e Hk. apply lookup_replicate in Hk as [-> Hlt].
  split; [intros _; left; reflexivity | intros ?; lia].
Qed.

Lemma replicate_from_corners (fcs : list JoeFace) (nv : nat) :
  from_corners fcs (replicate nv VertEntry_new).
Proof. intros k e Hk. apply lookup_replicate in Hk as [-> _]. left. reflexivity. Qed.

(** The table that the welding returns has the layout. *)
Lemma build_unique_vertices_layout (frame : JoeFrame) (n : Z)
      (vm : list VertEntry) (vf : list Z) :
  build_unique_vertices frame n = Returned (vm, vf) ->
  table_layout (Z.to_nat (num_verts frame)) vm /\ from_corners (faces frame) vm.
Proof.
  intros H.
  apply (build_unique_vertices_invariant
           (fun _ st => table_layout (Z.to_nat (num_verts frame)) (fst st)
                        /\ from_corners (faces frame) (fst st))) in H.
  - exact (proj2 H).
  - cbn [fst]. split; [apply replicate_layout | apply replicate_from_corners].
  - intros face i c [vm0 vf0] [vm1 vf1] Hface Hi Hc [Hl Hf] Hrun. cbn [fst] in *. split.
    + exact (weld_corner_layout _ _ _ _ _ _ _ _ Hl Hrun).
    + apply list_elem_of_lookup_2 in Hface.
      exact (weld_corner_from_corners _ _ _ _ _ _ _ _ Hface Hc Hf Hrun).
Qed.

(** In a table with the layout, a populated slot of a source vertex shares
    its triple with no other populated slot. *)
Lemma layout_separates (nv : nat) (vm : list VertEntry) (i j : nat) (ei ej : VertEntry) :
  table_layout nv vm ->
  vm !! i = Some ei -> vm !! j = Some ej -> i <> j ->
  populated ei -> populated ej ->
  (i < nv)%nat ->
  attributes ei <> attributes ej.
Proof.
  unfold populated, attributes. intros [_ Hslots] Hi Hj Hij Hpi Hpj Hlt Heq.
  inversion Heq as [[Ho Hn Ht]].
  destruct (Hslots _ _ Hi) as [Hlow _]. destruct (Hlow Hlt) as [?|Hoi]; [lia|].
  destruct (Hslots _ _ Hj) as [Hlowj Hhighj].
  destruct (Nat.lt_ge_cases j nv) as [Hjlt|Hjge].
  - destruct (Hlowj Hjlt) as [?|Hoj]; lia.
  - destruct (Hhighj Hjge) as [_ Hsrc].
    destruct Hsrc as (e0 & He0 & _ & Hdiff); [lia|].
    rewrite <- Ho, Hoi, Nat2Z.id, Hi in He0. inversion He0; subst e0.
    destruct Hdiff; congruence.
Qed.

(** C2, amended.  In the table that the welder returns, a populated entry
    in one of the first [num_verts] slots has a (vertex, normal, texcoord)
    triple that no other populated entry has.  (Two appended entries may
    hold the same triple.) *)
Theorem welded_source_slots_are_unique
  (frame : JoeFrame) (n : Z) (vm : list VertEntry) (vf : list Z)
  (i j : nat) (ei ej : VertEntry) :
  build_unique_vertices frame n = Returned (vm, vf) ->
  vm !! i = Some ei -> vm !! j = Some ej -> i <> j ->
  populated ei -> populated ej ->
  Z.of_nat i < num_verts frame \/ Z.of_nat j < num_verts frame ->
  attributes ei <> attributes ej.
Proof.
  intros Hrun Hi Hj Hij Hpi Hpj Hlow.
  apply build_unique_vertices_layout in Hrun as [Hlayout _].
  destruct Hlow as [Hlt|Hlt].
  - apply (layout_separates _ _ i j _ _ Hlayout); auto. lia.
  - intros Heq. symmetry in Heq. revert Heq.
    apply (layout_separates _ _ j i _ _ Hlayout); auto. lia.
Qed.

(** A corner whose indices are in range is welded. *)
Lemma weld_corner_returns (face : JoeFace) (i c : Z) (vm : list VertEntry) (vf : list Z) :
  0 <= sel (vertexIndex face) c < Z.of_nat (length vm) ->
  0 <= sel (textureIndex face) c ->
  0 <= i * 3 + c < Z.of_nat (length vf) ->
  exists st', weld_corner face i c (vm, vf) = Returned st'.
Proof.
  intros Hvi Hti Hpos.
  destruct (lookup_lt_is_Some_2 vm (Z.to_nat (sel (vertexIndex face) c))) as [ve Hve]; [lia|].
  destruct (Z.eq_dec (original_index ve) (-1)) as [He|He].
  - eexists (_, _). apply weld_corner_Returned. exists ve.
    split; [split; [apply Hvi | exact Hve]|].
    split; [exact Hpos|]. split; [exact Hti|]. left. auto.
  - destruct (Z.eq_dec (norm_index ve) (norm_index (corner_entry face c))) as [Hn|Hn];
      [destruct (Z.eq_dec (tex_index ve) (tex_index (corner_entry face c))) as [Ht|Ht]|].
    + eexists (_, _). apply weld_corner_Returned. exists ve.
      split; [split; [apply Hvi | exact Hve]|].
      split; [exact Hpos|]. split; [exact Hti|]. right; left. auto.
    + eexists (_, _). apply weld_corner_Returned. exists ve.
      split; [split; [apply Hvi | exact Hve]|].
      split; [exact Hpos|]. split; [exact Hti|]. right; right. auto.
    + eexists (_, _). apply weld_corner_Returned. exists ve.
      split; [split; [apply Hvi | exact Hve]|].
      split; [exact Hpos|]. split; [exact Hti|]. right; right. auto.
Qed.

(** The welding of a frame whose indices are in range returns; the index
    array has three entries per face and the table at most one entry per
    corner more than there are source vertices. *)
Lemma build_unique_vertices_in_range (frame : JoeFrame) (n : Z) :
  0 <= num_verts frame -> num_verts frame * 2 < 2 ^ 31 ->
  0 <= n -> n * 3 < 2 ^ 31 ->
  length (faces frame) = Z.to_nat n ->
  frame_in_range frame ->
  exists vm vf,
    build_unique_vertices frame n = Returned (vm, vf)
    /\ Z.of_nat (length vf) = n * 3
    /\ num_verts frame <= Z.of_nat (length vm) <= num_verts frame + n * 3.
Proof.
  intros Hnv Hnv2 Hn Hn3 Hfaces Hrange.
  destruct (build_unique_vertices_returns
              (fun k st => Z.of_nat (length (snd st)) = n * 3
                           /\ num_verts frame <= Z.of_nat (length (fst st)) <= num_verts frame + k)
              frame n) as ([vm vf] & Hrun & Hvf & Hvm); try assumption; try lia.
  - cbn [fst snd]. rewrite !length_replicate. lia.
  - intros face i c [vm vf] Hface Hi Hc [Hvf Hvm]. cbn [fst snd] in *.
    apply list_elem_of_lookup_2 in Hface. destruct (Hrange face Hface c Hc) as (Hv & _ & Ht).
    destruct (weld_corner_returns face i c vm vf) as ([vm' vf'] & Hrun); try lia.
    exists (vm', vf'). split; [exact Hrun|].
    apply weld_corner_sizes in Hrun as [Hl1 Hl2]. cbn [fst snd]. lia.
  - exists vm, vf. cbn [fst snd] in *. auto.
Qed.

(** C8.  When every vertex index comes with one (normal, texcoord) pair
    over all corners of the frame's faces, the welder appends nothing: the
    table it returns has exactly [num_verts] entries.  And it does return
    when the frame's indices are in range. *)
Theorem welding_unique_pairs_keeps_vertex_count (frame : JoeFrame) (n : Z) :
  one_pair_per_vertex (faces frame) ->
  (forall vm vf,
      build_unique_vertices frame n = Returned (vm, vf) ->
      Z.of_nat (length vm) = num_verts frame)
  /\ (0 <= num_verts frame -> num_verts frame * 2 < 2 ^ 31 ->
      0 <= n -> n * 3 < 2 ^ 31 ->
      length (faces frame) = Z.to_nat n ->
      frame_in_range frame ->
      exists vm vf, build_unique_vertices frame n = Returned (vm, vf)).
Proof.
  intros Hone. split.
  - intros vm vf Hrun.
    apply (build_unique_vertices_invariant
             (fun _ st => (table_layout (Z.to_nat (num_verts frame)) (fst st)
                           /\ from_corners (faces frame) (fst st))
                          /\ length (fst st) = Z.to_nat (num_verts frame))) in Hrun.
    + destruct Hrun as [[Hnv _] [_ Hlen]]. cbn [fst] in Hlen. lia.
    + cbn [fst]. split; [split; [apply replicate_layout | apply replicate_from_corners]|].
      apply length_replicate.
    + intros face i c [vm0 vf0] [vm1 vf1] Hface Hi Hc [[Hl Hf] Hlen] Hstep. cbn [fst] in *.
      apply list_elem_of_lookup_2 in Hface.
      split; [split|].
      * exact (weld_corner_layout _ _ _ _ _ _ _ _ Hl Hstep).
      * exact (weld_corner_from_corners _ _ _ _ _ _ _ _ Hface Hc Hf Hstep).
      * apply weld_corner_Returned in Hstep as (ve & [Hvi Hve] & _ & _ & Hcase).
        destruct Hcase as [(_ & -> & _) | [(_ & _ & _ & -> & _) | (He & Hd & _ & _)]].
        -- rewrite length_insert. exact Hlen.
        -- exact Hlen.
        -- (* the slot is populated by a corner of the same vertex: the pair is the same *)
           exfalso.
           assert (Hslot : (Z.to_nat (original_index (corner_entry face c))
                            < Z.to_nat (num_verts frame))%nat).
           { rewrite <- Hlen. apply lookup_lt_is_Some. eauto. }
           destruct Hl as [_ Hslots]. destruct (Hslots _ _ Hve) as [Hlow _].
           destruct (Hlow Hslot) as [?|Hov]; [contradiction|].
           destruct (Hf _ _ Hve) as [-> | (face' & c' & Hface' & Hc' & ->)];
             [cbn in He; lia|].
           cbn [corner_entry original_index norm_index tex_index] in *.
           destruct (Hone face' face c' c Hface' Hface) as [Hn Ht]; [lia | lia | lia |].
           destruct Hd as [Hd|Hd]; [apply Hd; exact Hn | apply Hd; exact Ht].
  - intros Hnv Hnv2 Hn Hn3 Hfaces Hrange.
    destruct (build_unique_vertices_in_range frame n) as (vm & vf & Hrun & _); try assumption.
    exists vm, vf. exact Hrun.
Qed.

Lemma to_int_exact (n : Z) : 0 <= n < 2 ^ 31 -> to_int n = n.
Proof.
  intros Hn. unfold to_int, Stored.signed.
  rewrite Z.mod_small by lia.
  change (2 ^ (32 - 1)) with (2 ^ 31).
  destruct (Z.ltb_spec n (2 ^ 31)); [reflexivity | lia].
Qed.

(** Every index that the welding writes is a position of the table. *)
Lemma build_unique_vertices_indices (frame : JoeFrame) (n : Z)
      (vm : list VertEntry) (vf : list Z) :
  build_unique_vertices frame n = Returned (vm, vf) ->
  num_verts frame + n * 3 < 2 ^ 31 ->
  forall (p : nat) (x : Z), vf !! p = Some x -> 0 <= x < Z.of_nat (length vm).
Proof.
  intros Hrun Hbound.
  assert (Hnv0 : 0 <= num_verts frame).
  { apply (build_unique_vertices_invariant (fun _ _ => True)) in Hrun; [lia | exact I | auto]. }
  apply (build_unique_vertices_invariant
           (fun k st =>
              length (snd st) = Z.to_nat (n * 3)
              /\ Z.of_nat (length (fst st)) <= Z.of_nat (Z.to_nat (num_verts frame)) + k
              /\ forall (p : nat) (x : Z),
                  Z.of_nat p < k -> snd st !! p = Some x ->
                  0 <= x < Z.of_nat (length (fst st)))) in Hrun.
  - destruct Hrun as [[Hnv Hn] (Hlen & _ & Hall)]. cbn [fst snd] in *.
    intros p x Hp. apply (Hall p x); [|exact Hp].
    apply lookup_lt_Some in Hp. lia.
  - cbn [fst snd]. rewrite !length_replicate. split; [reflexivity|]. split; [lia|].
    intros p x Hp. lia.
  - intros face i c [vm0 vf0] [vm1 vf1] _ Hi Hc (Hlen & Hsize & Hall) Hstep. cbn [fst snd] in *.
    apply weld_corner_Returned in Hstep as (ve & [Hvi Hve] & Hpos & _ & Hcase).
    apply lookup_lt_Some in Hve.
    destruct Hcase as [(_ & -> & ->) | [(_ & _ & _ & -> & ->) | (_ & _ & -> & ->)]];
      rewrite ?length_insert, ?length_app; cbn [length];
      (split; [exact Hlen|]); (split; [lia|]); intros p x Hp Hx;
      apply list_lookup_insert_Some in Hx as [(Hpk & <- & _) | (Hne & Hx)].
    + lia.
    + apply (Hall p x); [lia | exact Hx].
    + lia.
    + apply (Hall p x); [lia | exact Hx].
    + rewrite to_int_exact by lia. lia.
    + specialize (Hall p x ltac:(lia) Hx). lia.
Qed.

(** ** The flat arrays *)

Lemma of_int_exact (n : Z) : 0 <= n < 2 ^ 24 -> Float.of_int n = n.
Proof.
  intros Hn. unfold Float.of_int.
  assert (Hlog : Z.log2 n - 23 <= 0).
  { destruct (Z.eq_dec n 0) as [->|Hne]; [cbn; lia|].
    assert (Z.log2 n < 24) by (apply Z.log2_lt_pow2; lia). lia. }
  apply Z.leb_le in Hlog. rewrite Hlog. reflexivity.
Qed.

Lemma store3_Returned (a a' : list Float.float) (i : Z) (x : triple Float.float) :
  0 <= i ->
  store3 a i x = Returned a' ->
  i * 3 + 2 < Z.of_nat (length a) /\ length a' = length a.
Proof.
  intros Hi H. unfold store3 in H. rewrite for_range_3 in H.
  apply bind_Returned in H as (a1 & H0 & H).
  apply bind_Returned in H as (a2 & H1 & H).
  apply bind_Returned in H as (a3 & H2 & H). inversion H; subst a3.
  apply bind_Returned in H0 as (k0 & Hk0 & H0). apply int_result_Returned in Hk0 as [-> _].
  apply bind_Returned in H1 as (k1 & Hk1 & H1). apply int_result_Returned in Hk1 as [-> _].
  apply bind_Returned in H2 as (k2 & Hk2 & H2). apply int_result_Returned in Hk2 as [-> _].
  apply store_Returned in H0 as [_ ->]. apply store_Returned in H1 as [_ ->].
  apply store_Returned in H2 as [Hr ->].
  rewrite !length_insert in *. split; [lia | reflexivity].
Qed.

Lemma store3_returns (a : list Float.float) (i : Z) (x : triple Float.float) :
  0 <= i -> i * 3 + 2 < 2 ^ 31 -> i * 3 + 2 < Z.of_nat (length a) ->
  exists a', store3 a i x = Returned a'.
Proof.
  intros Hi Hint Hlen. unfold store3. rewrite for_range_3.
  rewrite int_result_in_range by lia. cbn [bind]. rewrite store_in_range by lia. cbn [bind].
  rewrite int_result_in_range by lia. cbn [bind].
  rewrite store_in_range by (rewrite length_insert; lia). cbn [bind].
  rewrite int_result_in_range by lia. cbn [bind].
  rewrite store_in_range by (rewrite !length_insert; lia). cbn [bind].
  eexists. reflexivity.
Qed.

Lemma store2_Returned (a a' : list Float.float) (i : Z) (x y : Float.float) :
  0 <= i ->
  store2 a i x y = Returned a' <->
  (i * 2 + 1 < 2 ^ 31 /\ i * 2 + 1 < Z.of_nat (length a)
   /\ a' = <[Z.to_nat (i * 2 + 1) := y]> (<[Z.to_nat (i * 2) := x]> a)).
Proof.
  intros Hi. unfold store2. split.
  - intros H.
    apply bind_Returned in H as (k0 & Hk0 & H). apply int_result_Returned in Hk0 as [-> _].
    apply bind_Returned in H as (a1 & H0 & H). apply store_Returned in H0 as [_ ->].
    apply bind_Returned in H as (k1 & Hk1 & H). apply int_result_Returned in Hk1 as [-> Hk1].
    apply store_Returned in H as [Hr ->]. rewrite length_insert in Hr.
    rewrite Z.add_0_r. repeat split; lia.
  - intros (Hint & Hlen & ->).
    rewrite int_result_in_range by lia. cbn [bind]. rewrite store_in_range by lia. cbn [bind].
    rewrite int_result_in_range by lia. cbn [bind].
    rewrite store_in_range by (rewrite length_insert; lia).
    rewrite Z.add_0_r. reflexivity.
Qed.

(** What the body of the filling loop does to the texture coordinates. *)
Lemma fill_entry_texcoords (frame : JoeFrame) (i : Z) (e : VertEntry) (out out' : FlatArrays) :
  0 <= i ->
  fill_entry frame i e out = Returned out' ->
  exists x y,
    texcoord_for frame e = Some (x, y)
    /\ i * 2 + 1 < Z.of_nat (length (v_texcoords out))
    /\ v_texcoords out'
       = <[Z.to_nat (i * 2 + 1) := y]> (<[Z.to_nat (i * 2) := x]> (v_texcoords out)).
Proof.
  intros Hi H. unfold fill_entry in H.
  apply bind_Returned in H as (p & _ & H).
  apply bind_Returned in H as (vs & _ & H).
  apply bind_Returned in H as (n & _ & H).
  apply bind_Returned in H as (ns & _ & H).
  apply bind_Returned in H as (ts & Hts & H). inversion H; subst out'. cbn [v_texcoords].
  unfold texcoord_for.
  destruct (tex_index e <? num_texcoords frame).
  - apply bind_Returned in Hts as (t & Ht & Hts). apply index_Returned in Ht as [_ Ht].
    rewrite Ht. apply store2_Returned in Hts as (_ & Hlen & ->); [|exact Hi].
    exists (u t), (v t). auto.
  - apply store2_Returned in Hts as (_ & Hlen & ->); [|exact Hi].
    exists Float.zero, Float.zero. auto.
Qed.

Lemma fill_entry_lengths (frame : JoeFrame) (i : Z) (e : VertEntry) (out out' : FlatArrays) :
  0 <= i ->
  fill_entry frame i e out = Returned out' ->
  length (v_vertices out') = length (v_vertices out)
  /\ length (v_normals out') = length (v_normals out)
  /\ length (v_texcoords out') = length (v_texcoords out).
Proof.
  intros Hi H.
  destruct (fill_entry_texcoords _ _ _ _ _ Hi H) as (x & y & _ & _ & Ht).
  unfold fill_entry in H.
  apply bind_Returned in H as (p & _ & H).
  apply bind_Returned in H as (vs & Hvs & H). apply store3_Returned in Hvs as [_ Hvs]; [|exact Hi].
  apply bind_Returned in H as (n & _ & H).
  apply bind_Returned in H as (ns & Hns & H). apply store3_Returned in Hns as [_ Hns]; [|exact Hi].
  apply bind_Returned in H as (ts & _ & H). inversion H; subst out'.
  cbn [v_vertices v_normals v_texcoords] in *.
  rewrite Ht, !length_insert. auto.
Qed.

Lemma fill_entry_returns (frame : JoeFrame) (i : Z) (e : VertEntry) (out : FlatArrays) :
  0 <= i -> i * 3 + 2 < 2 ^ 31 ->
  i * 3 + 2 < Z.of_nat (length (v_vertices out)) ->
  i * 3 + 2 < Z.of_nat (length (v_normals out)) ->
  i * 2 + 1 < Z.of_nat (length (v_texcoords out)) ->
  num_texcoords frame <= Z.of_nat (length (texcoords frame)) ->
  populated e -> entry_in_range frame e ->
  exists out', fill_entry frame i e out = Returned out'.
Proof.
  intros Hi Hint Hv Hn Ht Hcount Hpop Hrange. destruct (Hrange Hpop) as (Ho & Hni & Hti).
  unfold populated in Hpop. unfold fill_entry.
  destruct (index_in_range (verts frame) (original_index e)) as (p & ->); [lia|]. cbn [bind].
  destruct (store3_returns (v_vertices out) i (vertex p)) as (vs & ->); try lia. cbn [bind].
  destruct (index_in_range (normals frame) (norm_index e)) as (n & ->); [lia|]. cbn [bind].
  destruct (store3_returns (v_normals out) i (vertex n)) as (ns & ->); try lia. cbn [bind].
  destruct (Z.ltb_spec (tex_index e) (num_texcoords frame)).
  - destruct (index_in_range (texcoords frame) (tex_index e)) as (t & ->); [lia|]. cbn [bind].
    assert (Hs : store2 (v_texcoords out) i (u t) (v t)
                 = Returned (<[Z.to_nat (i * 2 + 1) := v t]>
                               (<[Z.to_nat (i * 2) := u t]> (v_texcoords out))))
      by (apply store2_Returned; [exact Hi | repeat split; lia]).
    rewrite Hs. cbn [bind]. eexists. reflexivity.
  - assert (Hs : store2 (v_texcoords out) i Float.zero Float.zero
                 = Returned (<[Z.to_nat (i * 2 + 1) := Float.zero]>
                               (<[Z.to_nat (i * 2) := Float.zero]> (v_texcoords out))))
      by (apply store2_Returned; [exact Hi | repeat split; lia]).
    rewrite Hs. cbn [bind]. eexists. reflexivity.
Qed.

(** The loop from position [i] on: the slots before [i] stay as they are,
    and every populated entry that the loop reaches gets the texture
    coordinates of the specification. *)
Lemma fill_loop_texcoords (frame : JoeFrame) (nv : Z) :
  forall (entries : list VertEntry) (i : Z) (out out' : FlatArrays),
    0 <= i ->
    fill_loop frame nv i entries out = Returned out' ->
    (forall p : nat, Z.of_nat p < i * 2 -> v_texcoords out' !! p = v_texcoords out !! p)
    /\ forall (k : nat) (e : VertEntry),
        entries !! k = Some e -> populated e ->
        (forall j, i <= j <= i + Z.of_nat k -> Float.of_int j < nv) ->
        exists x y,
          texcoord_for frame e = Some (x, y)
          /\ v_texcoords out' !! Z.to_nat ((i + Z.of_nat k) * 2) = Some x
          /\ v_texcoords out' !! Z.to_nat ((i + Z.of_nat k) * 2 + 1) = Some y.
Proof.
  induction entries as [|e rest IH]; intros i out out' Hi H; simpl in H.
  - destruct (Float.of_int i <? nv); [discriminate|]. inversion H; subst out'.
    split; [reflexivity|]. intros k e Hk. rewrite lookup_nil in Hk. discriminate.
  - destruct (Z.ltb_spec (Float.of_int i) nv) as [Hcond|Hcond].
    + apply bind_Returned in H as (out1 & Hentry & H).
      apply bind_Returned in H as (i' & Hi' & H). apply int_result_Returned in Hi' as [-> _].
      destruct (IH (i + 1) out1 out' ltac:(lia) H) as [Hkeep Hrest].
      assert (Hbefore : forall p : nat, Z.of_nat p < i * 2 ->
                          v_texcoords out1 !! p = v_texcoords out !! p).
      { intros p Hp. destruct (0 <=? original_index e).
        - destruct (fill_entry_texcoords _ _ _ _ _ Hi Hentry) as (x & y & _ & _ & ->).
          rewrite !list_lookup_insert_ne by lia. reflexivity.
        - inversion Hentry; reflexivity. }
      split.
      * intros p Hp. rewrite Hkeep by lia. apply Hbefore. exact Hp.
      * intros [|k] e0 Hk Hpop Hreach.
        -- cbn in Hk. inversion Hk; subst e0. unfold populated in Hpop.
           apply Z.leb_le in Hpop. rewrite Hpop in Hentry.
           destruct (fill_entry_texcoords _ _ _ _ _ Hi Hentry) as (x & y & Hxy & Hlen & Hout).
           exists x, y. split; [exact Hxy|].
           rewrite Z.add_0_r. rewrite !Hkeep by lia. rewrite Hout. split.
           ++ rewrite list_lookup_insert_ne by lia.
              apply list_lookup_insert_eq. lia.
           ++ apply list_lookup_insert_eq. rewrite length_insert. lia.
        -- cbn in Hk.
           destruct (Hrest k e0 Hk Hpop) as (x & y & Hxy & Hx & Hy).
           { intros j Hj. apply Hreach. lia. }
           exists x, y. split; [exact Hxy|].
           replace (i + Z.of_nat (S k)) with (i + 1 + Z.of_nat k) by lia. auto.
    + inversion H; subst out'. split; [reflexivity|].
      intros k e0 _ _ Hreach. specialize (Hreach i). lia.
Qed.

(** The lengths of the arrays do not change in the loop. *)
Lemma fill_loop_lengths (frame : JoeFrame) (nv : Z) :
  forall (entries : list VertEntry) (i : Z) (out out' : FlatArrays),
    0 <= i ->
    fill_loop frame nv i entries out = Returned out' ->
    length (v_vertices out') = length (v_vertices out)
    /\ length (v_normals out') = length (v_normals out)
    /\ length (v_texcoords out') = length (v_texcoords out).
Proof.
  induction entries as [|e rest IH]; intros i out out' Hi H; simpl in H.
  - destruct (Float.of_int i <? nv); [discriminate|]. inversion H; auto.
  - destruct (Float.of_int i <? nv); [|inversion H; auto].
    apply bind_Returned in H as (out1 & Hentry & H).
    apply bind_Returned in H as (i' & Hi' & H). apply int_result_Returned in Hi' as [-> _].
    destruct (IH (i + 1) out1 out' ltac:(lia) H) as (-> & -> & ->).
    destruct (0 <=? original_index e).
    + exact (fill_entry_lengths _ _ _ _ _ Hi Hentry).
    + inversion Hentry; auto.
Qed.

(** Below 2^24 entries the [float] holds every count exactly and the loop
    returns for a table whose entries are in range. *)
Lemma fill_loop_returns (frame : JoeFrame) (len : Z) :
  len * 3 < 2 ^ 24 ->
  num_texcoords frame <= Z.of_nat (length (texcoords frame)) ->
  forall (entries : list VertEntry) (i : Z) (out : FlatArrays),
    0 <= i -> i + Z.of_nat (length entries) = len ->
    Z.of_nat (length (v_vertices out)) = len * 3 ->
    Z.of_nat (length (v_normals out)) = len * 3 ->
    Z.of_nat (length (v_texcoords out)) = len * 2 ->
    Forall (entry_in_range frame) entries ->
    exists out', fill_loop frame len i entries out = Returned out'.
Proof.
  intros Hbound Hcount.
  induction entries as [|e rest IH]; intros i out Hi Hlen Hv Hn Ht Hall; simpl.
  - cbn [length] in Hlen. rewrite of_int_exact by lia.
    assert (Hc : (i <? len) = false) by (apply Z.ltb_ge; lia). rewrite Hc.
    eexists. reflexivity.
  - cbn [length] in Hlen. rewrite of_int_exact by lia.
    assert (Hc : (i <? len) = true) by (apply Z.ltb_lt; lia). rewrite Hc.
    inversion Hall as [|? ? He Hrest]; subst.
    assert (Hstep : exists out1,
               (if 0 <=? original_index e then fill_entry frame i e out else Returned out)
               = Returned out1
               /\ length (v_vertices out1) = length (v_vertices out)
               /\ length (v_normals out1) = length (v_normals out)
               /\ length (v_texcoords out1) = length (v_texcoords out)).
    { destruct (Z.leb_spec 0 (original_index e)) as [Hpop|Hpop].
      - destruct (fill_entry_returns frame i e out) as (out1 & Hout1); try lia; try assumption.
        exists out1. split; [exact Hout1|]. exact (fill_entry_lengths _ _ _ _ _ Hi Hout1).
      - exists out. auto. }
    destruct Hstep as (out1 & -> & Hv1 & Hn1 & Ht1). cbn [bind].
    rewrite int_result_in_range by lia. cbn [bind].
    apply IH; try lia; try assumption.
Qed.

Lemma fill_arrays_lengths (frame : JoeFrame) (vm : list VertEntry) (out : FlatArrays) :
  fill_arrays frame vm = Returned out ->
  let newvertnum := Float.of_int (Z.of_nat (length vm)) in
  length (v_vertices out) = Z.to_nat (Float.mul_int newvertnum 3)
  /\ length (v_normals out) = Z.to_nat (Float.mul_int newvertnum 3)
  /\ length (v_texcoords out) = Z.to_nat (Float.mul_int newvertnum 2).
Proof.
  unfold fill_arrays. intros H. apply fill_loop_lengths in H; [|lia].
  cbn [v_vertices v_normals v_texcoords] in H. rewrite !length_replicate in H. exact H.
Qed.

Lemma fill_arrays_returns (frame : JoeFrame) (vm : list VertEntry) :
  Z.of_nat (length vm) * 3 < 2 ^ 24 ->
  num_texcoords frame <= Z.of_nat (length (texcoords frame)) ->
  Forall (entry_in_range frame) vm ->
  exists out, fill_arrays frame vm = Returned out.
Proof.
  intros Hbound Hcount Hall. unfold fill_arrays.
  rewrite of_int_exact by lia. unfold Float.mul_int. rewrite !of_int_exact by lia.
  apply fill_loop_returns; try assumption; try lia;
    cbn [v_vertices v_normals v_texcoords]; rewrite length_replicate; lia.
Qed.

(** The loop reaches every slot of a table of fewer than 2^24 entries. *)
Lemma reached_below_2_24 (len k : nat) :
  Z.of_nat len < 2 ^ 24 -> (k < len)%nat -> reached len k.
Proof.
  intros Hlen Hk j Hj. rewrite !of_int_exact by lia. lia.
Qed.

(** ** The threshold 0.0001 is no [float]

    The significand of the [double] 0.0001 is odd, that of a promoted
    [float] is even: [x > 0.0001] and [x >= 0.0001] agree on every
    [float] [x]. *)

Lemma digits2_pos_lower (m : positive) : 2 ^ (Zpos (digits2_pos m) - 1) <= Zpos m.
Proof.
  induction m as [m IH|m IH|]; simpl digits2_pos.
  - rewrite Pos2Z.inj_succ. replace (Z.succ (Zpos (digits2_pos m)) - 1)
      with (Z.succ (Zpos (digits2_pos m) - 1)) by lia.
    rewrite Z.pow_succ_r by lia. lia.
  - rewrite Pos2Z.inj_succ. replace (Z.succ (Zpos (digits2_pos m)) - 1)
      with (Z.succ (Zpos (digits2_pos m) - 1)) by lia.
    rewrite Z.pow_succ_r by lia. lia.
  - simpl. lia.
Qed.

Lemma of_bits_significand (w : Z) (s : bool) (m : positive) (e : Z) :
  Float.of_bits w = S754_finite s m e -> Zpos m < 2 ^ 24.
Proof.
  unfold Float.of_bits.
  assert (Hm : 0 <= Z.land w (2 ^ 23 - 1) < 2 ^ 23).
  { change (2 ^ 23 - 1) with (Z.ones 23). rewrite Z.land_ones by lia.
    apply Z.mod_pos_bound. lia. }
  destruct (_ =? 255).
  - destruct (_ =? 0); discriminate.
  - destruct (_ =? 0).
    + destruct (Z.land w (2 ^ 23 - 1)) as [|p|p] eqn:E; try discriminate.
      intros H; inversion H; subst. lia.
    + destruct (Z.land w (2 ^ 23 - 1) + 2 ^ 23) as [|p|p] eqn:E; try discriminate.
      intros H; inversion H; subst. lia.
Qed.

Lemma to_double_even (w : Z) (s : bool) (m : positive) (e : Z) :
  Float.to_double (Float.of_bits w) = S754_finite s m e -> exists k, Zpos m = 2 * k.
Proof.
  destruct (Float.of_bits w) as [| | |s0 m0 e0] eqn:E; simpl; try discriminate.
  intros H; inversion H; subst. clear H.
  pose proof (of_bits_significand _ _ _ _ E) as Hlt.
  pose proof (digits2_pos_lower m0) as Hlow.
  assert (Hd : Zpos (digits2_pos m0) <= 24).
  { destruct (Z_le_gt_dec (Zpos (digits2_pos m0)) 24) as [|Hgt]; [assumption|].
    assert (2 ^ 24 <= 2 ^ (Zpos (digits2_pos m0) - 1)) by (apply Z.pow_le_mono_r; lia).
    lia. }
  set (shift := 53 - Zpos (digits2_pos m0)) in *.
  exists (Zpos m0 * 2 ^ (shift - 1)).
  replace shift with (Z.succ (shift - 1)) at 1 by lia.
  rewrite Z.pow_succ_r by lia.
  assert (0 < 2 ^ (shift - 1)) by (apply Z.pow_pos_nonneg; lia).
  rewrite Z2Pos.id by nia. lia.
Qed.

Lemma gt_0_0001_ge (x : Float.float) :
  Float.gt_double x Float.lit_0_0001 = Float.ge_double x Float.lit_0_0001.
Proof.
  unfold Float.gt_double, Float.ge_double, SFltb, SFleb.
  destruct (Float.to_double (Float.of_bits x)) as [s|s| |s m e] eqn:E;
    try (destruct s; reflexivity); try reflexivity.
  apply to_double_even in E as [k Hk].
  unfold Float.lit_0_0001, SFcompare. destruct s; [reflexivity|].
  destruct (Z.compare_spec (-66) e); try reflexivity.
  destruct (Pos.compare_cont Eq 7378697629483821 m) eqn:C; try reflexivity.
  apply Pos.compare_eq in C. subst m. exfalso. lia.
Qed.

Lemma quot_4_exceeded (n c : Z) : 0 <= n -> (Z.quot n 4 < c <-> n < 4 * c).
Proof.
  intros Hn. rewrite Z.quot_div_nonneg by lia.
  pose proof (Z.div_mod n 4 ltac:(lia)). pose proof (Z.mod_pos_bound n 4 ltac:(lia)). lia.
Qed.

(** ** The heuristic returns *)

Section Heuristic.

Context {MV : MathVector} {MB : ModelBase}.

Lemma corner_vectors_returns (n_faces : Z) (frame : JoeFrame) (face : JoeFace) (c : Z) :
  frame_shape n_faces frame -> face_in_range frame face -> 0 <= c < 3 ->
  exists r, corner_vectors frame face c = Returned r.
Proof.
  intros (_ & [_ Hv] & [_ Hn] & _) Hrange Hc. destruct (Hrange c Hc) as (Hvi & Hni & _).
  unfold corner_vectors.
  assert (H1 : (sel (vertexIndex face) c <? num_verts frame) = true) by (apply Z.ltb_lt; lia).
  assert (H2 : (sel (normalIndex face) c <? num_normals frame) = true) by (apply Z.ltb_lt; lia).
  rewrite H1, H2. cbn [assertion bind].
  destruct (index_in_range (verts frame) (sel (vertexIndex face) c)) as (p & ->); [lia|].
  destruct (index_in_range (normals frame) (sel (normalIndex face) c)) as (n & ->); [lia|].
  cbn [bind]. eexists. reflexivity.
Qed.

Lemma count_face_returns (n_faces : Z) (frame : JoeFrame) (i count : Z) :
  frame_shape n_faces frame -> frame_in_range frame -> 0 <= i < n_faces ->
  exists count', count_face frame i count = Returned count'.
Proof.
  intros Hshape Hrange Hi. unfold count_face.
  destruct Hshape as ([_ Hf] & Hrest).
  destruct (index_in_range (faces frame) i) as (face & Hface); [lia|].
  rewrite Hface. cbn [bind]. apply index_Returned in Hface as [_ Hface].
  apply list_elem_of_lookup_2 in Hface.
  assert (Hshape : frame_shape n_faces frame) by (split; [split; [lia | exact Hf] | exact Hrest]).
  destruct (corner_vectors_returns n_faces frame face 0 Hshape (Hrange face Hface))
    as (c0 & ->); [lia|]. cbn [bind].
  destruct (corner_vectors_returns n_faces frame face 1 Hshape (Hrange face Hface))
    as (c1 & ->); [lia|]. cbn [bind].
  destruct (corner_vectors_returns n_faces frame face 2 Hshape (Hrange face Hface))
    as (c2 & ->); [lia|]. cbn [bind].
  destruct (flip_vote _ _); eexists; reflexivity.
Qed.

(** On frames with the shape of the reading loop and indices in range
    no assertion of [NeedsNormalSwap] fails. *)
Lemma NeedsNormalSwap_returns (header : JoeHeader) (fs : list JoeFrame) :
  length fs = Z.to_nat (num_frames header) ->
  Forall (frame_shape (num_faces header)) fs ->
  Forall frame_in_range fs ->
  exists flag, NeedsNormalSwap {| info := header; frames := fs |} = Returned flag.
Proof.
  intros Hlen Hshape Hrange. unfold NeedsNormalSwap, for_range. cbn [info frames].
  destruct (for_loop_returns (fun _ (_ : bool) => True)
              (fun f need_normal_flip =>
                 frame <- index fs f ;;
                 normal_flip_count <- for_loop (count_face frame) 0
                                               (Z.to_nat (num_faces header)) 0 ;;
                 if Z.quot (num_faces header) 4 <? normal_flip_count
                 then Returned true else Returned need_normal_flip)
              (Z.to_nat (num_frames header)) 0 false) as (flag & Hrun & _).
  - intros f flag Hf _.
    destruct (index_in_range fs f) as (frame & Hframe); [lia|].
    rewrite Hframe. cbn [bind]. apply index_Returned in Hframe as [_ Hframe].
    apply list_elem_of_lookup_2 in Hframe.
    rewrite Forall_forall in Hshape, Hrange.
    destruct (for_loop_returns (fun _ (_ : Z) => True) (count_face frame)
                (Z.to_nat (num_faces header)) 0 0) as (count & -> & _).
    + intros i count Hi _.
      destruct (count_face_returns (num_faces header) frame i count) as (count' & ->);
        [apply Hshape; exact Hframe | apply Hrange; exact Hframe | lia |].
      exists count'. auto.
    + exact I.
    + cbn [bind]. destruct (_ <? _); eexists; split; [reflexivity | exact I | reflexivity | exact I].
  - exact I.
  - exists flag. exact Hrun.
Qed.

(** ** What the heuristic counts *)

Lemma flip_vote_casts (v0 v1 v2 n0 n1 n2 : Vec3) :
  flip_vote (v0, v1, v2) (n0, n1, n2) = casts_flip_vote v0 v1 v2 n0 n1 n2.
Proof.
  unfold flip_vote, casts_flip_vote. cbn [sel Z.eqb]. rewrite !gt_0_0001_ge.
  destruct (Float.ge_double _ _); [|reflexivity].
  destruct (Float.ge_double _ _); [|reflexivity].
  cbn [andb]. apply andb_comm.
Qed.

Lemma corner_vectors_lookup (frame : JoeFrame) (face : JoeFace) (c : Z) (r : Vec3 * Vec3) :
  corner_vectors frame face c = Returned r -> corner_lookup frame face c = Some r.
Proof.
  unfold corner_vectors, corner_lookup. intros H.
  apply bind_Returned in H as (_ & _ & H). apply bind_Returned in H as (_ & _ & H).
  apply bind_Returned in H as (p & Hp & H). apply bind_Returned in H as (n & Hn & H).
  apply index_Returned in Hp as [_ ->]. apply index_Returned in Hn as [_ ->].
  inversion H; reflexivity.
Qed.

Lemma count_face_votes (frame : JoeFrame) (i count count' : Z) :
  count_face frame i count = Returned count' ->
  exists face, 0 <= i /\ faces frame !! Z.to_nat i = Some face /\
               count' = count + (if face_votes frame face then 1 else 0).
Proof.
  unfold count_face. intros H.
  apply bind_Returned in H as (face & Hf & H). apply index_Returned in Hf as [Hi Hf].
  apply bind_Returned in H as ([v0 n0] & H0 & H).
  apply bind_Returned in H as ([v1 n1] & H1 & H).
  apply bind_Returned in H as ([v2 n2] & H2 & H).
  exists face. split; [exact Hi|]. split; [exact Hf|].
  unfold face_votes.
  rewrite (corner_vectors_lookup _ _ _ _ H0), (corner_vectors_lookup _ _ _ _ H1),
    (corner_vectors_lookup _ _ _ _ H2).
  cbn [fst snd] in H. rewrite flip_vote_casts in H.
  destruct (casts_flip_vote _ _ _ _ _ _); inversion H; lia.
Qed.

Lemma count_faces_votes (frame : JoeFrame) (n count : Z) :
  for_range n (count_face frame) 0 = Returned count -> count = flip_votes n frame.
Proof.
  unfold for_range, flip_votes. intros H.
  apply (for_loop_invariant
           (fun j t => 0 <= j /\
                       t = Z.of_nat (length (List.filter (face_votes frame)
                                               (take (Z.to_nat j) (faces frame)))))) in H.
  - rewrite Z.add_0_l, Nat2Z.id in H. tauto.
  - intros j t t' Hj [_ Ht] Hb.
    apply count_face_votes in Hb as (face & Hj0 & Hface & ->).
    split; [lia|]. replace (Z.to_nat (j + 1)) with (S (Z.to_nat j)) by lia.
    rewrite (take_S_r _ _ _ Hface), List.filter_app, length_app. simpl.
    destruct (face_votes frame face); simpl; lia.
  - split; [lia|]. reflexivity.
Qed.

(** Whenever the heuristic returns, its flag says whether some frame has
    more flip votes than [num_faces / 4]. *)
Lemma NeedsNormalSwap_votes (Object : JoeObject) (flag : bool) :
  NeedsNormalSwap Object = Returned flag ->
  (flag = true <->
   exists (f : Z) (frame : JoeFrame),
     0 <= f < num_frames (info Object) /\
     frames Object !! Z.to_nat f = Some frame /\
     Z.quot (num_faces (info Object)) 4 < flip_votes (num_faces (info Object)) frame).
Proof.
  unfold NeedsNormalSwap, for_range. intros H.
  apply (for_loop_invariant
           (fun f flag =>
              0 <= f /\
              (flag = true <->
               exists (g : Z) (frame : JoeFrame),
                 0 <= g < f /\
                 frames Object !! Z.to_nat g = Some frame /\
                 Z.quot (num_faces (info Object)) 4
                 < flip_votes (num_faces (info Object)) frame))) in H.
  - destruct H as [_ [H1 H2]]. split.
    + intros Hflag. destruct (H1 Hflag) as (g & frame & Hg & Hrest).
      exists g, frame. split; [lia | exact Hrest].
    + intros (g & frame & Hg & Hrest). apply H2. exists g, frame. split; [lia | exact Hrest].
  - intros f t t' Hf [_ [H1 H2]] Hb.
    apply bind_Returned in Hb as (frame & Hframe & Hb).
    apply index_Returned in Hframe as [Hf0 Hframe].
    apply bind_Returned in Hb as (count & Hcount & Hb).
    apply count_faces_votes in Hcount. subst count.
    split; [lia|].
    destruct (Z.ltb_spec (Z.quot (num_faces (info Object)) 4)
                (flip_votes (num_faces (info Object)) frame)) as [Hlt|Hge];
      inversion Hb; subst t'; clear Hb.
    + split; [|reflexivity]. intros _. exists f, frame. split; [lia|]. split; assumption.
    + split.
      * intros Hflag. destruct (H1 Hflag) as (g & frame' & Hg & Hrest).
        exists g, frame'. split; [lia | exact Hrest].
      * intros (g & frame' & Hg & Hlook & Hvotes).
        destruct (Z.eq_dec g f) as [->|Hne].
        -- rewrite Hframe in Hlook. inversion Hlook; subst frame'. lia.
        -- apply H2. exists g, frame'. split; [lia|]. split; assumption.
  - split; [lia|]. split; [discriminate|]. intros (g & _ & Hg & _). lia.
Qed.


End Heuristic.

(** ** The welded object *)

Lemma same_topology_shape (n_faces : Z) (f f' : JoeFrame) :
  same_topology f f' -> frame_shape n_faces f -> frame_shape n_faces f'.
Proof.
  unfold same_topology, frame_shape.
  intros (-> & -> & -> & -> & -> & -> & ->) H. exact H.
Qed.

Lemma same_topology_in_range (f f' : JoeFrame) :
  same_topology f f' -> frame_in_range f -> frame_in_range f'.
Proof.
  unfold same_topology, frame_in_range, face_in_range.
  intros (-> & -> & -> & _) H. exact H.
Qed.

(** The entries of a table welded from faces in range have their sources
    in the frame. *)
Lemma from_corners_in_range (n_faces : Z) (frame : JoeFrame) (vm : list VertEntry) :
  frame_shape n_faces frame -> frame_in_range frame ->
  from_corners (faces frame) vm ->
  Forall (entry_in_range frame) vm.
Proof.
  intros (_ & [_ Hv] & [_ Hn] & _) Hrange Hfrom.
  apply Forall_lookup. intros k e Hk Hpop.
  destruct (Hfrom k e Hk) as [-> | (face & c & Hface & Hc & ->)].
  - unfold populated in Hpop. cbn in Hpop. lia.
  - destruct (Hrange face Hface c) as (Hvi & Hni & Hti); [lia|].
    cbn [corner_entry original_index norm_index tex_index]. lia.
Qed.

Section Welded.

Context {MV : MathVector} {MB : ModelBase}.

Lemma scaled_topology (fs : list JoeFrame) (k : nat) (f : JoeFrame) :
  fs !! k = Some f ->
  exists f', scaled fs !! k = Some f' /\ same_topology f f'.
Proof.
  intros Hk. exists (with_verts f (map scale_vertex (verts f))). split.
  - unfold scaled. rewrite list_lookup_fmap, Hk. reflexivity.
  - unfold same_topology. cbn. rewrite length_map. auto 10.
Qed.

Lemma scaled_in_range (fs : list JoeFrame) :
  Forall frame_in_range fs -> Forall frame_in_range (scaled fs).
Proof.
  intros Hall. unfold scaled. rewrite Forall_map.
  eapply Forall_impl; [exact Hall|]. intros f Hf. exact Hf.
Qed.

(** Frame for frame, what leaves the scaling and the correction has the
    topology of what was read. *)
Lemma prepare_frames_topology (header : JoeHeader) (fs : list JoeFrame) :
  length fs = Z.to_nat (num_frames header) ->
  Forall (frame_shape (num_faces header)) fs ->
  Forall frame_in_range fs ->
  exists fs',
    prepare_frames header fs = Returned fs'
    /\ forall k f, fs !! k = Some f -> exists f', fs' !! k = Some f' /\ same_topology f f'.
Proof.
  intros Hlen Hshape Hrange.
  destruct (NeedsNormalSwap_returns header (scaled fs)) as (flag & Hflag).
  - unfold scaled. rewrite length_map. exact Hlen.
  - apply scaled_shape. exact Hshape.
  - apply scaled_in_range. exact Hrange.
  - rewrite (prepare_frames_value header fs flag Hlen Hshape Hflag).
    eexists. split; [reflexivity|].
    intros k f Hk. destruct (scaled_topology fs k f Hk) as (f1 & Hf1 & Htop).
    destruct flag; [|exists f1; auto].
    exists (with_normals f1 (map corrected (normals f1))). split.
    + rewrite list_lookup_fmap, Hf1. reflexivity.
    + unfold same_topology in *. cbn. rewrite length_map. exact Htop.
Qed.

(** A valid object of moderate size is welded: the counts that pass
    through a [float] are exact when three times the largest possible
    table stays below 2^24. *)
Lemma weld_object_returns (header : JoeHeader) (fs : list JoeFrame) (f0 : JoeFrame) :
  length fs = Z.to_nat (num_frames header) ->
  Forall (frame_shape (num_faces header)) fs ->
  Forall frame_in_range fs ->
  fs !! 0%nat = Some f0 ->
  num_verts f0 + 3 * num_faces header <= 5592405 ->
  exists vm vf arrays,
    weld_object header fs = Returned (vm, vf, arrays)
    /\ Z.of_nat (length vf) = 3 * num_faces header
    /\ num_verts f0 <= Z.of_nat (length vm) <= num_verts f0 + 3 * num_faces header
    /\ (forall (p : nat) (x : Z), vf !! p = Some x -> 0 <= x < Z.of_nat (length vm))
    /\ (length (v_vertices arrays) = (3 * length vm)%nat
        /\ length (v_normals arrays) = (3 * length vm)%nat
        /\ length (v_texcoords arrays) = (2 * length vm)%nat).
Proof.
  intros Hlen Hshape Hrange Hf0 Hbound.
  destruct (prepare_frames_topology header fs Hlen Hshape Hrange) as (fs' & Hprep & Htop).
  destruct (Htop 0%nat f0 Hf0) as (f0' & Hf0' & Hsame).
  assert (Hs0 : frame_shape (num_faces header) f0).
  { rewrite Forall_forall in Hshape. apply Hshape. eapply list_elem_of_lookup_2; eauto. }
  assert (Hr0 : frame_in_range f0).
  { rewrite Forall_forall in Hrange. apply Hrange. eapply list_elem_of_lookup_2; eauto. }
  assert (Hs0' := same_topology_shape _ _ _ Hsame Hs0).
  assert (Hr0' := same_topology_in_range _ _ Hsame Hr0).
  assert (Hnv : num_verts f0' = num_verts f0) by (destruct Hsame as (_ & ? & _); assumption).
  destruct Hs0' as ([Hn Hfaces] & [Hv Hverts] & Hnorm & [Ht Htex]).
  destruct (build_unique_vertices_in_range f0' (num_faces header))
    as (vm & vf & Hweld & Hvf & Hvm); try assumption; try lia.
  destruct (build_unique_vertices_layout _ _ _ _ Hweld) as [_ Hfrom].
  destruct (fill_arrays_returns f0' vm) as (arrays & Hfill).
  - lia.
  - lia.
  - apply (from_corners_in_range (num_faces header)); try assumption.
    unfold frame_shape. auto.
  - exists vm, vf, arrays. split; [|split; [lia|split; [lia|split]]].
    + unfold weld_object. rewrite Hprep. cbn [bind].
      assert (Hix : index fs' 0 = Returned f0')
        by (apply index_Returned; split; [lia | exact Hf0']).
      rewrite Hix. cbn [bind]. rewrite Hweld. cbn [bind fst]. rewrite Hfill. reflexivity.
    + apply (build_unique_vertices_indices _ _ _ _ Hweld). lia.
    + apply fill_arrays_lengths in Hfill. cbv zeta in Hfill.
      unfold Float.mul_int in Hfill.
      rewrite (of_int_exact (Z.of_nat (length vm))) in Hfill by lia.
      rewrite !of_int_exact in Hfill by lia.
      destruct Hfill as (-> & -> & ->). lia.
Qed.

End Welded.

(** ** The load as a whole *)

Lemma BinaryRead_keeps (size count : Z) (w : world) (r : list byte * world) :
  BinaryRead size count w = Returned r ->
  err_output (snd r) = err_output w /\ m_mesh (snd r) = m_mesh w.
Proof.
  unfold BinaryRead. destruct (_ =? _); [|discriminate].
  intros H; inversion H; auto.
Qed.

Lemma read_frame_keeps (n_faces : Z) (w w' : world) (f : JoeFrame) :
  read_frame n_faces w = Returned (f, w') ->
  err_output w' = err_output w /\ m_mesh w' = m_mesh w.
Proof.
  unfold read_frame, read_int. intros H.
  repeat match goal with
         | H : io_bind _ _ _ = Returned _ |- _ =>
             apply io_bind_Returned in H as (? & ? & ? & H)
         | H : lift _ _ = Returned _ |- _ =>
             apply lift_Returned in H as [_ H]; cbn [snd] in H; subst
         | H : BinaryRead _ _ _ = Returned _ |- _ =>
             apply BinaryRead_keeps in H as [? ?]; cbn [snd] in *
         | H : io_ret _ _ = Returned _ |- _ =>
             apply io_ret_Returned in H; inversion H; subst; clear H
         end.
  split; congruence.
Qed.

Lemma read_frames_keeps (n_faces : Z) (n : nat) :
  forall (w w' : world) (fs : list JoeFrame),
    read_frames n_faces n w = Returned (fs, w') ->
    err_output w' = err_output w /\ m_mesh w' = m_mesh w.
Proof.
  induction n as [|n IH]; intros w w' fs H; simpl in H.
  - apply io_ret_Returned in H. inversion H; auto.
  - apply io_bind_Returned in H as (f & wa & Hf & H).
    apply io_bind_Returned in H as (rest & wb & Hrest & H).
    apply io_ret_Returned in H. inversion H; subst.
    apply read_frame_keeps in Hf as [? ?]. apply IH in Hrest as [? ?].
    split; congruence.
Qed.

(** Reading the frames moves the file on and touches neither the error
    stream nor the mesh. *)
Lemma read_object_frames_keeps (header : JoeHeader) (w w' : world) (fs : list JoeFrame) :
  read_object_frames header w = Returned (fs, w') ->
  err_output w' = err_output w /\ m_mesh w' = m_mesh w.
Proof.
  unfold read_object_frames. intros H.
  apply io_bind_Returned in H as (n & w0 & Hn & H).
  apply lift_Returned in Hn as [_ Hw]. cbn [snd] in Hw. subst w0.
  exact (read_frames_keeps _ _ _ _ _ H).
Qed.

Section LoadClaims.

Context {MV : MathVector} {MB : ModelBase}.

(** [ReadData] on frames that are read and welded. *)
Lemma ReadData_welded (header : JoeHeader) (w w1 : world) (fs : list JoeFrame)
      (vm : list VertEntry) (vf : list Z) (arrays : FlatArrays) :
  read_object_frames header w = Returned (fs, w1) ->
  weld_object header fs = Returned (vm, vf, arrays) ->
  ReadData header w
  = Returned (tt, {| file := file w1;
                     err_output := err_output w1;
                     m_mesh := {| mesh_faces := vf;
                                  mesh_vertices := v_vertices arrays;
                                  mesh_normals := v_normals arrays;
                                  mesh_texcoords := [v_texcoords arrays] |} |}).
Proof.
  intros Hread Hweld. unfold ReadData, io_bind. rewrite Hread. cbn [bind fst snd].
  unfold lift. rewrite Hweld. reflexivity.
Qed.

(** The load of a valid file of moderate size, with the table and the
    arrays that it welds. *)
Lemma Load_welds
  (filename : string) (genlist : bool) (err : string)
  (hb body : list byte) (fs : list JoeFrame) (f0 : JoeFrame) (w1 : world) :
  length hb = 16%nat ->
  version (decode_JoeHeader hb) = 3 ->
  num_faces (decode_JoeHeader hb) <= 32000 ->
  read_object_frames (decode_JoeHeader hb)
                     {| file := body; err_output := err; m_mesh := VertexArray_clear |}
  = Returned (fs, w1) ->
  fs !! 0%nat = Some f0 ->
  Forall frame_in_range fs ->
  num_verts f0 + 3 * num_faces (decode_JoeHeader hb) <= 5592405 ->
  exists vm vf arrays,
    weld_object (decode_JoeHeader hb) fs = Returned (vm, vf, arrays)
    /\ Load filename (Some (hb ++ body)) genlist None err
       = Returned (true, {| file := file w1;
                            err_output :=
                              (err ++ generation_errors genlist (mesh_of vf arrays))%string;
                            m_mesh := {| mesh_faces := vf;
                                         mesh_vertices := v_vertices arrays;
                                         mesh_normals := v_normals arrays;
                                         mesh_texcoords := [v_texcoords arrays] |} |})
    /\ Z.of_nat (length vf) = 3 * num_faces (decode_JoeHeader hb)
    /\ (forall (p : nat) (x : Z), vf !! p = Some x -> 0 <= x < Z.of_nat (length vm))
    /\ (length (v_vertices arrays) = (3 * length vm)%nat
        /\ length (v_normals arrays) = (3 * length vm)%nat
        /\ length (v_texcoords arrays) = (2 * length vm)%nat).
Proof.
  intros Hlen Hv Hf Hread Hf0 Hrange Hbound.
  destruct (read_object_frames_shape _ _ _ _ Hread) as (_ & Hfs & Hshape).
  destruct (weld_object_returns _ fs f0 Hfs Hshape Hrange Hf0 Hbound)
    as (vm & vf & arrays & Hweld & Hvf & _ & Hix & Hlens).
  destruct (read_object_frames_keeps _ _ _ _ Hread) as [Herr _]. cbn [err_output] in Herr.
  exists vm, vf, arrays. split; [exact Hweld|]. split; [|auto].
  rewrite Load_file, LoadFromHandle_header by exact Hlen. cbv zeta.
  rewrite Hv. change (negb (3 =? JOE_VERSION)) with false. cbv iota.
  assert (Hcap : (JOE_MAX_FACES <? num_faces (decode_JoeHeader hb)) = false)
    by (apply Z.ltb_ge; unfold JOE_MAX_FACES; lia).
  rewrite Hcap. rewrite (ReadData_welded _ _ _ _ _ _ _ Hread Hweld).
  cbn [bind fst snd file err_output m_mesh].
  rewrite Herr. reflexivity.
Qed.

(** C1, amended.  Let the header hold version 3 and at most 32000 faces,
    let every read of the frames return what was asked for, let there be
    a frame 0, let the indices of every face be in range, and let frame 0
    have at most 5592405 - 3 * faceCount vertices.  Then [Load] returns
    true, and the index array handed to the mesh has exactly
    3 * faceCount entries. *)
Theorem load_of_valid_file_succeeds
  (filename : string) (genlist : bool) (err : string)
  (hb body : list byte) (fs : list JoeFrame) (f0 : JoeFrame) (w1 : world) :
  length hb = 16%nat ->
  version (decode_JoeHeader hb) = 3 ->
  num_faces (decode_JoeHeader hb) <= 32000 ->
  read_object_frames (decode_JoeHeader hb)
                     {| file := body; err_output := err; m_mesh := VertexArray_clear |}
  = Returned (fs, w1) ->
  fs !! 0%nat = Some f0 ->
  Forall frame_in_range fs ->
  num_verts f0 + 3 * num_faces (decode_JoeHeader hb) <= 5592405 ->
  exists w2,
    Load filename (Some (hb ++ body)) genlist None err = Returned (true, w2)
    /\ Z.of_nat (length (mesh_faces (m_mesh w2))) = 3 * num_faces (decode_JoeHeader hb).
Proof.
  intros Hlen Hv Hf Hread Hf0 Hrange Hbound.
  destruct (Load_welds filename genlist err hb body fs f0 w1)
    as (vm & vf & arrays & _ & Hload & Hvf & _); try assumption.
  eexists. split; [exact Hload|]. cbn [m_mesh mesh_faces]. exact Hvf.
Qed.

(** The welded mesh of a valid file of moderate size: every index is the
    position of a vertex of the flat arrays, which hold one position, one
    normal and one pair of texture coordinates for every entry of the
    welder's table. *)
Theorem loaded_indices_are_in_range
  (filename : string) (genlist : bool) (err : string)
  (hb body : list byte) (fs : list JoeFrame) (f0 : JoeFrame) (w1 : world) :
  length hb = 16%nat ->
  version (decode_JoeHeader hb) = 3 ->
  num_faces (decode_JoeHeader hb) <= 32000 ->
  read_object_frames (decode_JoeHeader hb)
                     {| file := body; err_output := err; m_mesh := VertexArray_clear |}
  = Returned (fs, w1) ->
  fs !! 0%nat = Some f0 ->
  Forall frame_in_range fs ->
  num_verts f0 + 3 * num_faces (decode_JoeHeader hb) <= 5592405 ->
  exists (w2 : world) (vm : list VertEntry) (vf : list Z) (arrays : FlatArrays)
         (uv : list Float.float),
    Load filename (Some (hb ++ body)) genlist None err = Returned (true, w2)
    /\ weld_object (decode_JoeHeader hb) fs = Returned (vm, vf, arrays)
    /\ Forall (fun x => 0 <= x < Z.of_nat (length vm)) (mesh_faces (m_mesh w2))
    /\ length (mesh_vertices (m_mesh w2)) = (3 * length vm)%nat
    /\ length (mesh_normals (m_mesh w2)) = (3 * length vm)%nat
    /\ mesh_texcoords (m_mesh w2) = [uv]
    /\ length uv = (2 * length vm)%nat.
Proof.
  intros Hlen Hv Hf Hread Hf0 Hrange Hbound.
  destruct (Load_welds filename genlist err hb body fs f0 w1)
    as (vm & vf & arrays & Hweld & Hload & _ & Hix & Hvs & Hns & Hts); try assumption.
  eexists _, vm, vf, arrays, (v_texcoords arrays).
  split; [exact Hload|]. split; [exact Hweld|].
  cbn [m_mesh mesh_faces mesh_vertices mesh_normals mesh_texcoords].
  split; [|auto].
  apply Forall_lookup. exact Hix.
Qed.

End LoadClaims.

(** ** Written files are read back *)

Lemma byte_value_byte_of (x : Z) : Stored.byte_value (Write.byte_of x) = x mod 256.
Proof.
  unfold Stored.byte_value, Write.byte_of.
  pose proof (Z.mod_pos_bound x 256 ltac:(lia)) as Hx.
  destruct (Byte.of_N (Z.to_N (x mod 256))) as [b|] eqn:E.
  - apply Byte.to_of_N in E. rewrite E. lia.
  - apply Byte.of_N_None_iff in E. lia.
Qed.

Lemma le_value_le_bytes (n : nat) (x : Z) :
  Stored.le_value (Write.le_bytes n x) = x mod 256 ^ Z.of_nat n.
Proof.
  revert x. induction n as [|n IH]; intros x.
  - simpl. rewrite Z.mod_1_r. reflexivity.
  - cbn [Write.le_bytes Stored.le_value]. rewrite byte_value_byte_of, IH.
    rewrite Nat2Z.inj_succ, Z.pow_succ_r by lia.
    rewrite Z.rem_mul_r; [reflexivity | lia | apply Z.pow_pos_nonneg; lia].
Qed.

Lemma length_le_bytes (n : nat) (x : Z) : length (Write.le_bytes n x) = n.
Proof. revert x. induction n as [|n IH]; intros x; simpl; [reflexivity | rewrite IH; reflexivity]. Qed.

Lemma ENDIAN_SWAP_16_put_short (x : Z) :
  is_short x -> Stored.ENDIAN_SWAP_16 (Write.put_short x) = x.
Proof.
  unfold is_short. intros Hx. unfold Stored.ENDIAN_SWAP_16, Write.put_short.
  rewrite take_ge by (rewrite length_le_bytes; lia).
  rewrite le_value_le_bytes. change (256 ^ Z.of_nat 2) with (2 ^ 16).
  rewrite Z.mod_mod by lia. unfold Stored.signed. change (2 ^ (16 - 1)) with (2 ^ 15).
  destruct (Z.ltb_spec (x mod 2 ^ 16) (2 ^ 15)) as [H|H].
  - destruct (Z_lt_le_dec x 0).
    + rewrite <- (Z.mod_add x 1) in H by lia. rewrite Z.mod_small in H by lia. lia.
    + rewrite Z.mod_small by lia. reflexivity.
  - destruct (Z_lt_le_dec x 0).
    + rewrite <- (Z.mod_add x 1) by lia. rewrite Z.mod_small by lia. lia.
    + rewrite Z.mod_small in H by lia. lia.
Qed.

Lemma ENDIAN_SWAP_32_put_int (x : Z) :
  is_int x -> Stored.ENDIAN_SWAP_32 (Write.put_int x) = x.
Proof.
  unfold is_int. intros Hx. unfold Stored.ENDIAN_SWAP_32, Write.put_int.
  rewrite take_ge by (rewrite length_le_bytes; lia).
  rewrite le_value_le_bytes. change (256 ^ Z.of_nat 4) with (2 ^ 32).
  rewrite Z.mod_mod by lia. unfold Stored.signed. change (2 ^ (32 - 1)) with (2 ^ 31).
  destruct (Z.ltb_spec (x mod 2 ^ 32) (2 ^ 31)) as [H|H].
  - destruct (Z_lt_le_dec x 0).
    + rewrite <- (Z.mod_add x 1) in H by lia. rewrite Z.mod_small in H by lia. lia.
    + rewrite Z.mod_small by lia. reflexivity.
  - destruct (Z_lt_le_dec x 0).
    + rewrite <- (Z.mod_add x 1) by lia. rewrite Z.mod_small by lia. lia.
    + rewrite Z.mod_small in H by lia. lia.
Qed.

Lemma ENDIAN_SWAP_FLOAT_put_float (x : Float.float) :
  is_float x -> Stored.ENDIAN_SWAP_FLOAT (Write.put_float x) = x.
Proof.
  unfold is_float. intros Hx. unfold Stored.ENDIAN_SWAP_FLOAT, Write.put_float.
  rewrite take_ge by (rewrite length_le_bytes; lia).
  rewrite le_value_le_bytes. change (256 ^ Z.of_nat 4) with (2 ^ 32).
  apply Z.mod_small. exact Hx.
Qed.

Lemma put_short_pair (x : Z) : exists b0 b1, Write.put_short x = [b0; b1].
Proof. eexists _, _. reflexivity. Qed.

Lemma put_float_quad (x : Z) : exists b0 b1 b2 b3, Write.put_float x = [b0; b1; b2; b3].
Proof. eexists _, _, _, _. reflexivity. Qed.

Lemma put_int_quad (x : Z) : exists b0 b1 b2 b3, Write.put_int x = [b0; b1; b2; b3].
Proof. eexists _, _, _, _. reflexivity. Qed.

Ltac name_bytes shape swap H :=
  apply swap in H;
  match type of H with
  | _ (?put ?x) = _ =>
      let E := fresh "E" in
      destruct (shape x) as (? & ? & E); [idtac];
      try (destruct E as (? & ? & E));
      rewrite E in H |- *; clear E
  end.

Lemma decode_put_JoeFace (f : JoeFace) :
  storable_face f ->
  decode_JoeFace (Write.put_JoeFace f) = f /\ length (Write.put_JoeFace f) = 18%nat.
Proof.
  destruct f as [[[a0 a1] a2] [[n0 n1] n2] [[t0 t1] t2]].
  intros ((Ha0 & Ha1 & Ha2) & (Hn0 & Hn1 & Hn2) & (Ht0 & Ht1 & Ht2)).
  unfold Write.put_JoeFace, Write.put_shorts.
  cbn [vertexIndex normalIndex textureIndex].
  name_bytes put_short_pair ENDIAN_SWAP_16_put_short Ha0.
  name_bytes put_short_pair ENDIAN_SWAP_16_put_short Ha1.
  name_bytes put_short_pair ENDIAN_SWAP_16_put_short Ha2.
  name_bytes put_short_pair ENDIAN_SWAP_16_put_short Hn0.
  name_bytes put_short_pair ENDIAN_SWAP_16_put_short Hn1.
  name_bytes put_short_pair ENDIAN_SWAP_16_put_short Hn2.
  name_bytes put_short_pair ENDIAN_SWAP_16_put_short Ht0.
  name_bytes put_short_pair ENDIAN_SWAP_16_put_short Ht1.
  name_bytes put_short_pair ENDIAN_SWAP_16_put_short Ht2.
  split; [|reflexivity].
  unfold decode_JoeFace, decode_shorts, Stored.field.
  cbn [app firstn skipn Nat.add].
  rewrite Ha0, Ha1, Ha2, Hn0, Hn1, Hn2, Ht0, Ht1, Ht2. reflexivity.
Qed.

Lemma decode_put_JoeVertex (p : JoeVertex) :
  storable_vertex p ->
  decode_JoeVertex (Write.put_JoeVertex p) = p /\ length (Write.put_JoeVertex p) = 12%nat.
Proof.
  destruct p as [[[x y] z]]. intros (Hx & Hy & Hz).
  unfold Write.put_JoeVertex. cbn [vertex].
  name_bytes put_float_quad ENDIAN_SWAP_FLOAT_put_float Hx.
  name_bytes put_float_quad ENDIAN_SWAP_FLOAT_put_float Hy.
  name_bytes put_float_quad ENDIAN_SWAP_FLOAT_put_float Hz.
  split; [|reflexivity].
  unfold decode_JoeVertex, Stored.field. cbn [app firstn skipn Nat.add].
  rewrite Hx, Hy, Hz. reflexivity.
Qed.

Lemma decode_put_JoeTexCoord (t : JoeTexCoord) :
  storable_texcoord t ->
  decode_JoeTexCoord (Write.put_JoeTexCoord t) = t
  /\ length (Write.put_JoeTexCoord t) = 8%nat.
Proof.
  destruct t as [x y]. unfold storable_texcoord, Write.put_JoeTexCoord. cbn [u v].
  intros (Hx & Hy).
  name_bytes put_float_quad ENDIAN_SWAP_FLOAT_put_float Hx.
  name_bytes put_float_quad ENDIAN_SWAP_FLOAT_put_float Hy.
  split; [|reflexivity].
  unfold decode_JoeTexCoord, Stored.field. cbn [app firstn skipn Nat.add].
  rewrite Hx, Hy. reflexivity.
Qed.

(** The records of an array that was written record by record. *)
Lemma records_concat {A : Type} (P : A -> Prop) (put : A -> list byte)
      (decode : list byte -> A) (size : nat) (l : list A) :
  (forall x, P x -> decode (put x) = x /\ length (put x) = size) ->
  Forall P l ->
  map decode (Stored.records size (length l) (concat (map put l))) = l
  /\ length (concat (map put l)) = (size * length l)%nat.
Proof.
  intros Hput. induction 1 as [|x l Hx Hl [IH1 IH2]].
  - simpl. split; [reflexivity | lia].
  - destruct (Hput x Hx) as [Hd Hs].
    cbn [map concat length Stored.records].
    assert (Ht : take size (put x ++ concat (map put l)) = put x)
      by (rewrite <- Hs; apply take_app_length).
    assert (Hr : drop size (put x ++ concat (map put l)) = concat (map put l))
      by (rewrite <- Hs; apply drop_app_length).
    rewrite Ht, Hr, Hd, IH1, length_app, IH2, Hs. split; [reflexivity | lia].
Qed.

Lemma BinaryRead_app (size count : Z) (data rest : list byte) (err : string)
      (mesh : VertexArray) :
  0 < size -> 0 <= count < 2 ^ 32 -> Z.of_nat (length data) = size * count ->
  BinaryRead size count {| file := data ++ rest; err_output := err; m_mesh := mesh |}
  = Returned (data, {| file := rest; err_output := err; m_mesh := mesh |}).
Proof.
  intros Hsize Hcount Hlen. unfold BinaryRead. cbn [file err_output m_mesh].
  rewrite (Z.mod_small count) by lia.
  assert (Hmin : Z.min count (Z.of_nat (length (data ++ rest)) / size) = count).
  { apply Z.min_l. apply Z.div_le_lower_bound; [lia|]. rewrite length_app. lia. }
  rewrite Hmin, Z.eqb_refl.
  replace (Z.to_nat (size * count)) with (length data) by lia.
  rewrite take_app_length, drop_app_length. reflexivity.
Qed.

Lemma read_int_put_int (x : Z) (rest : list byte) (err : string) (mesh : VertexArray) :
  is_int x ->
  read_int {| file := Write.put_int x ++ rest; err_output := err; m_mesh := mesh |}
  = Returned (x, {| file := rest; err_output := err; m_mesh := mesh |}).
Proof.
  intros Hx. unfold read_int, io_bind.
  rewrite BinaryRead_app;
    [ | unfold sizeof_int; lia | lia
      | unfold Write.put_int; rewrite length_le_bytes; unfold sizeof_int; lia].
  cbn [bind fst snd]. unfold io_ret. rewrite ENDIAN_SWAP_32_put_int by exact Hx. reflexivity.
Qed.

(** A frame that was written is read back as it was. *)
Lemma read_frame_put_JoeFrame (n_faces : Z) (f : JoeFrame) (rest : list byte)
      (err : string) (mesh : VertexArray) :
  storable_frame n_faces f ->
  read_frame n_faces {| file := Write.put_JoeFrame f ++ rest; err_output := err; m_mesh := mesh |}
  = Returned (f, {| file := rest; err_output := err; m_mesh := mesh |}).
Proof.
  intros (([Hnf Hlf] & [Hnv Hlv] & [Hnn Hln] & [Hnt Hlt])
          & Hf31 & Hv31 & Hn31 & Ht31 & Hfaces & Hverts & Hnormals & Htex).
  destruct (records_concat storable_face Write.put_JoeFace decode_JoeFace 18 (faces f)
              decode_put_JoeFace Hfaces) as [Rf Lf].
  destruct (records_concat storable_vertex Write.put_JoeVertex decode_JoeVertex 12 (verts f)
              decode_put_JoeVertex Hverts) as [Rv Lv].
  destruct (records_concat storable_vertex Write.put_JoeVertex decode_JoeVertex 12 (normals f)
              decode_put_JoeVertex Hnormals) as [Rn Ln].
  destruct (records_concat storable_texcoord Write.put_JoeTexCoord decode_JoeTexCoord 8
              (texcoords f) decode_put_JoeTexCoord Htex) as [Rt Lt].
  rewrite Hlf in Rf. rewrite Hlv in Rv. rewrite Hln in Rn. rewrite Hlt in Rt.
  unfold read_frame, Write.put_JoeFrame. rewrite <- !app_assoc.
  unfold io_bind at 1. unfold lift at 1, vector_size.
  destruct (Z.ltb_spec n_faces 0) as [|_]; [lia|]. cbn [bind fst snd].
  unfold io_bind at 1.
  rewrite BinaryRead_app; [ | unfold sizeof_JoeFace; lia | lia | unfold sizeof_JoeFace; lia].
  cbn [bind fst snd].
  unfold io_bind at 1. rewrite read_int_put_int by (unfold is_int; lia). cbn [bind fst snd].
  unfold io_bind at 1. rewrite read_int_put_int by (unfold is_int; lia). cbn [bind fst snd].
  unfold io_bind at 1. rewrite read_int_put_int by (unfold is_int; lia). cbn [bind fst snd].
  unfold io_bind at 1. unfold lift at 1.
  destruct (Z.ltb_spec (num_verts f) 0) as [|_]; [lia|]. cbn [bind fst snd].
  unfold io_bind at 1. unfold lift at 1.
  destruct (Z.ltb_spec (num_normals f) 0) as [|_]; [lia|]. cbn [bind fst snd].
  unfold io_bind at 1. unfold lift at 1.
  destruct (Z.ltb_spec (num_texcoords f) 0) as [|_]; [lia|]. cbn [bind fst snd].
  unfold io_bind at 1.
  rewrite BinaryRead_app; [ | unfold sizeof_JoeVertex; lia | lia | unfold sizeof_JoeVertex; lia].
  cbn [bind fst snd].
  unfold io_bind at 1.
  rewrite BinaryRead_app; [ | unfold sizeof_JoeVertex; lia | lia | unfold sizeof_JoeVertex; lia].
  cbn [bind fst snd].
  unfold io_bind at 1.
  rewrite BinaryRead_app;
    [ | unfold sizeof_JoeTexCoord; lia | lia | unfold sizeof_JoeTexCoord; lia].
  cbn [bind fst snd]. unfold io_ret. rewrite Rf, Rv, Rn, Rt.
  destruct f; reflexivity.
Qed.

Lemma read_frames_put (n_faces : Z) (fs : list JoeFrame) (rest : list byte)
      (err : string) (mesh : VertexArray) :
  Forall (storable_frame n_faces) fs ->
  read_frames n_faces (length fs)
    {| file := concat (map Write.put_JoeFrame fs) ++ rest; err_output := err; m_mesh := mesh |}
  = Returned (fs, {| file := rest; err_output := err; m_mesh := mesh |}).
Proof.
  induction 1 as [|f fs Hf Hfs IH].
  - reflexivity.
  - cbn [length read_frames map concat]. rewrite <- app_assoc.
    unfold io_bind at 1. rewrite read_frame_put_JoeFrame by exact Hf. cbn [bind fst snd].
    unfold io_bind at 1. rewrite IH. reflexivity.
Qed.

(** The frames of an object that was written are read back as they were. *)
Lemma read_object_frames_put (o : JoeObject) (rest : list byte) (err : string)
      (mesh : VertexArray) :
  Z.of_nat (length (frames o)) = num_frames (info o) ->
  Forall (storable_frame (num_faces (info o))) (frames o) ->
  read_object_frames (info o)
    {| file := concat (map Write.put_JoeFrame (frames o)) ++ rest;
       err_output := err; m_mesh := mesh |}
  = Returned (frames o, {| file := rest; err_output := err; m_mesh := mesh |}).
Proof.
  intros Hlen Hfs. unfold read_object_frames, io_bind, lift, vector_size.
  destruct (Z.ltb_spec (num_frames (info o)) 0) as [|_]; [lia|]. cbn [bind fst snd].
  replace (Z.to_nat (num_frames (info o))) with (length (frames o)) by lia.
  apply read_frames_put. exact Hfs.
Qed.

Lemma decode_put_JoeHeader (h : JoeHeader) :
  is_int (magic h) -> is_int (version h) -> is_int (num_faces h) -> is_int (num_frames h) ->
  decode_JoeHeader (Write.put_JoeHeader h) = h /\ length (Write.put_JoeHeader h) = 16%nat.
Proof.
  destruct h as [m v f n]. cbn [magic version num_faces num_frames]. intros Hm Hv Hf Hn.
  unfold Write.put_JoeHeader. cbn [magic version num_faces num_frames].
  apply ENDIAN_SWAP_32_put_int in Hm, Hv, Hf, Hn.
  destruct (put_int_quad m) as (? & ? & ? & ? & Em). rewrite Em in Hm |- *.
  destruct (put_int_quad v) as (? & ? & ? & ? & Ev). rewrite Ev in Hv |- *.
  destruct (put_int_quad f) as (? & ? & ? & ? & Ef). rewrite Ef in Hf |- *.
  destruct (put_int_quad n) as (? & ? & ? & ? & En). rewrite En in Hn |- *.
  split; [|reflexivity].
  unfold decode_JoeHeader, Stored.field. cbn [app firstn skipn Nat.add].
  rewrite Hm, Hv, Hf, Hn. reflexivity.
Qed.

Section WrittenFiles.

Context {MV : MathVector} {MB : ModelBase}.

(** The load of an object that was written to a file. *)
Lemma Load_put_JoeObject (filename : string) (genlist : bool) (err : string) (o : JoeObject)
      (vm : list VertEntry) (vf : list Z) (arrays : FlatArrays) :
  is_int (magic (info o)) -> version (info o) = 3 -> 0 <= num_faces (info o) <= 32000 ->
  is_int (num_frames (info o)) ->
  Z.of_nat (length (frames o)) = num_frames (info o) ->
  Forall (storable_frame (num_faces (info o))) (frames o) ->
  weld_object (info o) (frames o) = Returned (vm, vf, arrays) ->
  Load filename (Some (Write.put_JoeObject o)) genlist None err
  = Returned (true, {| file := [];
                       err_output :=
                         (err ++ generation_errors genlist (mesh_of vf arrays))%string;
                       m_mesh := {| mesh_faces := vf;
                                    mesh_vertices := v_vertices arrays;
                                    mesh_normals := v_normals arrays;
                                    mesh_texcoords := [v_texcoords arrays] |} |}).
Proof.
  intros Hm Hv Hf Hn Hlen Hfs Hweld.
  destruct (decode_put_JoeHeader (info o)) as [Hd Hl];
    [exact Hm | rewrite Hv; unfold is_int; lia | unfold is_int; lia | exact Hn |].
  rewrite Load_file. unfold Write.put_JoeObject.
  rewrite LoadFromHandle_header by exact Hl.
  rewrite Hd. cbv zeta. rewrite Hv. change (negb (3 =? JOE_VERSION)) with false. cbv iota.
  assert (Hcap : (JOE_MAX_FACES <? num_faces (info o)) = false)
    by (apply Z.ltb_ge; unfold JOE_MAX_FACES; lia).
  rewrite Hcap.
  pose proof (read_object_frames_put o [] err VertexArray_clear Hlen Hfs) as Hread.
  rewrite app_nil_r in Hread.
  rewrite (ReadData_welded _ _ _ _ _ _ _ Hread Hweld). reflexivity.
Qed.

(** A valid object of moderate size that is written to a file and loaded:
    every read returns what was asked for, [Load] returns true, reads the
    file to its end and hands the mesh an index array of 3 * faceCount
    indices into the welder's table. *)
Theorem written_file_loads (filename : string) (genlist : bool) (err : string)
        (o : JoeObject) (f0 : JoeFrame) :
  is_int (magic (info o)) -> version (info o) = 3 -> 0 <= num_faces (info o) <= 32000 ->
  is_int (num_frames (info o)) ->
  Z.of_nat (length (frames o)) = num_frames (info o) ->
  Forall (storable_frame (num_faces (info o))) (frames o) ->
  frames o !! 0%nat = Some f0 ->
  Forall frame_in_range (frames o) ->
  num_verts f0 + 3 * num_faces (info o) <= 5592405 ->
  exists (w2 : world) (vm : list VertEntry) (arrays : FlatArrays),
    Load filename (Some (Write.put_JoeObject o)) genlist None err = Returned (true, w2)
    /\ weld_object (info o) (frames o) = Returned (vm, mesh_faces (m_mesh w2), arrays)
    /\ file w2 = []
    /\ Z.of_nat (length (mesh_faces (m_mesh w2))) = 3 * num_faces (info o)
    /\ Forall (fun x => 0 <= x < Z.of_nat (length vm)) (mesh_faces (m_mesh w2)).
Proof.
  intros Hm Hv Hf Hn Hlen Hfs Hf0 Hrange Hbound.
  destruct (weld_object_returns (info o) (frames o) f0)
    as (vm & vf & arrays & Hweld & Hvf & _ & Hix & _); try assumption; [lia | |].
  { eapply Forall_impl; [exact Hfs|]. intros f Hsf. apply Hsf. }
  eexists _, vm, arrays. split.
  - apply (Load_put_JoeObject filename genlist err o vm vf arrays); assumption.
  - cbn [m_mesh mesh_faces file].
    split; [exact Hweld|]. split; [reflexivity|].
    split; [exact Hvf|]. apply Forall_lookup. exact Hix.
Qed.

End WrittenFiles.

(** ** A table that a [float] cannot count *)

(** The welding of a frame whose one face is [Example.thrice]. *)
Lemma build_unique_vertices_thrice (frame : JoeFrame) :
  faces frame = [Example.thrice] ->
  1 <= num_verts frame -> num_verts frame * 2 < 2 ^ 31 ->
  build_unique_vertices frame 1
  = Returned (<[0%nat := {| original_index := 0; norm_index := 0; tex_index := 0 |}]>
                (replicate (Z.to_nat (num_verts frame)) VertEntry_new)
              ++ [{| original_index := 0; norm_index := 1; tex_index := 0 |}],
              [0; num_verts frame; 0]).
Proof.
  intros Hfaces Hnv Hnv2. unfold build_unique_vertices.
  assert (Hv1 : vector_size (num_verts frame) = Returned (Z.to_nat (num_verts frame)))
    by (apply vector_size_Returned; split; [lia | reflexivity]).
  rewrite Hv1. cbn [bind].
  rewrite int_result_in_range by lia. cbn [bind].
  change (int_result (1 * 3)) with (Returned (A := Z) 3). cbn [bind].
  change (vector_size 3) with (Returned 3%nat). cbn [bind].
  change (replicate 3 0) with [0; 0; 0].
  unfold for_range. change (Z.to_nat 1) with 1%nat. cbn [for_loop].
  unfold weld_face. rewrite Hfaces.
  change (index [Example.thrice] 0) with (Returned Example.thrice). cbn [bind].
  rewrite for_range_3.
  set (n := Z.to_nat (num_verts frame)).
  set (e0 := {| original_index := 0; norm_index := 0; tex_index := 0 |}).
  set (e1 := {| original_index := 0; norm_index := 1; tex_index := 0 |}).
  assert (Hn : (0 < n)%nat) by (unfold n; lia).
  assert (H0 : weld_corner Example.thrice 0 0 (replicate n VertEntry_new, [0; 0; 0])
               = Returned (<[0%nat := e0]> (replicate n VertEntry_new), [0; 0; 0])).
  { apply weld_corner_Returned. exists VertEntry_new.
    change (corner_entry Example.thrice 0) with e0.
    cbn [original_index tex_index e0 length]. change (Z.to_nat 0) with 0%nat.
    split; [split; [lia | apply lookup_replicate_2; exact Hn]|].
    split; [lia|]. split; [lia|]. left. repeat split. }
  rewrite H0. cbn [bind].
  assert (H1 : weld_corner Example.thrice 0 1 (<[0%nat := e0]> (replicate n VertEntry_new), [0; 0; 0])
               = Returned (<[0%nat := e0]> (replicate n VertEntry_new) ++ [e1],
                           [0; num_verts frame; 0])).
  { apply weld_corner_Returned. exists e0.
    change (corner_entry Example.thrice 1) with e1.
    cbn [original_index norm_index tex_index e0 e1 length]. change (Z.to_nat 0) with 0%nat.
    split; [split; [lia | apply list_lookup_insert_eq; rewrite length_replicate; exact Hn]|].
    split; [lia|]. split; [lia|]. right; right.
    split; [lia|]. split; [left; lia|]. split; [reflexivity|].
    rewrite length_insert, length_replicate. unfold n. rewrite Z2Nat.id by lia.
    rewrite to_int_exact by lia. reflexivity. }
  rewrite H1. cbn [bind].
  assert (H2 : weld_corner Example.thrice 0 2
                 (<[0%nat := e0]> (replicate n VertEntry_new) ++ [e1], [0; num_verts frame; 0])
               = Returned (<[0%nat := e0]> (replicate n VertEntry_new) ++ [e1],
                           [0; num_verts frame; 0])).
  { apply weld_corner_Returned. exists e0.
    change (corner_entry Example.thrice 2) with e0.
    cbn [original_index norm_index tex_index e0 length]. change (Z.to_nat 0) with 0%nat.
    split; [split; [lia|]|].
    { apply lookup_app_l_Some. apply list_lookup_insert_eq.
      rewrite length_replicate; exact Hn. }
    split; [lia|]. split; [lia|]. right; left.
    split; [lia|]. repeat split. }
  rewrite H2. reflexivity.
Qed.

Lemma insert_head {A : Type} (x y : A) (l : list A) : <[0%nat := x]> (y :: l) = x :: l.
Proof. reflexivity. Qed.

Lemma fill_loop_cons (frame : JoeFrame) (nv i : Z) (e : VertEntry)
      (rest : list VertEntry) (out : FlatArrays) :
  fill_loop frame nv i (e :: rest) out
  = if Float.of_int i <? nv then
      out' <- (if 0 <=? original_index e then fill_entry frame i e out else Returned out) ;;
      i' <- int_result (i + 1) ;;
      fill_loop frame nv i' rest out'
    else Returned out.
Proof. reflexivity. Qed.

(** The loop passes over slots that were never populated. *)
Lemma fill_loop_skips_empty (frame : JoeFrame) (nv : Z) :
  nv <= 2 ^ 24 ->
  forall (k : nat) (i : Z) (rest : list VertEntry) (out : FlatArrays),
    0 <= i -> i + Z.of_nat k <= nv ->
    fill_loop frame nv i (replicate k VertEntry_new ++ rest) out
    = fill_loop frame nv (i + Z.of_nat k) rest out.
Proof.
  intros Hnv. induction k as [|k IH]; intros i rest out Hi Hik.
  - cbn [replicate app]. rewrite Z.add_0_r. reflexivity.
  - cbn [replicate app]. rewrite fill_loop_cons.
    rewrite of_int_exact by lia.
    assert (Hc : (i <? nv) = true) by (apply Z.ltb_lt; lia). rewrite Hc.
    change (0 <=? original_index VertEntry_new) with false. cbn [bind].
    rewrite int_result_in_range by lia. cbn [bind].
    rewrite IH by lia. f_equal. lia.
Qed.

(** The flat arrays for the table of [Example.many_frame]: the slot of the
    appended entry is never reached, and the arrays are sized for 2^24
    vertices. *)
Lemma fill_arrays_many (frame : JoeFrame) :
  length (verts frame) = Z.to_nat Example.many ->
  length (normals frame) = 2%nat ->
  num_texcoords frame = 1 -> length (texcoords frame) = 1%nat ->
  exists arrays,
    fill_arrays frame
      (<[0%nat := {| original_index := 0; norm_index := 0; tex_index := 0 |}]>
         (replicate (Z.to_nat Example.many) VertEntry_new)
       ++ [{| original_index := 0; norm_index := 1; tex_index := 0 |}])
    = Returned arrays
    /\ Z.of_nat (length (v_vertices arrays)) = 3 * Example.many
    /\ Z.of_nat (length (v_normals arrays)) = 3 * Example.many
    /\ Z.of_nat (length (v_texcoords arrays)) = 2 * Example.many.
Proof.
  intros Hverts Hnormals Hcount Htex.
  set (e0 := {| original_index := 0; norm_index := 0; tex_index := 0 |}).
  set (e1 := {| original_index := 0; norm_index := 1; tex_index := 0 |}).
  unfold fill_arrays.
  rewrite length_app, length_insert, length_replicate. cbn [length].
  replace (Z.of_nat (Z.to_nat Example.many + 1)) with 16777217
    by (unfold Example.many; lia).
  assert (E1 : Float.of_int 16777217 = 16777216) by (vm_compute; reflexivity).
  assert (E2 : Float.mul_int 16777216 3 = 50331648) by (vm_compute; reflexivity).
  assert (E3 : Float.mul_int 16777216 2 = 33554432) by (vm_compute; reflexivity).
  assert (E4 : (Float.of_int 0 <? 16777216) = true) by (vm_compute; reflexivity).
  assert (E5 : (Float.of_int 16777216 <? 16777216) = false) by (vm_compute; reflexivity).
  rewrite E1, E2, E3.
  replace (Z.to_nat Example.many) with (S (Z.to_nat (Example.many - 1)))
    by (unfold Example.many; lia).
  rewrite replicate_S, insert_head. rewrite <- app_comm_cons. rewrite fill_loop_cons.
  rewrite E4.
  change (0 <=? original_index e0) with true. cbv iota.
  set (zeros := {| v_vertices := replicate (Z.to_nat 50331648) Float.zero;
                   v_texcoords := replicate (Z.to_nat 33554432) Float.zero;
                   v_normals := replicate (Z.to_nat 50331648) Float.zero |}).
  assert (Hz : Z.of_nat (length (v_vertices zeros)) = 50331648
               /\ Z.of_nat (length (v_normals zeros)) = 50331648
               /\ Z.of_nat (length (v_texcoords zeros)) = 33554432).
  { unfold zeros. cbn [v_vertices v_normals v_texcoords]. rewrite !length_replicate. lia. }
  destruct Hz as (Hzv & Hzn & Hzt).
  destruct (fill_entry_returns frame 0 e0 zeros) as (out1 & Hout1); try lia.
  - unfold populated. cbn. lia.
  - intros _. cbn [e0 original_index norm_index tex_index].
    rewrite Hverts, Hnormals. unfold Example.many. lia.
  - rewrite Hout1. cbn [bind].
    change (int_result (0 + 1)) with (Returned (A := Z) 1). cbn [bind].
    rewrite fill_loop_skips_empty; [ | lia | lia | unfold Example.many; lia ].
    replace (1 + Z.of_nat (Z.to_nat (Example.many - 1))) with 16777216
      by (unfold Example.many; lia).
    rewrite fill_loop_cons. rewrite E5.
    exists out1. split; [reflexivity|].
    destruct (fill_entry_lengths frame 0 e0 zeros out1 ltac:(lia) Hout1) as (-> & -> & ->).
    unfold Example.many. lia.
Qed.

(** The welding of [Example.many_vertices]: the table has 2^24 + 1
    entries and the index array is [0; 2^24; 0], but [float newvertnum]
    is 2^24, so the flat arrays hold 2^24 vertices. *)
Lemma weld_object_many {MV : MathVector} :
  exists (vm : list VertEntry) (arrays : FlatArrays),
    weld_object (info Example.many_vertices) (frames Example.many_vertices)
    = Returned (vm, [0; 16777216; 0], arrays)
    /\ Z.of_nat (length vm) = 16777217
    /\ Z.of_nat (length (v_vertices arrays)) = 3 * 16777216
    /\ Z.of_nat (length (v_normals arrays)) = 3 * 16777216
    /\ Z.of_nat (length (v_texcoords arrays)) = 2 * 16777216
    /\ index vm 16777216
       = Returned {| original_index := 0; norm_index := 1; tex_index := 0 |}.
Proof.
  assert (Hshape : frame_shape 1 Example.many_frame).
  { unfold frame_shape, Example.many_frame.
    cbn [faces verts normals texcoords num_verts num_normals num_texcoords].
    rewrite length_replicate. unfold Example.many. cbn [length]. lia. }
  assert (Hrange : frame_in_range Example.many_frame).
  { intros face Hface c Hc. apply list_elem_of_In in Hface.
    cbn [faces Example.many_frame In] in Hface. destruct Hface as [<- | []].
    assert (Hcs : c = 0 \/ c = 1 \/ c = 2) by lia.
    unfold Example.many_frame; cbn [num_verts num_normals].
    destruct Hcs as [-> | [-> | ->]]; cbn; unfold Example.many; lia. }
  destruct (prepare_frames_topology (info Example.many_vertices) (frames Example.many_vertices))
    as (fs' & Hprep & Htop).
  - reflexivity.
  - constructor; [exact Hshape | constructor].
  - constructor; [exact Hrange | constructor].
  - destruct (Htop 0%nat Example.many_frame eq_refl) as (f0' & Hf0' & Hsame).
    destruct Hsame as (Hfaces & Hnv & Hnn & Hnt & Hverts & Hnormals & Htex).
    assert (Hweld := build_unique_vertices_thrice f0').
    rewrite Hfaces, Hnv in Hweld.
    specialize (Hweld eq_refl).
    assert (Hnum : num_verts Example.many_frame = Example.many) by reflexivity.
    rewrite Hnum in Hweld.
    specialize (Hweld ltac:(unfold Example.many; lia) ltac:(unfold Example.many; lia)).
    destruct (fill_arrays_many f0') as (arrays & Hfill & Hlv & Hln & Hlt).
    + rewrite Hverts. unfold Example.many_frame; cbn [verts]. apply length_replicate.
    + rewrite Hnormals. reflexivity.
    + rewrite Hnt. reflexivity.
    + rewrite Htex. reflexivity.
    + eexists _, arrays. split; [|split].
      * unfold weld_object. rewrite Hprep. cbn [bind].
        assert (Hix : index fs' 0 = Returned f0')
          by (apply index_Returned; split; [lia | exact Hf0']).
        rewrite Hix. cbn [bind].
        change (num_faces (info Example.many_vertices)) with 1.
        rewrite Hweld. cbn [bind fst]. rewrite Hfill. reflexivity.
      * rewrite length_app, length_insert, length_replicate. cbn [length].
        unfold Example.many. lia.
      * unfold Example.many in *. repeat (split; [assumption|]).
        apply index_Returned. split; [lia|].
        apply list_lookup_middle. rewrite length_insert, length_replicate. reflexivity.
Qed.

(** ** The properties at work on the example files *)

Lemma many_frame_storable : storable_frame 1 Example.many_frame.
Proof.
  unfold storable_frame, frame_shape, Example.many_frame.
  cbn [faces verts normals texcoords num_verts num_normals num_texcoords].
  rewrite length_replicate. unfold Example.many. cbn [length].
  repeat split; try lia.
  - constructor; [|constructor]. unfold storable_face, Example.thrice, is_short; cbn. lia.
  - apply Forall_replicate. unfold storable_vertex, is_float; cbn. lia.
  - unfold storable_vertex, Example.point, Example.one, is_float.
    constructor; [cbn; lia|]. constructor; [cbn; lia|]. constructor.
  - unfold storable_texcoord, Example.one, is_float. constructor; [cbn; lia | constructor].
Qed.

(** C3 fails on the code.  The file [Write.put_JoeObject
    Example.many_vertices] is well formed: one frame of 2^24 vertices and
    one face.  [Load] returns true.  The welder's table has 2^24 + 1
    entries and the index array handed to the mesh is [0; 2^24; 0], but
    [float newvertnum] is 2^24, so the flat arrays hold 2^24 vertices:
    the index 2^24 is not the position of a vertex of the flat arrays,
    which are shorter than the table. *)
Theorem welded_index_outside_flat_arrays {MV : MathVector} {MB : ModelBase}
        (filename : string) (genlist : bool) (err : string) :
  exists (vm : list VertEntry) (w2 : world),
    Load filename (Some (Write.put_JoeObject Example.many_vertices)) genlist None err
    = Returned (true, w2)
    /\ (exists arrays, weld_object (info Example.many_vertices) (frames Example.many_vertices)
                       = Returned (vm, mesh_faces (m_mesh w2), arrays))
    /\ Z.of_nat (length vm) = 16777217
    /\ mesh_faces (m_mesh w2) = [0; 16777216; 0]
    /\ Z.of_nat (length (mesh_vertices (m_mesh w2))) = 3 * 16777216
    /\ Z.of_nat (length (mesh_normals (m_mesh w2))) = 3 * 16777216
    /\ (exists uv, mesh_texcoords (m_mesh w2) = [uv] /\ Z.of_nat (length uv) = 2 * 16777216).
Proof.
  destruct weld_object_many as (vm & arrays & Hweld & Hvm & Hv & Hn & Ht & _).
  exists vm. eexists. split.
  - apply (Load_put_JoeObject filename genlist err Example.many_vertices vm
             [0; 16777216; 0] arrays);
      try exact Hweld;
      unfold Example.many_vertices; cbn [info frames magic version num_faces num_frames length];
      unfold is_int; try lia; try reflexivity.
    constructor; [exact many_frame_storable | constructor].
  - cbn [m_mesh mesh_faces mesh_vertices mesh_normals mesh_texcoords].
    split; [exists arrays; exact Hweld|]. split; [exact Hvm|]. split; [reflexivity|].
    split; [exact Hv|]. split; [exact Hn|]. exists (v_texcoords arrays). auto.
Qed.

(** C9 fails on the code.  In the load of the file [Write.put_JoeObject
    Example.many_vertices], which returns true, slot 2^24 of the welder's
    table is populated and its texcoord index 0 is below the frame's
    texcoord count 1: its pair of texture coordinates is to be gathered
    from the source, where it is (1, 1).  [float newvertnum] is 2^24, so
    the filling loop ends before that slot, and the texcoord array handed
    to the mesh has 2 * 2^24 floats: it holds no pair for the slot,
    neither the gathered one nor (0, 0). *)
Theorem populated_slot_without_texcoords {MV : MathVector} {MB : ModelBase}
        (filename : string) (genlist : bool) (err : string) :
  exists (vm : list VertEntry) (w2 : world) (e : VertEntry) (uv : list Float.float),
    Load filename (Some (Write.put_JoeObject Example.many_vertices)) genlist None err
    = Returned (true, w2)
    /\ (exists arrays, weld_object (info Example.many_vertices) (frames Example.many_vertices)
                       = Returned (vm, mesh_faces (m_mesh w2), arrays))
    /\ index vm 16777216 = Returned e
    /\ populated e
    /\ tex_index e < num_texcoords Example.many_frame
    /\ texcoord_for Example.many_frame e = Some (Example.one, Example.one)
    /\ mesh_texcoords (m_mesh w2) = [uv]
    /\ index uv (16777216 * 2) = Aborted UndefinedBehaviour
    /\ index uv (16777216 * 2 + 1) = Aborted UndefinedBehaviour.
Proof.
  destruct weld_object_many as (vm & arrays & Hweld & _ & _ & _ & Ht & Hslot).
  exists vm. eexists. eexists. exists (v_texcoords arrays). split.
  - apply (Load_put_JoeObject filename genlist err Example.many_vertices vm
             [0; 16777216; 0] arrays);
      try exact Hweld;
      unfold Example.many_vertices; cbn [info frames magic version num_faces num_frames length];
      unfold is_int; try lia; try reflexivity.
    constructor; [exact many_frame_storable | constructor].
  - cbn [m_mesh mesh_faces mesh_texcoords].
    split; [exists arrays; exact Hweld|]. split; [exact Hslot|].
    split; [unfold populated; cbn [original_index]; lia|].
    split; [cbn [tex_index Example.many_frame num_texcoords]; lia|].
    split; [reflexivity|]. split; [reflexivity|].
    assert (Hout : forall i, 16777216 * 2 <= i ->
                             index (v_texcoords arrays) i = Aborted UndefinedBehaviour).
    { intros i Hi. unfold index.
      assert (Hneg : (i <? 0) = false) by (apply Z.ltb_ge; lia). rewrite Hneg.
      assert (Hnone : v_texcoords arrays !! Z.to_nat i = None)
        by (apply lookup_ge_None; lia).
      rewrite Hnone. reflexivity. }
    split; apply Hout; lia.
Qed.

(** * Further properties of the loader *)

Lemma with_file_file (w : world) : with_file w (file w) = w.
Proof. destruct w; reflexivity. Qed.

Lemma with_file_twice (w : world) (a b : list byte) :
  with_file (with_file w a) b = with_file w b.
Proof. reflexivity. Qed.

(** [BinaryRead] hands over the first [size * count] bytes of the file and
    moves the file behind them; with fewer bytes left its assertion
    fails. *)
Lemma BinaryRead_value (size count : Z) (w : world) :
  0 < size -> 0 <= count < 2 ^ 32 ->
  BinaryRead size count w
  = if size * count <=? Z.of_nat (length (file w))
    then Returned (take (Z.to_nat (size * count)) (file w),
                   with_file w (drop (Z.to_nat (size * count)) (file w)))
    else Aborted AssertionFailed.
Proof.
  intros Hsize Hcount. unfold BinaryRead, with_file.
  rewrite (Z.mod_small count) by lia.
  destruct (Z.leb_spec (size * count) (Z.of_nat (length (file w)))) as [Hle|Hlt].
  - assert (Hmin : Z.min count (Z.of_nat (length (file w)) / size) = count).
    { apply Z.min_l. apply Z.div_le_lower_bound; lia. }
    rewrite Hmin, Z.eqb_refl. reflexivity.
  - assert (Hq : Z.of_nat (length (file w)) / size < count)
      by (apply Z.div_lt_upper_bound; lia).
    rewrite Z.min_r by lia.
    destruct (Z.eqb_spec (Z.of_nat (length (file w)) / size) count); [lia | reflexivity].
Qed.

(** [BinaryRead] either hands over exactly [size * count] bytes, the
    beginning of the file, and leaves the rest of the file, or, when fewer
    bytes are left, fails its assertion. *)
Theorem BinaryRead_reads_or_asserts (size count : Z) (w : world) :
  0 < size -> 0 <= count < 2 ^ 32 ->
  (size * count <= Z.of_nat (length (file w)) ->
   exists data rest,
     BinaryRead size count w = Returned (data, with_file w rest)
     /\ file w = data ++ rest /\ Z.of_nat (length data) = size * count)
  /\ (Z.of_nat (length (file w)) < size * count ->
      BinaryRead size count w = Aborted AssertionFailed).
Proof.
  intros Hsize Hcount. rewrite BinaryRead_value by assumption. split.
  - intros Hle. apply Z.leb_le in Hle. rewrite Hle. apply Z.leb_le in Hle.
    eexists _, _. split; [reflexivity|]. split; [symmetry; apply take_drop|].
    rewrite length_take. lia.
  - intros Hlt. destruct (Z.leb_spec (size * count) (Z.of_nat (length (file w)))); [lia|].
    reflexivity.
Qed.

Lemma BinaryRead_reads_prefix (size count : Z) :
  0 < size -> reads_prefix (BinaryRead size count).
Proof.
  intros Hsize w d w' H.
  assert (Hc : 0 <= count mod 2 ^ 32 < 2 ^ 32) by (apply Z.mod_pos_bound; lia).
  assert (Hsame : forall w0, BinaryRead size count w0 = BinaryRead size (count mod 2 ^ 32) w0).
  { intros w0. unfold BinaryRead. rewrite Z.mod_mod by lia. reflexivity. }
  rewrite Hsame, BinaryRead_value in H by assumption.
  set (n := Z.to_nat (size * (count mod 2 ^ 32))) in *.
  destruct (Z.leb_spec (size * (count mod 2 ^ 32)) (Z.of_nat (length (file w)))) as [Hle|Hlt];
    [|discriminate].
  inversion H; subst d w'; clear H. cbn [with_file file].
  exists (take n (file w)).
  assert (Hlen : length (take n (file w)) = n) by (rewrite length_take; lia).
  split; [symmetry; apply take_drop|]. split.
  - intros rest. rewrite Hsame, BinaryRead_value by assumption.
    cbn [with_file file err_output m_mesh]. fold n.
    rewrite length_app, Hlen.
    destruct (Z.leb_spec (size * (count mod 2 ^ 32)) (Z.of_nat (n + length rest))); [|lia].
    assert (Ht : take n (take n (file w) ++ rest) = take n (file w))
      by (rewrite <- Hlen at 1; apply take_app_length).
    assert (Hd : drop n (take n (file w) ++ rest) = rest)
      by (rewrite <- Hlen at 1; apply drop_app_length).
    rewrite Ht, Hd. reflexivity.
  - intros p [_ Hp]. rewrite Hsame, BinaryRead_value by assumption.
    cbn [with_file file]. rewrite Hlen in Hp.
    destruct (Z.leb_spec (size * (count mod 2 ^ 32)) (Z.of_nat (length p))); [lia | reflexivity].
Qed.

Lemma io_ret_reads_prefix {A : Type} (a : A) : reads_prefix (io_ret a).
Proof.
  intros w a' w' H. inversion H; subst. exists []. split; [reflexivity|]. split.
  - intros rest. reflexivity.
  - intros p [_ Hp]. cbn in Hp. lia.
Qed.

Lemma lift_reads_prefix {A : Type} (c : outcome A) : reads_prefix (lift c).
Proof.
  intros w a w' H. unfold lift in *. destruct c as [x|why]; [|discriminate].
  inversion H; subst. exists []. split; [reflexivity|]. split.
  - intros rest. reflexivity.
  - intros p [_ Hp]. cbn in Hp. lia.
Qed.

(** A computation that leaves the file alone. *)
Lemma silent_reads_prefix {A : Type} (c : IO A) :
  (forall w a w', c w = Returned (a, w') ->
                  file w' = file w
                  /\ forall content, c (with_file w content) = Returned (a, with_file w' content)) ->
  reads_prefix c.
Proof.
  intros Hc w a w' H. destruct (Hc w a w' H) as [Hfile Hany].
  exists []. split; [rewrite Hfile; reflexivity|]. split.
  - intros rest. apply Hany.
  - intros p [_ Hp]. cbn in Hp. lia.
Qed.

Lemma cut_short_app (p a r : list byte) :
  cut_short p (a ++ r) ->
  cut_short p a \/ exists p', p = a ++ p' /\ cut_short p' r.
Proof.
  intros [[k Hk] Hlen].
  destruct (Nat.lt_ge_cases (length p) (length a)) as [Hlt|Hge].
  - left. split; [|exact Hlt].
    exists (take (length a - length p) k).
    apply (f_equal (take (length a))) in Hk.
    rewrite take_app_length in Hk. rewrite take_app_ge in Hk by lia. exact Hk.
  - right. exists (drop (length a) p).
    assert (Hp : p = a ++ drop (length a) p).
    { rewrite <- (take_drop (length a) p) at 1. f_equal.
      apply (f_equal (take (length a))) in Hk.
      rewrite take_app_length in Hk. rewrite take_app_le in Hk by lia. auto. }
    split; [exact Hp|]. split.
    + exists k. rewrite Hp in Hk. rewrite <- app_assoc in Hk.
      apply app_inv_head in Hk. exact Hk.
    + rewrite length_app in Hlen. rewrite Hp in Hlen. rewrite length_app in Hlen. lia.
Qed.

Lemma io_bind_reads_prefix {A B : Type} (c : IO A) (k : A -> IO B) :
  reads_prefix c -> (forall a, reads_prefix (k a)) -> reads_prefix (io_bind c k).
Proof.
  intros Hc Hk w b w2 H. unfold io_bind in H.
  apply bind_Returned in H as ([a w1] & H1 & H2). cbn [fst snd] in H2.
  destruct (Hc w a w1 H1) as (d1 & Hf1 & Hext1 & Hcut1).
  destruct (Hk a w1 b w2 H2) as (d2 & Hf2 & Hext2 & Hcut2).
  exists (d1 ++ d2). split; [rewrite Hf1, Hf2, app_assoc; reflexivity|]. split.
  - intros rest. unfold io_bind. rewrite <- app_assoc, Hext1. cbn [bind fst snd].
    apply Hext2.
  - intros p Hp. unfold io_bind. apply cut_short_app in Hp as [Hp | (p' & -> & Hp')].
    + rewrite (Hcut1 p Hp). reflexivity.
    + rewrite Hext1. cbn [bind fst snd]. apply Hcut2. exact Hp'.
Qed.

Lemma print_reads_prefix (text : string) : reads_prefix (print text).
Proof.
  apply silent_reads_prefix. intros w a w' H. unfold print in H. inversion H; subst.
  split; reflexivity.
Qed.

Lemma assign_mesh_reads_prefix (v_faces : list Z) (arrays : FlatArrays) :
  reads_prefix (assign_mesh v_faces arrays).
Proof.
  apply silent_reads_prefix. intros w a w' H. unfold assign_mesh in H. inversion H; subst.
  split; reflexivity.
Qed.

Lemma read_int_reads_prefix : reads_prefix read_int.
Proof.
  unfold read_int. apply io_bind_reads_prefix.
  - apply BinaryRead_reads_prefix. unfold sizeof_int. lia.
  - intros raw. apply io_ret_reads_prefix.
Qed.

Lemma read_frame_reads_prefix (n_faces : Z) : reads_prefix (read_frame n_faces).
Proof.
  unfold read_frame.
  repeat first
    [ apply io_ret_reads_prefix
    | apply lift_reads_prefix
    | apply read_int_reads_prefix
    | apply BinaryRead_reads_prefix;
      unfold sizeof_JoeFace, sizeof_JoeVertex, sizeof_JoeTexCoord; lia
    | apply io_bind_reads_prefix
    | intros ? ].
Qed.

Lemma read_frames_reads_prefix (n_faces : Z) (n : nat) : reads_prefix (read_frames n_faces n).
Proof.
  induction n as [|n IH]; cbn [read_frames].
  - apply io_ret_reads_prefix.
  - apply io_bind_reads_prefix; [apply read_frame_reads_prefix|]. intros frame.
    apply io_bind_reads_prefix; [exact IH|]. intros rest. apply io_ret_reads_prefix.
Qed.

Lemma read_object_frames_reads_prefix (header : JoeHeader) :
  reads_prefix (read_object_frames header).
Proof.
  unfold read_object_frames. apply io_bind_reads_prefix; [apply lift_reads_prefix|].
  intros n. apply read_frames_reads_prefix.
Qed.

Section Prefix.

Context {MV : MathVector} {MB : ModelBase}.

Lemma ReadData_reads_prefix (header : JoeHeader) : reads_prefix (ReadData header).
Proof.
  unfold ReadData. apply io_bind_reads_prefix; [apply read_object_frames_reads_prefix|].
  intros fs. apply io_bind_reads_prefix; [apply lift_reads_prefix|].
  intros welded. apply assign_mesh_reads_prefix.
Qed.

Lemma LoadFromHandle_reads_prefix : reads_prefix LoadFromHandle.
Proof.
  unfold LoadFromHandle. apply io_bind_reads_prefix.
  - apply BinaryRead_reads_prefix. unfold sizeof_JoeHeader. lia.
  - intros buffer. cbv zeta.
    destruct (negb _).
    + apply io_bind_reads_prefix; [apply print_reads_prefix|].
      intros _. apply io_ret_reads_prefix.
    + destruct (_ <? _).
      * apply io_bind_reads_prefix; [apply print_reads_prefix|].
        intros _. apply io_ret_reads_prefix.
      * apply io_bind_reads_prefix; [apply ReadData_reads_prefix|]. intros _.
        apply io_bind_reads_prefix; [|intros _; apply io_ret_reads_prefix].
        unfold GenerateMeshMetrics. apply io_ret_reads_prefix.
Qed.

Lemma generation_reads_prefix (genlist : bool) :
  reads_prefix (if genlist then GenerateListID else GenerateVertexArrayObject).
Proof.
  apply silent_reads_prefix. intros w a w' H.
  destruct genlist; unfold GenerateListID, GenerateVertexArrayObject, print in H;
    inversion H; subst; split; reflexivity.
Qed.

(** [Load] on an open file, as a computation on the world. *)
Lemma Load_opened (filename : string) (content : list byte) (genlist : bool) (err : string) :
  Load filename (Some content) genlist None err
  = io_bind LoadFromHandle
      (fun val => if val
                  then io_bind (if genlist then GenerateListID else GenerateVertexArrayObject)
                               (fun _ => io_ret true)
                  else io_bind (print ("in " ++ filename ++ endl)) (fun _ => io_ret false))
      {| file := content; err_output := err; m_mesh := VertexArray_clear |}.
Proof.
  unfold Load, io_bind.
  destruct (LoadFromHandle _) as [[[|] w]|why]; reflexivity.
Qed.

Lemma Load_reads_prefix (filename : string) (content : list byte) (genlist : bool)
      (err : string) (val : bool) (w : world) :
  Load filename (Some content) genlist None err = Returned (val, w) ->
  exists used : list byte,
    content = used ++ file w
    /\ (forall rest, Load filename (Some (used ++ rest)) genlist None err
                     = Returned (val, with_file w rest))
    /\ (forall p, cut_short p used ->
                  Load filename (Some p) genlist None err = Aborted AssertionFailed).
Proof.
  rewrite Load_opened. intros H.
  assert (Hr : reads_prefix
                 (io_bind LoadFromHandle
                    (fun val => if val
                                then io_bind (if genlist then GenerateListID
                                              else GenerateVertexArrayObject)
                                             (fun _ => io_ret true)
                                else io_bind (print ("in " ++ filename ++ endl))
                                             (fun _ => io_ret false)))).
  { apply io_bind_reads_prefix; [apply LoadFromHandle_reads_prefix|].
    intros [|].
    - apply io_bind_reads_prefix;
        [apply generation_reads_prefix | intros _; apply io_ret_reads_prefix].
    - apply io_bind_reads_prefix;
        [apply print_reads_prefix | intros _; apply io_ret_reads_prefix]. }
  destruct (Hr _ _ _ H) as (used & Hfile & Hext & Hcut). cbn [file] in Hfile.
  exists used. split; [exact Hfile|]. split.
  - intros rest. rewrite Load_opened. exact (Hext rest).
  - intros p Hp. rewrite Load_opened. exact (Hcut p Hp).
Qed.

(** A load that returns has read a prefix of the file, and the bytes
    behind it play no part: the same file with anything else (or nothing)
    in their place is loaded with the same flag, error text and mesh. *)
Theorem load_ignores_what_follows_the_frames
        (filename : string) (content : list byte) (genlist : bool) (err : string)
        (val : bool) (w : world) :
  Load filename (Some content) genlist None err = Returned (val, w) ->
  exists used : list byte,
    content = used ++ file w
    /\ forall rest, Load filename (Some (used ++ rest)) genlist None err
                    = Returned (val, with_file w rest).
Proof.
  intros H. destruct (Load_reads_prefix _ _ _ _ _ _ H) as (used & Hfile & Hext & _).
  exists used. auto.
Qed.

(** A file that ends inside what a returning load reads is not loaded:
    the assertion of [BinaryRead] fails, whether the complete file would
    have been accepted or rejected. *)
Theorem truncated_file_fails_the_read_assertion
        (filename : string) (content : list byte) (genlist : bool) (err : string)
        (val : bool) (w : world) :
  Load filename (Some content) genlist None err = Returned (val, w) ->
  forall n : nat, (n < length content - length (file w))%nat ->
    Load filename (Some (take n content)) genlist None err = Aborted AssertionFailed.
Proof.
  intros H n Hn. destruct (Load_reads_prefix _ _ _ _ _ _ H) as (used & Hfile & _ & Hcut).
  apply Hcut. rewrite Hfile in Hn |- *. rewrite length_app in Hn.
  rewrite take_app_le by lia. split.
  - exists (drop n used). symmetry. apply take_drop.
  - rewrite length_take. lia.
Qed.

End Prefix.

Section Steps.

Context {MV : MathVector} {MB : ModelBase}.

Lemma weld_object_steps (header : JoeHeader) (fs : list JoeFrame)
      (vm : list VertEntry) (vf : list Z) (arrays : FlatArrays) :
  length fs = Z.to_nat (num_frames header) ->
  Forall (frame_shape (num_faces header)) fs ->
  weld_object header fs = Returned (vm, vf, arrays) <->
  exists flag f0, welds header fs flag f0 vm vf arrays.
Proof.
  intros Hlen Hshape. unfold weld_object, welds, prepare_frames.
  rewrite (scale_frames_map (num_faces header)) by assumption. cbn [bind].
  assert (Hswap : swap_normals (num_frames header) (scaled fs) = Returned (prepared true fs)).
  { apply (swap_normals_map (num_faces header)).
    - unfold scaled. rewrite length_map. exact Hlen.
    - apply scaled_shape. exact Hshape. }
  split.
  - intros H. apply bind_Returned in H as (fs' & Hprep & H).
    apply bind_Returned in Hprep as (flag & Hflag & Hprep).
    assert (Hfs' : fs' = prepared flag fs).
    { destruct flag; [rewrite Hswap in Hprep|]; inversion Hprep; reflexivity. }
    subst fs'.
    apply bind_Returned in H as (f0 & Hf0 & H). apply index_Returned in Hf0 as [_ Hf0].
    apply bind_Returned in H as ([vm' vf'] & Hbuilt & H). cbn [fst] in H.
    apply bind_Returned in H as (arrays' & Hfill & H). inversion H; subst.
    exists flag, f0. auto.
  - intros (flag & f0 & Hflag & Hf0 & Hbuilt & Hfill).
    rewrite Hflag. cbn [bind].
    assert (Hprep : (if flag then swap_normals (num_frames header) (scaled fs)
                     else Returned (scaled fs)) = Returned (prepared flag fs))
      by (destruct flag; [exact Hswap | reflexivity]).
    rewrite Hprep. cbn [bind].
    assert (Hix : index (prepared flag fs) 0 = Returned f0)
      by (apply index_Returned; split; [lia | exact Hf0]).
    rewrite Hix. cbn [bind]. rewrite Hbuilt. cbn [bind fst]. rewrite Hfill. reflexivity.
Qed.

(** What [ReadData] has done when it returns. *)
Lemma ReadData_steps (header : JoeHeader) (w w2 : world) (u : unit) :
  ReadData header w = Returned (u, w2) <->
  exists fs w1 flag f0 vm vf arrays,
    read_object_frames header w = Returned (fs, w1)
    /\ welds header fs flag f0 vm vf arrays
    /\ w2 = {| file := file w1; err_output := err_output w; m_mesh := mesh_of vf arrays |}.
Proof.
  split.
  - intros H. unfold ReadData in H.
    apply io_bind_Returned in H as (fs & w1 & Hread & H).
    apply io_bind_Returned in H as ([[vm vf] arrays] & w1' & Hweld & H).
    apply lift_Returned in Hweld as [Hweld Hw]. cbn [fst snd] in Hweld, Hw, H. subst w1'.
    destruct (read_object_frames_shape _ _ _ _ Hread) as (_ & Hlen & Hshape).
    apply weld_object_steps in Hweld as (flag & f0 & Hwelds); try assumption.
    destruct (read_object_frames_keeps _ _ _ _ Hread) as [Herr _].
    unfold assign_mesh in H. inversion H; subst.
    exists fs, w1, flag, f0, vm, vf, arrays. rewrite Herr. auto.
  - intros (fs & w1 & flag & f0 & vm & vf & arrays & Hread & Hwelds & ->).
    destruct (read_object_frames_shape _ _ _ _ Hread) as (_ & Hlen & Hshape).
    destruct (read_object_frames_keeps _ _ _ _ Hread) as [Herr _].
    assert (Hweld : weld_object header fs = Returned (vm, vf, arrays))
      by (apply weld_object_steps; eauto).
    rewrite (ReadData_welded _ _ _ _ _ _ _ Hread Hweld). rewrite Herr. destruct u. reflexivity.
Qed.

(** The ways in which [Load] returns. *)
Lemma Load_Returned (filename : string) (disk : option (list byte)) (genlist : bool)
      (err : string) (val : bool) (w2 : world) :
  Load filename disk genlist None err = Returned (val, w2) <->
  (disk = None /\ val = false
   /\ w2 = {| file := [];
              err_output := (err ++ "MODEL_JOE03: Failed to open file "
                                 ++ filename ++ endl)%string;
              m_mesh := VertexArray_clear |})
  \/ exists hb body,
      disk = Some (hb ++ body) /\ length hb = 16%nat
      /\ ((version (decode_JoeHeader hb) <> 3 /\ val = false
           /\ w2 = {| file := body;
                      err_output := ((err ++ ("Invalid file format (Version is "
                                              ++ show_int (version (decode_JoeHeader hb))
                                              ++ " not 3). "))
                                     ++ ("in " ++ filename ++ endl))%string;
                      m_mesh := VertexArray_clear |})
          \/ (version (decode_JoeHeader hb) = 3 /\ 32000 < num_faces (decode_JoeHeader hb)
              /\ val = false
              /\ w2 = {| file := body;
                         err_output := ((err ++ (show_int (num_faces (decode_JoeHeader hb))
                                                 ++ " faces (max 32000). "))
                                        ++ ("in " ++ filename ++ endl))%string;
                         m_mesh := VertexArray_clear |})
          \/ (version (decode_JoeHeader hb) = 3 /\ num_faces (decode_JoeHeader hb) <= 32000
              /\ val = true
              /\ exists fs w1 flag f0 vm vf arrays,
                  read_object_frames (decode_JoeHeader hb)
                    {| file := body; err_output := err; m_mesh := VertexArray_clear |}
                  = Returned (fs, w1)
                  /\ welds (decode_JoeHeader hb) fs flag f0 vm vf arrays
                  /\ w2 = {| file := file w1;
                             err_output :=
                               (err ++ generation_errors genlist (mesh_of vf arrays))%string;
                             m_mesh := mesh_of vf arrays |})).
Proof.
  destruct disk as [content|].
  2:{ cbn [Load]. split.
      - intros H. inversion H; subst. left. auto.
      - intros [(_ & -> & ->) | (hb & body & Hd & _)]; [reflexivity | discriminate]. }
  destruct (Nat.lt_ge_cases (length content) 16) as [Hshort|Hlong].
  { rewrite Load_file, LoadFromHandle_truncated by exact Hshort. cbn [bind]. split.
    - discriminate.
    - intros [(Hd & _) | (hb & body & Hd & Hlen & _)]; [discriminate|].
      inversion Hd; subst content. rewrite length_app in Hshort. lia. }
  assert (Hcontent : content = take 16 content ++ drop 16 content)
    by (symmetry; apply take_drop).
  assert (Hlen : length (take 16 content) = 16%nat) by (rewrite length_take; lia).
  assert (Hrun : forall hb body, length hb = 16%nat -> content = hb ++ body ->
            Load filename (Some content) genlist None err
            = if negb (version (decode_JoeHeader hb) =? 3) then
                Returned (false,
                          {| file := body;
                             err_output := ((err ++ ("Invalid file format (Version is "
                                              ++ show_int (version (decode_JoeHeader hb))
                                              ++ " not 3). "))
                                            ++ ("in " ++ filename ++ endl))%string;
                             m_mesh := VertexArray_clear |})
              else if 32000 <? num_faces (decode_JoeHeader hb) then
                Returned (false,
                          {| file := body;
                             err_output := ((err ++ (show_int (num_faces (decode_JoeHeader hb))
                                                     ++ " faces (max 32000). "))
                                            ++ ("in " ++ filename ++ endl))%string;
                             m_mesh := VertexArray_clear |})
              else r <- ReadData (decode_JoeHeader hb)
                          {| file := body; err_output := err; m_mesh := VertexArray_clear |} ;;
                   Returned (true,
                             {| file := file (snd r);
                                err_output :=
                                  (err_output (snd r)
                                   ++ generation_errors genlist (m_mesh (snd r)))%string;
                                m_mesh := m_mesh (snd r) |})).
  { intros hb body Hhb ->. rewrite Load_file, LoadFromHandle_header by exact Hhb.
    cbv zeta. unfold JOE_VERSION, JOE_MAX_FACES.
    destruct (negb _); [reflexivity|].
    destruct (_ <? _); [reflexivity|].
    destruct (ReadData _ _) as [[[] w']|why]; reflexivity. }
  split.
  - intros H. right. exists (take 16 content), (drop 16 content).
    split; [f_equal; exact Hcontent|]. split; [exact Hlen|].
    rewrite (Hrun _ _ Hlen Hcontent) in H.
    destruct (Z.eqb_spec (version (decode_JoeHeader (take 16 content))) 3) as [Hv|Hv];
      cbn [negb] in H.
    + destruct (Z.ltb_spec 32000 (num_faces (decode_JoeHeader (take 16 content)))) as [Hf|Hf].
      * inversion H; subst. right; left. auto.
      * right; right. apply bind_Returned in H as ([[] w'] & Hread & H).
        inversion H; subst. cbn [snd] in *.
        apply ReadData_steps in Hread
          as (fs & w1 & flag & f0 & vm & vf & arrays & Hread & Hwelds & ->).
        split; [exact Hv|]. split; [lia|]. split; [reflexivity|].
        exists fs, w1, flag, f0, vm, vf, arrays. auto.
    + inversion H; subst. left. auto.
  - intros [(Hd & _) | (hb & body & Hd & Hhb & Hcase)]; [discriminate|].
    injection Hd as Hc. rewrite (Hrun hb body Hhb Hc).
    destruct Hcase as [(Hv & -> & ->) | [(Hv & Hf & -> & ->) | (Hv & Hf & -> & Hcase)]].
    + apply Z.eqb_neq in Hv. rewrite Hv. reflexivity.
    + rewrite Hv. cbn [Z.eqb Pos.eqb negb].
      apply Z.ltb_lt in Hf. rewrite Hf. reflexivity.
    + rewrite Hv. cbn [Z.eqb Pos.eqb negb].
      assert (Hc' : (32000 <? num_faces (decode_JoeHeader hb)) = false) by (apply Z.ltb_ge; lia).
      rewrite Hc'.
      destruct Hcase as (fs & w1 & flag & f0 & vm & vf & arrays & Hread & Hwelds & ->).
      assert (HR : ReadData (decode_JoeHeader hb)
                     {| file := body; err_output := err; m_mesh := VertexArray_clear |}
                   = Returned (tt, {| file := file w1; err_output := err;
                                      m_mesh := mesh_of vf arrays |})).
      { apply ReadData_steps. exists fs, w1, flag, f0, vm, vf, arrays. auto. }
      rewrite HR. reflexivity.
Qed.

End Steps.

Lemma append_assoc (a b c : string) : ((a ++ b) ++ c)%string = (a ++ b ++ c)%string.
Proof. induction a as [|x a IH]; cbn; [reflexivity | rewrite IH; reflexivity]. Qed.

Section Outcomes.

Context {MV : MathVector} {MB : ModelBase}.

(** A load that returns false has written its report to the error stream
    and leaves the mesh cleared.  The report names the file: it ends with
    the name of the file and a line end, or, when the pack cannot open the
    entry, with the name of the file, " in ", the path of the pack and a
    line end. *)
Theorem failed_load_reports_and_leaves_the_mesh_clear
        (filename : string) (disk : option (list byte)) (genlist : bool)
        (pack : option JoePack) (err : string) (w : world) :
  Load filename disk genlist pack err = Returned (false, w) ->
  m_mesh w = VertexArray_clear
  /\ exists text : string,
      err_output w
      = (err ++ text ++ filename
             ++ match pack with
                | None => endl
                | Some p => match JoePack_fopen p filename with
                            | Some _ => endl
                            | None => " in " ++ GetPath p ++ endl
                            end
                end)%string.
Proof.
  assert (Hfile : forall d w',
             Load filename d genlist None err = Returned (false, w') ->
             m_mesh w' = VertexArray_clear
             /\ exists text : string, err_output w' = (err ++ text ++ filename ++ endl)%string).
  { intros d w' H. apply Load_Returned in H
      as [(_ & _ & ->) | (hb & body & _ & _ &
                          [(_ & _ & ->) | [(_ & _ & _ & ->) | (_ & _ & Hval & _)]])].
    - split; [reflexivity|]. eexists. reflexivity.
    - split; [reflexivity|]. cbn [err_output].
      exists ("Invalid file format (Version is " ++ show_int (version (decode_JoeHeader hb))
              ++ " not 3). in ")%string.
      rewrite !append_assoc. reflexivity.
    - split; [reflexivity|]. cbn [err_output].
      exists (show_int (num_faces (decode_JoeHeader hb)) ++ " faces (max 32000). in ")%string.
      rewrite !append_assoc. reflexivity.
    - discriminate. }
  intros H. destruct pack as [p|]; [|exact (Hfile disk w H)].
  destruct (JoePack_fopen p filename) as [content|] eqn:Hopen.
  - rewrite (Load_pack filename disk genlist p err content Hopen) in H.
    exact (Hfile (Some content) w H).
  - unfold Load in H. rewrite Hopen in H. injection H as <-.
    split; [reflexivity|]. exists "MODEL_JOE03: Failed to open file "%string. reflexivity.
Qed.

(** The counts of the header are not validated from below.  With version
    3 and a face count that passes the cap: a negative frame count, and a
    negative face count when there is a frame to read, end the run with
    the [std::length_error] of [resize]; with no frame at all the welder
    indexes frame 0 of an empty vector. *)
Theorem counts_are_not_validated_from_below
        (filename : string) (genlist : bool) (err : string) (hb body : list byte) :
  length hb = 16%nat ->
  version (decode_JoeHeader hb) = 3 ->
  num_faces (decode_JoeHeader hb) <= 32000 ->
  (num_frames (decode_JoeHeader hb) < 0 ->
   Load filename (Some (hb ++ body)) genlist None err = Aborted LengthError)
  /\ (num_frames (decode_JoeHeader hb) = 0 ->
      Load filename (Some (hb ++ body)) genlist None err = Aborted UndefinedBehaviour)
  /\ (0 < num_frames (decode_JoeHeader hb) -> num_faces (decode_JoeHeader hb) < 0 ->
      Load filename (Some (hb ++ body)) genlist None err = Aborted LengthError).
Proof.
  intros Hlen Hv Hcap.
  assert (Hload : forall why,
             ReadData (decode_JoeHeader hb)
               {| file := body; err_output := err; m_mesh := VertexArray_clear |}
             = Aborted why ->
             Load filename (Some (hb ++ body)) genlist None err = Aborted why).
  { intros why Hr. rewrite Load_file, LoadFromHandle_header by exact Hlen. cbv zeta.
    rewrite Hv. change (negb (3 =? JOE_VERSION)) with false. cbv iota.
    assert (Hc : (JOE_MAX_FACES <? num_faces (decode_JoeHeader hb)) = false)
      by (apply Z.ltb_ge; unfold JOE_MAX_FACES; lia).
    rewrite Hc, Hr. reflexivity. }
  set (header := decode_JoeHeader hb) in *.
  split; [|split].
  - intros Hn. apply Hload.
    unfold ReadData, io_bind, read_object_frames, io_bind, lift, vector_size.
    apply Z.ltb_lt in Hn. rewrite Hn. reflexivity.
  - intros Hn. apply Hload.
    unfold ReadData, io_bind, read_object_frames, io_bind, lift, vector_size.
    rewrite Hn. cbn [Z.ltb Z.compare bind fst snd Z.to_nat read_frames io_ret].
    unfold weld_object, prepare_frames, scale_frames, modify_each, NeedsNormalSwap, for_range.
    cbn [info frames]. rewrite Hn. reflexivity.
  - intros Hn Hf. apply Hload.
    unfold ReadData, io_bind, read_object_frames, io_bind, lift, vector_size.
    destruct (Z.ltb_spec (num_frames header) 0) as [|_]; [lia|]. cbn [bind fst snd].
    destruct (Z.to_nat (num_frames header)) as [|n] eqn:E; [lia|].
    cbn [read_frames]. unfold io_bind, read_frame, io_bind, lift, vector_size.
    apply Z.ltb_lt in Hf. rewrite Hf. reflexivity.
Qed.

End Outcomes.

(** Every round of a loop that returns has returned. *)
Lemma for_loop_rounds {St : Type} (body : Z -> St -> outcome St) :
  forall (n : nat) (i : Z) (s s' : St),
    for_loop body i n s = Returned s' ->
    forall j, i <= j < i + Z.of_nat n -> exists t t', body j t = Returned t'.
Proof.
  induction n as [|n IH]; intros i s s' H j Hj; [lia|].
  cbn [for_loop] in H. apply bind_Returned in H as (t & Hb & H).
  destruct (Z.eq_dec j i) as [->|Hne].
  - exists s, t. exact Hb.
  - apply (IH (i + 1) t s' H). lia.
Qed.

Section Validation.

Context {MV : MathVector} {MB : ModelBase}.

Lemma corner_vectors_Returned (frame : JoeFrame) (face : JoeFace) (c : Z) :
  (exists r, corner_vectors frame face c = Returned r) <->
  (0 <= sel (vertexIndex face) c < num_verts frame
   /\ 0 <= sel (normalIndex face) c < num_normals frame
   /\ sel (vertexIndex face) c < Z.of_nat (length (verts frame))
   /\ sel (normalIndex face) c < Z.of_nat (length (normals frame))).
Proof.
  unfold corner_vectors. split.
  - intros (r & H).
    apply bind_Returned in H as ([] & Ha & H). apply assertion_Returned in Ha.
    apply bind_Returned in H as ([] & Hb & H). apply assertion_Returned in Hb.
    apply bind_Returned in H as (p & Hp & H). apply index_Returned in Hp as [Hp0 Hp].
    apply bind_Returned in H as (n & Hn & H). apply index_Returned in Hn as [Hn0 Hn].
    apply lookup_lt_Some in Hp, Hn. apply Z.ltb_lt in Ha, Hb. lia.
  - intros (Hv & Hn & Hlv & Hln).
    assert (H1 : (sel (vertexIndex face) c <? num_verts frame) = true) by (apply Z.ltb_lt; lia).
    assert (H2 : (sel (normalIndex face) c <? num_normals frame) = true) by (apply Z.ltb_lt; lia).
    rewrite H1, H2. cbn [assertion bind].
    destruct (index_in_range (verts frame) (sel (vertexIndex face) c)) as (p & ->); [lia|].
    destruct (index_in_range (normals frame) (sel (normalIndex face) c)) as (n & ->); [lia|].
    cbn [bind]. eexists. reflexivity.
Qed.

Lemma count_face_Returned (n_faces : Z) (frame : JoeFrame) (i : Z) :
  frame_shape n_faces frame -> 0 <= i < n_faces ->
  forall count,
    (exists count', count_face frame i count = Returned count') <->
    exists face, faces frame !! Z.to_nat i = Some face /\ face_geometry_in_range frame face.
Proof.
  intros ([_ Hf] & [_ Hv] & [_ Hn] & _) Hi count. unfold count_face.
  destruct (lookup_lt_is_Some_2 (faces frame) (Z.to_nat i)) as [face Hface]; [lia|].
  assert (Hix : index (faces frame) i = Returned face)
    by (apply index_Returned; split; [lia | exact Hface]).
  rewrite Hix. cbn [bind]. split.
  - intros (count' & H). exists face. split; [exact Hface|].
    apply bind_Returned in H as (c0 & H0 & H).
    apply bind_Returned in H as (c1 & H1 & H).
    apply bind_Returned in H as (c2 & H2 & H).
    intros c Hc. assert (Hcs : c = 0 \/ c = 1 \/ c = 2) by lia.
    destruct Hcs as [-> | [-> | ->]].
    + destruct (proj1 (corner_vectors_Returned frame face 0)) as (? & ? & _); eauto.
    + destruct (proj1 (corner_vectors_Returned frame face 1)) as (? & ? & _); eauto.
    + destruct (proj1 (corner_vectors_Returned frame face 2)) as (? & ? & _); eauto.
  - intros (face' & Hface' & Hrange). rewrite Hface in Hface'. inversion Hface'; subst face'.
    assert (Hc : forall c, 0 <= c < 3 -> exists r, corner_vectors frame face c = Returned r).
    { intros c Hc. apply corner_vectors_Returned. destruct (Hrange c Hc). lia. }
    destruct (Hc 0 ltac:(lia)) as (c0 & ->). cbn [bind].
    destruct (Hc 1 ltac:(lia)) as (c1 & ->). cbn [bind].
    destruct (Hc 2 ltac:(lia)) as (c2 & ->). cbn [bind].
    destruct (flip_vote _ _); eexists; reflexivity.
Qed.

(** When the heuristic returns, no assertion has failed: the vertex and
    normal indices of every face of every frame are in range. *)
Lemma NeedsNormalSwap_checks (header : JoeHeader) (fs : list JoeFrame) (flag : bool) :
  length fs = Z.to_nat (num_frames header) ->
  Forall (frame_shape (num_faces header)) fs ->
  NeedsNormalSwap {| info := header; frames := fs |} = Returned flag ->
  Forall geometry_in_range fs.
Proof.
  intros Hlen Hshape H. unfold NeedsNormalSwap, for_range in H. cbn [info frames] in H.
  apply Forall_lookup. intros f frame Hframe face Hface.
  apply list_elem_of_lookup_1 in Hface as [i Hface].
  assert (Hf : (f < length fs)%nat) by (apply lookup_lt_Some in Hframe; exact Hframe).
  destruct (for_loop_rounds _ _ _ _ _ H (Z.of_nat f)) as (t & t' & Hround); [lia|].
  apply bind_Returned in Hround as (frame' & Hix & Hround).
  apply index_Returned in Hix as [_ Hix]. rewrite Nat2Z.id, Hframe in Hix.
  inversion Hix; subst frame'.
  apply bind_Returned in Hround as (count & Hcount & _).
  assert (Hs : frame_shape (num_faces header) frame).
  { rewrite Forall_forall in Hshape. apply Hshape. eapply list_elem_of_lookup_2; eauto. }
  assert (Hi : (i < length (faces frame))%nat) by (apply lookup_lt_Some in Hface; exact Hface).
  destruct Hs as ([Hnf Hlf] & Hrest).
  destruct (for_loop_rounds _ _ _ _ _ Hcount (Z.of_nat i)) as (c & c' & Hc); [lia|].
  destruct (proj1 (count_face_Returned (num_faces header) frame (Z.of_nat i)
                     (conj (conj Hnf Hlf) Hrest) ltac:(lia) c)) as (face' & Hface' & Hr);
    [eauto|].
  rewrite Nat2Z.id, Hface in Hface'. inversion Hface'; subst face'. exact Hr.
Qed.

(** With the vertex and normal indices in range the heuristic returns,
    whatever the texture indices are. *)
Lemma NeedsNormalSwap_returns_on_geometry (header : JoeHeader) (fs : list JoeFrame) :
  length fs = Z.to_nat (num_frames header) ->
  Forall (frame_shape (num_faces header)) fs ->
  Forall geometry_in_range fs ->
  exists flag, NeedsNormalSwap {| info := header; frames := fs |} = Returned flag.
Proof.
  intros Hlen Hshape Hrange. unfold NeedsNormalSwap, for_range. cbn [info frames].
  destruct (for_loop_returns (fun _ (_ : bool) => True)
              (fun f need_normal_flip =>
                 frame <- index fs f ;;
                 normal_flip_count <- for_loop (count_face frame) 0
                                               (Z.to_nat (num_faces header)) 0 ;;
                 if Z.quot (num_faces header) 4 <? normal_flip_count
                 then Returned true else Returned need_normal_flip)
              (Z.to_nat (num_frames header)) 0 false) as (flag & Hrun & _).
  - intros f flag Hf _.
    destruct (index_in_range fs f) as (frame & Hframe); [lia|].
    rewrite Hframe. cbn [bind]. apply index_Returned in Hframe as [_ Hframe].
    apply list_elem_of_lookup_2 in Hframe.
    rewrite Forall_forall in Hshape, Hrange.
    destruct (for_loop_returns (fun _ (_ : Z) => True) (count_face frame)
                (Z.to_nat (num_faces header)) 0 0) as (count & -> & _).
    + intros i count Hi _.
      pose proof (Hshape frame Hframe) as Hs.
      destruct (proj2 (count_face_Returned (num_faces header) frame i Hs ltac:(lia) count))
        as (count' & ->).
      { destruct Hs as ([_ Hlf] & _).
        destruct (lookup_lt_is_Some_2 (faces frame) (Z.to_nat i)) as [face Hface]; [lia|].
        exists face. split; [exact Hface|].
        apply (Hrange frame Hframe). eapply list_elem_of_lookup_2; eauto. }
      exists count'. auto.
    + exact I.
    + cbn [bind]. destruct (_ <? _); eexists; split; [reflexivity | exact I | reflexivity | exact I].
  - exact I.
  - exists flag. exact Hrun.
Qed.

(** The heuristic is the loader's check of the vertex and normal indices:
    on frames with the shape of the reading loop it returns if and only if
    these indices are in range in every face of every frame.  Texture
    indices play no part. *)
Theorem heuristic_returns_iff_geometry_in_range (header : JoeHeader) (fs : list JoeFrame) :
  length fs = Z.to_nat (num_frames header) ->
  Forall (frame_shape (num_faces header)) fs ->
  (exists flag, NeedsNormalSwap {| info := header; frames := fs |} = Returned flag)
  <-> Forall geometry_in_range fs.
Proof.
  intros Hlen Hshape. split.
  - intros (flag & H). exact (NeedsNormalSwap_checks header fs flag Hlen Hshape H).
  - apply NeedsNormalSwap_returns_on_geometry; assumption.
Qed.

End Validation.

Lemma corner_position (i c i' c' : Z) :
  0 <= c < 3 -> 0 <= c' < 3 -> i' * 3 + c' = i * 3 + c -> i' = i /\ c' = c.
Proof. lia. Qed.

Lemma entry_eq (e1 e2 : VertEntry) :
  original_index e1 = original_index e2 -> norm_index e1 = norm_index e2 ->
  tex_index e1 = tex_index e2 -> e1 = e2.
Proof. destruct e1, e2; cbn; intros -> -> ->; reflexivity. Qed.

(** The welding of one corner keeps what the earlier corners were given
    and gives the corner an entry of its own attributes. *)
Lemma weld_corner_keeps (nv : nat) (face : JoeFace) (i c : Z)
      (vm vm' : list VertEntry) (vf vf' : list Z) :
  0 <= c < 3 ->
  table_layout nv vm ->
  sel (vertexIndex face) c < Z.of_nat nv ->
  Z.of_nat (length vm) < 2 ^ 31 ->
  weld_corner face i c (vm, vf) = Returned (vm', vf') ->
  (exists k, 0 <= k /\ vf' !! Z.to_nat (i * 3 + c) = Some k
             /\ vm' !! Z.to_nat k = Some (corner_entry face c))
  /\ forall (p : nat) (k : Z) (e : VertEntry),
      p <> Z.to_nat (i * 3 + c) -> 0 <= k -> populated e ->
      vf !! p = Some k -> vm !! Z.to_nat k = Some e ->
      vf' !! p = Some k /\ vm' !! Z.to_nat k = Some e.
Proof.
  intros Hc [Hnv Hslots] Hlow Hsize H.
  apply weld_corner_Returned in H as (ve & [Hvi Hve] & Hpos & Hti & Hcase).
  set (ce := corner_entry face c) in *.
  assert (Hvlen : (Z.to_nat (original_index ce) < length vm)%nat)
    by (apply lookup_lt_Some in Hve; exact Hve).
  destruct Hcase as [(He & -> & ->) | [(He & Hn & Ht & -> & ->) | (He & Hd & -> & ->)]].
  - split.
    + exists (original_index ce). split; [exact Hvi|]. split.
      * apply list_lookup_insert_eq. lia.
      * apply list_lookup_insert_eq. exact Hvlen.
    + intros p k e Hp Hk Hpop Hvf Hvm. split.
      * rewrite list_lookup_insert_ne by congruence. exact Hvf.
      * rewrite list_lookup_insert_ne; [exact Hvm|].
        intros Heq. rewrite Heq, Hvm in Hve. inversion Hve; subst ve.
        unfold populated in Hpop. lia.
  - split.
    + exists (original_index ce). split; [exact Hvi|]. split.
      * apply list_lookup_insert_eq. lia.
      * rewrite Hve. f_equal. apply entry_eq; [|exact Hn | exact Ht].
        destruct (Hslots _ _ Hve) as [Hl _].
        assert (Hslot : (Z.to_nat (original_index ce) < nv)%nat)
          by (subst ce; cbn [corner_entry original_index] in *; lia).
        destruct (Hl Hslot) as [?|Ho]; [contradiction | lia].
    + intros p k e Hp Hk Hpop Hvf Hvm. split; [|exact Hvm].
      rewrite list_lookup_insert_ne by congruence. exact Hvf.
  - split.
    + exists (Z.of_nat (length vm)). split; [lia|]. split.
      * rewrite to_int_exact by lia. apply list_lookup_insert_eq. lia.
      * rewrite Nat2Z.id. apply list_lookup_middle. reflexivity.
    + intros p k e Hp Hk Hpop Hvf Hvm. split.
      * rewrite list_lookup_insert_ne by congruence. exact Hvf.
      * apply lookup_app_l_Some. exact Hvm.
Qed.

(** The index written for a corner is the position of an entry of the
    corner's own attributes. *)
Lemma build_unique_vertices_corners
      (frame : JoeFrame) (n : Z) (vm : list VertEntry) (vf : list Z) :
  build_unique_vertices frame n = Returned (vm, vf) ->
  vertices_below_count frame ->
  Z.of_nat (length vm) < 2 ^ 31 ->
  forall (i c : Z) (face : JoeFace),
    0 <= i < n -> 0 <= c < 3 -> faces frame !! Z.to_nat i = Some face ->
    exists k : Z,
      0 <= k
      /\ vf !! Z.to_nat (i * 3 + c) = Some k
      /\ vm !! Z.to_nat k = Some (corner_entry face c)
      /\ populated (corner_entry face c).
Proof.
  intros Hrun Hbelow Hsize.
  apply (build_unique_vertices_invariant
           (fun pos st =>
              table_layout (Z.to_nat (num_verts frame)) (fst st)
              /\ (Z.of_nat (length (fst st)) < 2 ^ 31 ->
                  forall (i c : Z) (face : JoeFace),
                    0 <= i -> 0 <= c < 3 -> i * 3 + c < pos ->
                    faces frame !! Z.to_nat i = Some face ->
                    exists k : Z,
                      0 <= k
                      /\ snd st !! Z.to_nat (i * 3 + c) = Some k
                      /\ fst st !! Z.to_nat k = Some (corner_entry face c)
                      /\ populated (corner_entry face c)))) in Hrun.
  - destruct Hrun as [_ [_ Hall]]. cbn [fst snd] in Hall.
    intros i c face Hi Hc Hface. apply (Hall Hsize i c face); try lia. exact Hface.
  - cbn [fst snd]. split; [apply replicate_layout|]. intros _ i c face Hi Hc Hpos. lia.
  - intros face i c [vm0 vf0] [vm1 vf1] Hface Hi Hc [Hlayout Hall] Hstep. cbn [fst snd] in *.
    split; [exact (weld_corner_layout _ _ _ _ _ _ _ _ Hlayout Hstep)|].
    intros Hsize1.
    assert (Hsize0 : Z.of_nat (length vm0) < 2 ^ 31).
    { apply weld_corner_sizes in Hstep as [_ Hl]. lia. }
    assert (Hlow : sel (vertexIndex face) c < Z.of_nat (Z.to_nat (num_verts frame))).
    { apply list_elem_of_lookup_2 in Hface. specialize (Hbelow face c Hface Hc).
      apply weld_corner_Returned in Hstep as (ve & [Hvi _] & _).
      cbn [corner_entry original_index] in Hvi. lia. }
    pose proof Hstep as Hret.
    apply weld_corner_Returned in Hret as (_ & [Hvi _] & _).
    destruct (weld_corner_keeps _ _ _ _ _ _ _ _ Hc Hlayout Hlow Hsize0 Hstep)
      as [(k & Hk & Hvf & Hvm) Hkeep].
    intros i' c' face' Hi' Hc' Hpos Hface'.
    destruct (Z.eq_dec (i' * 3 + c') (i * 3 + c)) as [Heq|Hne].
    + destruct (corner_position i c i' c' Hc Hc' Heq) as [-> ->].
      rewrite Hface in Hface'. inversion Hface'; subst face'.
      exists k. unfold populated. auto.
    + destruct (Hall Hsize0 i' c' face' Hi' Hc' ltac:(lia) Hface') as (k' & Hk' & Hvf' & Hvm' & Hp).
      destruct (Hkeep (Z.to_nat (i' * 3 + c')) k' _ ltac:(lia) Hk' Hp Hvf' Hvm') as [? ?].
      exists k'. auto.
Qed.

(** Welding keeps the attributes of every corner: the index written for
    corner [c] of face [i] is the position of a table entry that holds the
    corner's own vertex, normal and texture index. *)
Theorem welded_corner_keeps_its_attributes
        (frame : JoeFrame) (n : Z) (vm : list VertEntry) (vf : list Z)
        (i c : Z) (face : JoeFace) :
  build_unique_vertices frame n = Returned (vm, vf) ->
  vertices_below_count frame ->
  Z.of_nat (length vm) < 2 ^ 31 ->
  0 <= i < n -> 0 <= c < 3 -> faces frame !! Z.to_nat i = Some face ->
  exists k : Z,
    0 <= k
    /\ vf !! Z.to_nat (i * 3 + c) = Some k
    /\ vm !! Z.to_nat k = Some (corner_entry face c).
Proof.
  intros Hrun Hbelow Hsize Hi Hc Hface.
  destruct (build_unique_vertices_corners frame n vm vf Hrun Hbelow Hsize i c face Hi Hc Hface)
    as (k & Hk & Hvf & Hvm & _).
  exists k. auto.
Qed.

(** The sizes of what the welder returns. *)
Lemma build_unique_vertices_sizes (frame : JoeFrame) (n : Z) (vm : list VertEntry) (vf : list Z) :
  build_unique_vertices frame n = Returned (vm, vf) ->
  0 <= n /\ 0 <= num_verts frame
  /\ Z.of_nat (length vf) = n * 3
  /\ num_verts frame <= Z.of_nat (length vm) <= num_verts frame + n * 3.
Proof.
  intros Hrun.
  apply (build_unique_vertices_invariant
           (fun pos st =>
              length (snd st) = Z.to_nat (n * 3)
              /\ Z.of_nat (Z.to_nat (num_verts frame)) <= Z.of_nat (length (fst st))
                 <= Z.of_nat (Z.to_nat (num_verts frame)) + pos)) in Hrun.
  - destruct Hrun as [[Hnv Hn] [Hvf Hvm]]. cbn [fst snd] in *. lia.
  - cbn [fst snd]. rewrite !length_replicate. lia.
  - intros face i c [vm0 vf0] [vm1 vf1] _ _ _ [Hvf Hvm] Hstep. cbn [fst snd] in *.
    apply weld_corner_sizes in Hstep as [Hl1 Hl2]. lia.
Qed.

(** The welder's result: three indices per face, and a table that holds
    the source vertices and at most one more entry per corner. *)
Theorem welded_table_sizes (frame : JoeFrame) (n : Z) (vm : list VertEntry) (vf : list Z) :
  build_unique_vertices frame n = Returned (vm, vf) ->
  Z.of_nat (length vf) = 3 * n
  /\ num_verts frame <= Z.of_nat (length vm) <= num_verts frame + 3 * n.
Proof.
  intros Hrun. apply build_unique_vertices_sizes in Hrun. lia.
Qed.

(** The welder's own checks: when it returns, every corner of the faces it
    has welded has a vertex index inside the table and a texture index
    that is not negative. *)
Lemma build_unique_vertices_checks
      (frame : JoeFrame) (n : Z) (vm : list VertEntry) (vf : list Z) :
  build_unique_vertices frame n = Returned (vm, vf) ->
  forall (i c : Z) (face : JoeFace),
    0 <= i < n -> 0 <= c < 3 -> faces frame !! Z.to_nat i = Some face ->
    0 <= sel (vertexIndex face) c < Z.of_nat (length vm)
    /\ 0 <= sel (textureIndex face) c.
Proof.
  intros Hrun.
  apply (build_unique_vertices_invariant
           (fun pos st =>
              forall (i c : Z) (face : JoeFace),
                0 <= i -> 0 <= c < 3 -> i * 3 + c < pos ->
                faces frame !! Z.to_nat i = Some face ->
                0 <= sel (vertexIndex face) c < Z.of_nat (length (fst st))
                /\ 0 <= sel (textureIndex face) c)) in Hrun.
  - destruct Hrun as [_ Hall]. cbn [fst] in Hall.
    intros i c face Hi Hc Hface. apply (Hall i c face); try lia. exact Hface.
  - intros i c face Hi Hc Hpos. lia.
  - intros face i c [vm0 vf0] [vm1 vf1] Hface Hi Hc Hall Hstep. cbn [fst snd] in *.
    pose proof (weld_corner_sizes _ _ _ _ _ _ _ Hstep) as [_ Hl].
    apply weld_corner_Returned in Hstep as (ve & [Hvi Hve] & _ & Hti & _).
    apply lookup_lt_Some in Hve. cbn [corner_entry original_index tex_index] in *.
    intros i' c' face' Hi' Hc' Hpos Hface'.
    destruct (Z.eq_dec (i' * 3 + c') (i * 3 + c)) as [Heq|Hne].
    + destruct (corner_position i c i' c' Hc Hc' Heq) as [-> ->].
      rewrite Hface in Hface'. inversion Hface'; subst face'. lia.
    + destruct (Hall i' c' face' Hi' Hc' ltac:(lia) Hface'). lia.
Qed.

Lemma store3_value (a a' : list Float.float) (i : Z) (x : triple Float.float) :
  0 <= i ->
  store3 a i x = Returned a' ->
  i * 3 + 2 < Z.of_nat (length a) /\ a' = put3 a i x.
Proof.
  intros Hi H. unfold store3 in H. rewrite for_range_3 in H.
  apply bind_Returned in H as (a1 & H0 & H).
  apply bind_Returned in H as (a2 & H1 & H).
  apply bind_Returned in H as (a3 & H2 & H). inversion H; subst a3.
  apply bind_Returned in H0 as (k0 & Hk0 & H0). apply int_result_Returned in Hk0 as [-> _].
  apply bind_Returned in H1 as (k1 & Hk1 & H1). apply int_result_Returned in Hk1 as [-> _].
  apply bind_Returned in H2 as (k2 & Hk2 & H2). apply int_result_Returned in Hk2 as [-> _].
  apply store_Returned in H0 as [_ ->]. apply store_Returned in H1 as [_ ->].
  apply store_Returned in H2 as [Hr ->].
  rewrite !length_insert in Hr. split; [lia|].
  unfold put3. rewrite Z.add_0_r. reflexivity.
Qed.

Lemma put3_holds (a : list Float.float) (i : Z) (x : triple Float.float) :
  0 <= i -> i * 3 + 2 < Z.of_nat (length a) -> holds3 (put3 a i x) i x.
Proof.
  intros Hi Hlen d Hd. unfold put3.
  assert (Hds : d = 0 \/ d = 1 \/ d = 2) by lia.
  destruct Hds as [-> | [-> | ->]].
  - rewrite !list_lookup_insert_ne by lia. rewrite Z.add_0_r.
    apply list_lookup_insert_eq. lia.
  - rewrite list_lookup_insert_ne by lia. apply list_lookup_insert_eq.
    rewrite length_insert. lia.
  - apply list_lookup_insert_eq. rewrite !length_insert. lia.
Qed.

Lemma put3_elsewhere (a : list Float.float) (i : Z) (x : triple Float.float) (q : nat) :
  0 <= i -> ~ (i * 3 <= Z.of_nat q < i * 3 + 3) -> put3 a i x !! q = a !! q.
Proof.
  intros Hi Hq. unfold put3. rewrite !list_lookup_insert_ne by lia. reflexivity.
Qed.

(** What the body of the filling loop does to positions and normals. *)
Lemma fill_entry_value (frame : JoeFrame) (i : Z) (e : VertEntry) (out out' : FlatArrays) :
  0 <= i ->
  fill_entry frame i e out = Returned out' ->
  exists p n,
    verts frame !! Z.to_nat (original_index e) = Some p
    /\ normals frame !! Z.to_nat (norm_index e) = Some n
    /\ i * 3 + 2 < Z.of_nat (length (v_vertices out))
    /\ i * 3 + 2 < Z.of_nat (length (v_normals out))
    /\ v_vertices out' = put3 (v_vertices out) i (vertex p)
    /\ v_normals out' = put3 (v_normals out) i (vertex n).
Proof.
  intros Hi H. unfold fill_entry in H.
  apply bind_Returned in H as (p & Hp & H). apply index_Returned in Hp as [_ Hp].
  apply bind_Returned in H as (vs & Hvs & H). apply store3_value in Hvs as [Hlv ->]; [|exact Hi].
  apply bind_Returned in H as (n & Hn & H). apply index_Returned in Hn as [_ Hn].
  apply bind_Returned in H as (ns & Hns & H). apply store3_value in Hns as [Hln ->]; [|exact Hi].
  apply bind_Returned in H as (ts & _ & H). inversion H; subst out'.
  exists p, n. cbn [v_vertices v_normals]. auto 10.
Qed.

(** The loop from position [i] on writes the slots of the populated
    entries it meets and no other position of the three arrays. *)
Lemma fill_loop_elsewhere (frame : JoeFrame) (nv : Z) :
  forall (entries : list VertEntry) (i : Z) (out out' : FlatArrays),
    0 <= i ->
    fill_loop frame nv i entries out = Returned out' ->
    forall (q : nat) (m : Z),
      (m = 3 \/ m = 2) ->
      (forall (k : nat) (e : VertEntry),
          entries !! k = Some e -> populated e ->
          ~ ((i + Z.of_nat k) * m <= Z.of_nat q < (i + Z.of_nat k) * m + m)) ->
      (m = 3 -> v_vertices out' !! q = v_vertices out !! q
                /\ v_normals out' !! q = v_normals out !! q)
      /\ (m = 2 -> v_texcoords out' !! q = v_texcoords out !! q).
Proof.
  induction entries as [|e rest IH]; intros i out out' Hi H q m Hm Hfree; simpl in H.
  - destruct (Float.of_int i <? nv); [discriminate|]. inversion H; subst out'. auto.
  - destruct (Float.of_int i <? nv); [|inversion H; subst out'; auto].
    apply bind_Returned in H as (out1 & Hentry & H).
    apply bind_Returned in H as (i' & Hi' & H). apply int_result_Returned in Hi' as [-> _].
    destruct (IH (i + 1) out1 out' ltac:(lia) H q m Hm) as [IH3 IH2].
    { intros k e0 Hk Hpop. specialize (Hfree (S k) e0 Hk Hpop). lia. }
    destruct (Z.leb_spec 0 (original_index e)) as [Hpop|Hpop].
    + specialize (Hfree 0%nat e eq_refl Hpop). rewrite Z.add_0_r in Hfree.
      destruct (fill_entry_value _ _ _ _ _ Hi Hentry) as (p & n & _ & _ & _ & _ & Hv & Hn).
      destruct (fill_entry_texcoords _ _ _ _ _ Hi Hentry) as (x & y & _ & _ & Ht).
      split.
      * intros ->. destruct (IH3 eq_refl) as [-> ->]. rewrite Hv, Hn.
        rewrite !put3_elsewhere by (try exact Hi; lia). auto.
      * intros ->. rewrite (IH2 eq_refl), Ht.
        rewrite !list_lookup_insert_ne by lia. reflexivity.
    + inversion Hentry; subst out1. auto.
Qed.

(** The slot of a populated entry that the loop reaches holds the position
    and the normal that the entry names. *)
Lemma fill_loop_positions (frame : JoeFrame) (nv : Z) :
  forall (entries : list VertEntry) (i : Z) (out out' : FlatArrays),
    0 <= i ->
    fill_loop frame nv i entries out = Returned out' ->
    forall (k : nat) (e : VertEntry),
      entries !! k = Some e -> populated e ->
      (forall j, i <= j <= i + Z.of_nat k -> Float.of_int j < nv) ->
      exists p n,
        verts frame !! Z.to_nat (original_index e) = Some p
        /\ normals frame !! Z.to_nat (norm_index e) = Some n
        /\ holds3 (v_vertices out') (i + Z.of_nat k) (vertex p)
        /\ holds3 (v_normals out') (i + Z.of_nat k) (vertex n).
Proof.
  induction entries as [|e rest IH]; intros i out out' Hi H k e0 Hk Hpop Hreach; simpl in H.
  - rewrite lookup_nil in Hk. discriminate.
  - destruct (Z.ltb_spec (Float.of_int i) nv) as [Hcond|Hcond].
    2:{ specialize (Hreach i). lia. }
    apply bind_Returned in H as (out1 & Hentry & H).
    apply bind_Returned in H as (i' & Hi' & H). apply int_result_Returned in Hi' as [-> _].
    destruct k as [|k].
    + cbn in Hk. inversion Hk; subst e0. unfold populated in Hpop.
      pose proof Hpop as Hpop'. apply Z.leb_le in Hpop'. rewrite Hpop' in Hentry.
      destruct (fill_entry_value _ _ _ _ _ Hi Hentry) as (p & n & Hp & Hn & Hlv & Hln & Hv & Hno).
      exists p, n. split; [exact Hp|]. split; [exact Hn|].
      rewrite Z.add_0_r.
      assert (Hrest : forall q : nat, Z.of_nat q < (i + 1) * 3 ->
                        v_vertices out' !! q = v_vertices out1 !! q
                        /\ v_normals out' !! q = v_normals out1 !! q).
      { intros q Hq.
        apply (fill_loop_elsewhere frame nv rest (i + 1) out1 out' ltac:(lia) H q 3);
          [left; reflexivity | | reflexivity].
        intros k e1 _ _. lia. }
      split; intros d Hd.
      * rewrite (proj1 (Hrest (Z.to_nat (i * 3 + d)) ltac:(lia))), Hv.
        apply put3_holds; [exact Hi | exact Hlv | exact Hd].
      * rewrite (proj2 (Hrest (Z.to_nat (i * 3 + d)) ltac:(lia))), Hno.
        apply put3_holds; [exact Hi | exact Hln | exact Hd].
    + cbn in Hk.
      destruct (IH (i + 1) out1 out' ltac:(lia) H k e0 Hk Hpop) as (p & n & Hp & Hn & Hv & Hno).
      { intros j Hj. apply Hreach. lia. }
      exists p, n. replace (i + Z.of_nat (S k)) with (i + 1 + Z.of_nat k) by lia. auto.
Qed.

Lemma fill_arrays_entries (frame : JoeFrame) (vm : list VertEntry) (out : FlatArrays)
      (k : nat) (e : VertEntry) :
  fill_arrays frame vm = Returned out ->
  vm !! k = Some e -> populated e -> reached (length vm) k ->
  exists p n x y,
    verts frame !! Z.to_nat (original_index e) = Some p
    /\ normals frame !! Z.to_nat (norm_index e) = Some n
    /\ texcoord_for frame e = Some (x, y)
    /\ holds3 (v_vertices out) (Z.of_nat k) (vertex p)
    /\ holds3 (v_normals out) (Z.of_nat k) (vertex n)
    /\ v_texcoords out !! Z.to_nat (Z.of_nat k * 2) = Some x
    /\ v_texcoords out !! Z.to_nat (Z.of_nat k * 2 + 1) = Some y.
Proof.
  intros Hrun Hk Hpop Hreach. unfold fill_arrays in Hrun.
  destruct (fill_loop_positions _ _ _ 0 _ _ (Z.le_refl 0) Hrun k e Hk Hpop)
    as (p & n & Hp & Hn & Hv & Hno).
  { intros j Hj. apply Hreach. lia. }
  apply fill_loop_texcoords in Hrun as [_ Hval]; [|lia].
  destruct (Hval k e Hk Hpop) as (x & y & Hxy & Hx & Hy).
  { intros j Hj. apply Hreach. lia. }
  exists p, n, x, y. rewrite !Z.add_0_l in *. auto 10.
Qed.

(** In the flat arrays of a table of fewer than 2^24 entries the slot of
    every populated entry holds the position and the normal that the
    entry names in the frame, and the texture coordinates of its texture
    index (or zeros). *)
Theorem flat_arrays_hold_the_entries (frame : JoeFrame) (vm : list VertEntry)
        (out : FlatArrays) (k : nat) (e : VertEntry) :
  fill_arrays frame vm = Returned out ->
  Z.of_nat (length vm) < 2 ^ 24 ->
  vm !! k = Some e -> populated e ->
  exists p n uv,
    verts frame !! Z.to_nat (original_index e) = Some p
    /\ normals frame !! Z.to_nat (norm_index e) = Some n
    /\ texcoord_for frame e = Some uv
    /\ holds3 (v_vertices out) (Z.of_nat k) (vertex p)
    /\ holds3 (v_normals out) (Z.of_nat k) (vertex n)
    /\ v_texcoords out !! (2 * k)%nat = Some (fst uv)
    /\ v_texcoords out !! (2 * k + 1)%nat = Some (snd uv).
Proof.
  intros Hrun Hsize Hk Hpop.
  destruct (fill_arrays_entries frame vm out k e Hrun Hk Hpop)
    as (p & n & x & y & Hp & Hn & Hxy & Hv & Hno & Hx & Hy).
  { apply reached_below_2_24; [exact Hsize | apply lookup_lt_Some in Hk; exact Hk]. }
  exists p, n, (x, y). cbn [fst snd].
  replace (Z.to_nat (Z.of_nat k * 2)) with (2 * k)%nat in Hx by lia.
  replace (Z.to_nat (Z.of_nat k * 2 + 1)) with (2 * k + 1)%nat in Hy by lia.
  auto 10.
Qed.

(** The slot of an entry that no corner has populated (a source vertex
    that no face uses) is never written: in the flat arrays of a table of
    fewer than 2^24 / 3 entries it holds the zeros of the allocation. *)
Theorem unused_slots_stay_zero (frame : JoeFrame) (vm : list VertEntry)
        (out : FlatArrays) (k : nat) (e : VertEntry) :
  fill_arrays frame vm = Returned out ->
  Z.of_nat (length vm) * 3 < 2 ^ 24 ->
  vm !! k = Some e -> original_index e < 0 ->
  holds3 (v_vertices out) (Z.of_nat k) (Float.zero, Float.zero, Float.zero)
  /\ holds3 (v_normals out) (Z.of_nat k) (Float.zero, Float.zero, Float.zero)
  /\ v_texcoords out !! (2 * k)%nat = Some Float.zero
  /\ v_texcoords out !! (2 * k + 1)%nat = Some Float.zero.
Proof.
  intros Hrun Hsize Hk He. unfold fill_arrays in Hrun.
  rewrite of_int_exact in Hrun by lia. unfold Float.mul_int in Hrun.
  rewrite !of_int_exact in Hrun by lia.
  pose proof (lookup_lt_Some _ _ _ Hk) as Hlt.
  assert (Hfree : forall (q : nat) (m : Z), (m = 3 \/ m = 2) ->
            Z.of_nat k * m <= Z.of_nat q < Z.of_nat k * m + m ->
            forall (k' : nat) (e' : VertEntry),
              vm !! k' = Some e' -> populated e' ->
              ~ ((0 + Z.of_nat k') * m <= Z.of_nat q < (0 + Z.of_nat k') * m + m)).
  { intros q m Hm Hq k' e' Hk' Hpop Hin.
    assert (k' = k) by nia. subst k'. rewrite Hk in Hk'. inversion Hk'; subst e'.
    unfold populated in Hpop. lia. }
  assert (Hthree : forall (q : nat),
            Z.of_nat k * 3 <= Z.of_nat q < Z.of_nat k * 3 + 3 ->
            v_vertices out !! q = Some Float.zero /\ v_normals out !! q = Some Float.zero).
  { intros q Hq.
    destruct (fill_loop_elsewhere _ _ _ 0 _ _ (Z.le_refl 0) Hrun q 3 ltac:(auto)
                (Hfree q 3 ltac:(auto) Hq)) as [H3 _].
    destruct (H3 eq_refl) as [-> ->]. cbn [v_vertices v_normals].
    split; apply lookup_replicate_2; lia. }
  assert (Htwo : forall (q : nat),
            Z.of_nat k * 2 <= Z.of_nat q < Z.of_nat k * 2 + 2 ->
            v_texcoords out !! q = Some Float.zero).
  { intros q Hq.
    destruct (fill_loop_elsewhere _ _ _ 0 _ _ (Z.le_refl 0) Hrun q 2 ltac:(auto)
                (Hfree q 2 ltac:(auto) Hq)) as [_ H2].
    rewrite (H2 eq_refl). cbn [v_texcoords]. apply lookup_replicate_2. lia. }
  split; [|split; [|split]].
  - intros d Hd. destruct (Hthree (Z.to_nat (Z.of_nat k * 3 + d)) ltac:(lia)) as [-> _].
    f_equal. unfold sel. destruct (d =? 0); [reflexivity|]. destruct (d =? 1); reflexivity.
  - intros d Hd. destruct (Hthree (Z.to_nat (Z.of_nat k * 3 + d)) ltac:(lia)) as [_ ->].
    f_equal. unfold sel. destruct (d =? 0); [reflexivity|]. destruct (d =? 1); reflexivity.
  - apply Htwo. lia.
  - apply Htwo. lia.
Qed.

Lemma for_loop_ext {St : Type} (body body' : Z -> St -> outcome St) :
  (forall i s, body i s = body' i s) ->
  forall (n : nat) (i : Z) (s : St), for_loop body i n s = for_loop body' i n s.
Proof.
  intros Hext. induction n as [|n IH]; intros i s; cbn [for_loop]; [reflexivity|].
  rewrite Hext. destruct (body' i s) as [t|why]; cbn [bind]; [apply IH | reflexivity].
Qed.

(** The welder looks at the faces and the vertex count of the frame and at
    nothing else of it. *)
Lemma build_unique_vertices_topology (f f' : JoeFrame) (n : Z) :
  faces f' = faces f -> num_verts f' = num_verts f ->
  build_unique_vertices f' n = build_unique_vertices f n.
Proof.
  intros Hfaces Hnv. unfold build_unique_vertices. rewrite Hnv.
  destruct (vector_size (num_verts f)) as [sm|]; [|reflexivity]. cbn [bind].
  destruct (int_result (num_verts f * 2)) as [x|]; [|reflexivity]. cbn [bind].
  destruct (int_result (n * 3)) as [n3|]; [|reflexivity]. cbn [bind].
  destruct (vector_size n3) as [sf|]; [|reflexivity]. cbn [bind].
  unfold for_range. apply for_loop_ext. intros i s. unfold weld_face. rewrite Hfaces.
  reflexivity.
Qed.

Section Corners.

Context {MV : MathVector} {MB : ModelBase}.

Lemma prepared_lookup (flag : bool) (fs : list JoeFrame) (k : nat) :
  prepared flag fs !! k = prepared_frame flag <$> (fs !! k).
Proof.
  unfold prepared, prepared_frame, scaled.
  destruct flag; rewrite ?list_lookup_fmap; destruct (fs !! k); reflexivity.
Qed.

Lemma prepared_frame_parts (flag : bool) (f : JoeFrame) :
  faces (prepared_frame flag f) = faces f
  /\ num_verts (prepared_frame flag f) = num_verts f
  /\ num_normals (prepared_frame flag f) = num_normals f
  /\ num_texcoords (prepared_frame flag f) = num_texcoords f
  /\ verts (prepared_frame flag f) = map scale_vertex (verts f)
  /\ normals (prepared_frame flag f)
     = (if flag then map corrected (normals f) else normals f)
  /\ texcoords (prepared_frame flag f) = texcoords f.
Proof. unfold prepared_frame. destruct flag; cbn; auto 10. Qed.

(** From the steps of a load to the corners of the welded mesh. *)
Lemma welds_corners (header : JoeHeader) (fs : list JoeFrame) (flag : bool)
      (f0 : JoeFrame) (vm : list VertEntry) (vf : list Z) (arrays : FlatArrays) :
  welds header fs flag f0 vm vf arrays ->
  vertices_below_count f0 ->
  Z.of_nat (length vm) < 2 ^ 24 ->
  forall (i c : Z) (face : JoeFace),
    0 <= i < num_faces header -> 0 <= c < 3 -> faces f0 !! Z.to_nat i = Some face ->
    exists (k : Z) (p n : JoeVertex) (uv : Float.float * Float.float),
      vf !! Z.to_nat (i * 3 + c) = Some k /\ 0 <= k < Z.of_nat (length vm)
      /\ verts f0 !! Z.to_nat (sel (vertexIndex face) c) = Some p
      /\ normals f0 !! Z.to_nat (sel (normalIndex face) c) = Some n
      /\ texcoord_for f0 (corner_entry face c) = Some uv
      /\ mesh_vertex_is (mesh_of vf arrays) k (vertex p) (vertex n) uv.
Proof.
  intros (_ & _ & Hbuilt & Hfill) Hbelow Hsize i c face Hi Hc Hface.
  destruct (build_unique_vertices_corners f0 (num_faces header) vm vf Hbuilt Hbelow
              ltac:(lia) i c face Hi Hc Hface) as (k & Hk & Hvf & Hvm & Hpop).
  pose proof (lookup_lt_Some _ _ _ Hvm) as Hklt.
  destruct (fill_arrays_entries f0 vm arrays (Z.to_nat k) (corner_entry face c) Hfill Hvm Hpop)
    as (p & n & x & y & Hp & Hn & Hxy & Hv & Hno & Hx & Hy).
  { apply reached_below_2_24; [exact Hsize | exact Hklt]. }
  rewrite Z2Nat.id in Hv, Hno, Hx, Hy by exact Hk.
  exists k, p, n, (x, y). cbn [corner_entry original_index norm_index] in Hp, Hn.
  split; [exact Hvf|]. split; [lia|]. split; [exact Hp|]. split; [exact Hn|].
  split; [exact Hxy|].
  unfold mesh_vertex_is, mesh_of. cbn [mesh_vertices mesh_normals mesh_texcoords fst snd].
  split; [exact Hv|]. split; [exact Hno|]. exists (v_texcoords arrays). auto.
Qed.

(** The loaded mesh reproduces every corner of frame 0.  When [Load]
    returns true on a file whose frame 0 has fewer than 2^24 vertices and
    corners together, the index that the mesh holds for corner [c] of
    face [i] names a mesh vertex with the scaled position of the corner's
    vertex, the corner's normal (corrected when the object was flagged)
    and the corner's texture coordinates (zeros when the texture index is
    at or above the frame's count). *)
Theorem loaded_mesh_reproduces_every_corner
        (filename : string) (content : list byte) (genlist : bool) (err : string)
        (w : world) :
  Load filename (Some content) genlist None err = Returned (true, w) ->
  exists (hb body : list byte) (fs : list JoeFrame) (w1 : world) (flag : bool) (f0 : JoeFrame),
    content = hb ++ body /\ length hb = 16%nat
    /\ read_object_frames (decode_JoeHeader hb)
         {| file := body; err_output := err; m_mesh := VertexArray_clear |}
       = Returned (fs, w1)
    /\ NeedsNormalSwap {| info := decode_JoeHeader hb; frames := scaled fs |} = Returned flag
    /\ fs !! 0%nat = Some f0
    /\ (num_verts f0 + 3 * num_faces (decode_JoeHeader hb) < 2 ^ 24 ->
        forall (i c : Z) (face : JoeFace),
          0 <= i < num_faces (decode_JoeHeader hb) -> 0 <= c < 3 ->
          faces f0 !! Z.to_nat i = Some face ->
          exists (k : Z) (p n : JoeVertex) (uv : Float.float * Float.float),
            mesh_faces (m_mesh w) !! Z.to_nat (i * 3 + c) = Some k
            /\ verts f0 !! Z.to_nat (sel (vertexIndex face) c) = Some p
            /\ normals f0 !! Z.to_nat (sel (normalIndex face) c) = Some n
            /\ texcoord_for f0 (corner_entry face c) = Some uv
            /\ mesh_vertex_is (m_mesh w) k
                              (vertex (scale_vertex p))
                              (vertex (if flag then corrected n else n))
                              uv).
Proof.
  intros H.
  apply Load_Returned in H as [(Hd & _) | (hb & body & Hd & Hhb & Hcase)]; [discriminate|].
  injection Hd as ->.
  destruct Hcase as [(_ & Hv & _) | [(_ & _ & Hv & _) | (_ & _ & _ & Hok)]];
    [discriminate | discriminate |].
  destruct Hok as (fs & w1 & flag & f0' & vm & vf & arrays & Hread & Hwelds & ->).
  pose (header := decode_JoeHeader hb).
  destruct (read_object_frames_shape _ _ _ _ Hread) as (_ & Hlen & Hshape).
  pose proof Hwelds as (Hflag & Hf0' & Hbuilt & Hfill).
  rewrite prepared_lookup in Hf0'.
  destruct (fs !! 0%nat) as [f0|] eqn:Hf0; [|discriminate].
  cbn in Hf0'. inversion Hf0' as [Hf0'eq]. clear Hf0'.
  destruct (prepared_frame_parts flag f0) as (Pf & Pnv & Pnn & Pnt & Pv & Pn & Pt).
  rewrite Hf0'eq in Pf, Pnv, Pnn, Pnt, Pv, Pn, Pt.
  exists hb, body, fs, w1, flag, f0.
  split; [reflexivity|]. split; [exact Hhb|]. split; [exact Hread|].
  split; [exact Hflag|]. split; [first [exact Hf0 | reflexivity]|].
  intros Hsize i c face Hi Hc Hface.
  assert (Hbelow : vertices_below_count f0').
  { assert (Hchk : Forall geometry_in_range (scaled fs)).
    { apply (NeedsNormalSwap_checks header (scaled fs) flag).
      - unfold scaled. rewrite length_map. exact Hlen.
      - apply scaled_shape. exact Hshape.
      - exact Hflag. }
    destruct (scaled_topology fs 0 f0 Hf0) as (f1 & Hf1 & Hsame).
    rewrite Forall_lookup in Hchk. specialize (Hchk 0%nat f1 Hf1).
    destruct Hsame as (Sf & Snv & _).
    intros face' c' Hface' Hc'. rewrite Pf in Hface'. rewrite Pnv.
    rewrite <- Sf in Hface'. destruct (Hchk face' Hface' c' Hc') as [Hvi _]. lia. }
  assert (Hvm : Z.of_nat (length vm) < 2 ^ 24).
  { apply build_unique_vertices_sizes in Hbuilt. lia. }
  rewrite <- Pf in Hface.
  destruct (welds_corners header fs flag f0' vm vf arrays Hwelds Hbelow Hvm i c face Hi Hc Hface)
    as (k & p' & n' & uv & Hvf & Hk & Hp & Hn & Huv & Hmesh).
  rewrite Pv, list_lookup_fmap in Hp.
  destruct (verts f0 !! Z.to_nat (sel (vertexIndex face) c)) as [p|] eqn:Ep; [|discriminate].
  cbn in Hp. inversion Hp; subst p'.
  assert (Hn' : exists n, normals f0 !! Z.to_nat (sel (normalIndex face) c) = Some n
                          /\ n' = if flag then corrected n else n).
  { rewrite Pn in Hn. destruct flag.
    - rewrite list_lookup_fmap in Hn.
      destruct (normals f0 !! Z.to_nat (sel (normalIndex face) c)) as [n|]; [|discriminate].
      cbn in Hn. inversion Hn. exists n. auto.
    - exists n'. auto. }
  destruct Hn' as (n & En & ->).
  assert (Huv' : texcoord_for f0 (corner_entry face c) = Some uv).
  { unfold texcoord_for in *. rewrite Pnt, Pt in Huv. exact Huv. }
  exists k, p, n, uv. cbn [m_mesh]. auto 10.
Qed.

(** The index array of the mesh is what the welder makes of the faces and
    the vertex count of frame 0 as they were read: the scaling, the
    correction of the normals, the floats of the frame and the frames
    after the first do not enter it. *)
Theorem index_array_comes_from_frame_0_as_read
        (filename : string) (content : list byte) (genlist : bool) (err : string)
        (w : world) :
  Load filename (Some content) genlist None err = Returned (true, w) ->
  exists (hb body : list byte) (fs : list JoeFrame) (w1 : world) (f0 : JoeFrame)
         (vm : list VertEntry),
    content = hb ++ body /\ length hb = 16%nat
    /\ read_object_frames (decode_JoeHeader hb)
         {| file := body; err_output := err; m_mesh := VertexArray_clear |}
       = Returned (fs, w1)
    /\ fs !! 0%nat = Some f0
    /\ build_unique_vertices f0 (num_faces (decode_JoeHeader hb))
       = Returned (vm, mesh_faces (m_mesh w)).
Proof.
  intros H.
  apply Load_Returned in H as [(Hd & _) | (hb & body & Hd & Hhb & Hcase)]; [discriminate|].
  injection Hd as ->.
  destruct Hcase as [(_ & Hv & _) | [(_ & _ & Hv & _) | (_ & _ & _ & Hok)]];
    [discriminate | discriminate |].
  destruct Hok as (fs & w1 & flag & f0' & vm & vf & arrays & Hread & Hwelds & ->).
  destruct Hwelds as (_ & Hf0' & Hbuilt & _).
  rewrite prepared_lookup in Hf0'.
  destruct (fs !! 0%nat) as [f0|] eqn:Hf0; [|discriminate].
  cbn in Hf0'. inversion Hf0' as [Hf0'eq]. clear Hf0'.
  destruct (prepared_frame_parts flag f0) as (Pf & Pnv & _).
  rewrite Hf0'eq in Pf, Pnv.
  exists hb, body, fs, w1, f0, vm.
  split; [reflexivity|]. split; [exact Hhb|]. split; [exact Hread|].
  split; [first [exact Hf0 | reflexivity]|].
  cbn [m_mesh mesh_of mesh_faces].
  rewrite <- (build_unique_vertices_topology f0 f0' _ Pf Pnv). exact Hbuilt.
Qed.

End Corners.

Lemma neg_neg (x : Float.float) :
  0 <= x < 2 ^ 32 -> Float.neg (Float.neg x) = x /\ 0 <= Float.neg x < 2 ^ 32.
Proof.
  intros Hx.
  assert (Hbit : forall y, 0 <= y < 2 ^ 32 -> Z.testbit y 31 = (2 ^ 31 <=? y)).
  { intros y Hy. destruct (Z.leb_spec (2 ^ 31) y) as [Hhi|Hlo].
    - apply Z.testbit_true; [lia|].
      assert (Hq : y / 2 ^ 31 = 1).
      { symmetry. apply (Z.div_unique y (2 ^ 31) 1 (y - 2 ^ 31)); lia. }
      rewrite Hq. reflexivity.
    - apply Z.testbit_false; [lia|]. rewrite Z.div_small by lia. reflexivity. }
  unfold Float.neg. rewrite (Hbit x Hx).
  destruct (Z.leb_spec (2 ^ 31) x) as [Hhi|Hlo].
  - rewrite (Hbit (x - 2 ^ 31)) by lia.
    destruct (Z.leb_spec (2 ^ 31) (x - 2 ^ 31)); lia.
  - rewrite (Hbit (x + 2 ^ 31)) by lia.
    destruct (Z.leb_spec (2 ^ 31) (x + 2 ^ 31)); lia.
Qed.

(** The correction of a normal is a quarter turn about the first axis:
    twice it negates the second and the third component, four times it
    gives the normal back, bit for bit. *)
Theorem correction_is_a_quarter_turn (n : JoeVertex) :
  storable_vertex n ->
  swap_normal (swap_normal n)
  = {| vertex := (sel (vertex n) 0, Float.neg (sel (vertex n) 1), Float.neg (sel (vertex n) 2)) |}
  /\ swap_normal (swap_normal (swap_normal (swap_normal n))) = n.
Proof.
  destruct n as [[[x y] z]]. unfold storable_vertex, each, is_float. cbn [vertex].
  intros (Hx & Hy & Hz).
  destruct (neg_neg y Hy) as [Hyy Hny]. destruct (neg_neg z Hz) as [Hzz Hnz].
  unfold swap_normal. cbn [vertex sel Z.eqb]. split; [reflexivity|].
  rewrite Hyy, Hzz. reflexivity.
Qed.

Section Quarter.

Context {MV : MathVector} {MB : ModelBase}.

(** The threshold of the heuristic is a quarter of the faces: with the
    vertex and normal indices in range the heuristic returns, and it flags
    the object exactly when in some frame more than a quarter of the
    faces cast a flip vote.  The integer division of the test loses
    nothing. *)
Theorem flagged_iff_more_than_a_quarter_votes (header : JoeHeader) (fs : list JoeFrame) :
  length fs = Z.to_nat (num_frames header) ->
  Forall (frame_shape (num_faces header)) fs ->
  Forall geometry_in_range fs ->
  exists flag : bool,
    NeedsNormalSwap {| info := header; frames := fs |} = Returned flag
    /\ (flag = true <->
        exists frame, frame ∈ fs
                      /\ num_faces header < 4 * flip_votes (num_faces header) frame).
Proof.
  intros Hlen Hshape Hrange.
  destruct (NeedsNormalSwap_returns_on_geometry header fs Hlen Hshape Hrange) as (flag & Hflag).
  exists flag. split; [exact Hflag|].
  rewrite (NeedsNormalSwap_votes _ _ Hflag). cbn [info frames].
  rewrite Forall_forall in Hshape. split.
  - intros (f & frame & Hf & Hframe & Hvotes).
    apply list_elem_of_lookup_2 in Hframe. exists frame. split; [exact Hframe|].
    destruct (Hshape frame Hframe) as ([Hn _] & _).
    apply quot_4_exceeded; assumption.
  - intros (frame & Hframe & Hvotes).
    pose proof (Hshape frame Hframe) as ([Hn _] & _).
    apply list_elem_of_lookup_1 in Hframe as [k Hk].
    exists (Z.of_nat k), frame. rewrite Nat2Z.id.
    split; [apply lookup_lt_Some in Hk; lia|]. split; [exact Hk|].
    apply quot_4_exceeded; assumption.
Qed.

End Quarter.

Section Accepted.

Context {MV : MathVector} {MB : ModelBase}.

Lemma scaled_geometry (fs : list JoeFrame) :
  Forall geometry_in_range (scaled fs) <-> Forall geometry_in_range fs.
Proof.
  unfold scaled. rewrite Forall_map. split; intros H; eapply Forall_impl; try exact H;
    intros f Hf; exact Hf.
Qed.

Lemma prepared_frame_shape (n_faces : Z) (flag : bool) (f : JoeFrame) :
  frame_shape n_faces f -> frame_shape n_faces (prepared_frame flag f).
Proof.
  unfold frame_shape, prepared_frame. destruct flag; cbn; rewrite ?length_map; auto.
Qed.

Lemma prepared_frame_in_range (flag : bool) (f : JoeFrame) :
  frame_in_range (prepared_frame flag f) <-> frame_in_range f.
Proof. unfold frame_in_range, face_in_range, prepared_frame. destruct flag; reflexivity. Qed.

(** Which files of moderate size are loaded.  Let the header be complete
    and the frames be read, frame 0 among them, with at most 5592405
    vertices and corners together.  Then [Load] returns true if and only
    if the version is 3, the face count is at most 32000, the vertex and
    normal indices of every face of every frame are in range, and the
    texture indices of frame 0 are not negative.  The texture indices of
    the later frames and texture indices that are too large are not
    looked at. *)
Theorem load_returns_true_iff_indices_in_range
        (filename : string) (genlist : bool) (err : string)
        (hb body : list byte) (fs : list JoeFrame) (f0 : JoeFrame) (w1 : world) :
  length hb = 16%nat ->
  read_object_frames (decode_JoeHeader hb)
                     {| file := body; err_output := err; m_mesh := VertexArray_clear |}
  = Returned (fs, w1) ->
  fs !! 0%nat = Some f0 ->
  num_verts f0 + 3 * num_faces (decode_JoeHeader hb) <= 5592405 ->
  (exists w, Load filename (Some (hb ++ body)) genlist None err = Returned (true, w))
  <-> (version (decode_JoeHeader hb) = 3
       /\ num_faces (decode_JoeHeader hb) <= 32000
       /\ Forall geometry_in_range fs
       /\ frame_in_range f0).
Proof.
  intros Hhb Hread Hf0 Hbound.
  destruct (read_object_frames_shape _ _ _ _ Hread) as (_ & Hlen & Hshape).
  assert (Hlen' : length (scaled fs) = Z.to_nat (num_frames (decode_JoeHeader hb)))
    by (unfold scaled; rewrite length_map; exact Hlen).
  pose proof (scaled_shape _ _ Hshape) as Hshape'.
  assert (Hs0 : frame_shape (num_faces (decode_JoeHeader hb)) f0).
  { rewrite Forall_forall in Hshape. apply Hshape. eapply list_elem_of_lookup_2; eauto. }
  split.
  - intros (w & H).
    apply Load_Returned in H as [(Hd & _) | (hb' & body' & Hd & Hhb' & Hcase)]; [discriminate|].
    injection Hd as Hd. apply app_inj_1 in Hd as [<- <-]; [|congruence].
    destruct Hcase as [(_ & Hv & _) | [(_ & _ & Hv & _) | (Hv & Hcap & _ & Hok)]];
      [discriminate | discriminate |].
    destruct Hok as (fs' & w1' & flag & f0' & vm & vf & arrays & Hread' & Hwelds & _).
    rewrite Hread in Hread'. inversion Hread'; subst fs' w1'.
    destruct Hwelds as (Hflag & Hf0' & Hbuilt & _).
    split; [exact Hv|]. split; [exact Hcap|].
    assert (Hgeo : Forall geometry_in_range fs).
    { apply scaled_geometry. exact (NeedsNormalSwap_checks _ _ _ Hlen' Hshape' Hflag). }
    split; [exact Hgeo|].
    rewrite prepared_lookup, Hf0 in Hf0'. cbn in Hf0'. injection Hf0' as <-.
    destruct (prepared_frame_parts flag f0) as (Pf & _).
    intros face Hface c Hc.
    rewrite Forall_lookup in Hgeo. destruct (Hgeo 0%nat f0 Hf0 face Hface c Hc) as [Hvi Hni].
    split; [exact Hvi|]. split; [exact Hni|].
    apply list_elem_of_lookup_1 in Hface as [i Hface].
    destruct Hs0 as ([Hn Hlf] & _). pose proof (lookup_lt_Some _ _ _ Hface) as Hi.
    rewrite <- Pf in Hface.
    destruct (build_unique_vertices_checks _ _ _ _ Hbuilt (Z.of_nat i) c face) as [_ Hti];
      [lia | exact Hc | rewrite Nat2Z.id; exact Hface | exact Hti].
  - intros (Hv & Hcap & Hgeo & Hrange).
    destruct (NeedsNormalSwap_returns_on_geometry _ (scaled fs) Hlen' Hshape')
      as (flag & Hflag); [apply scaled_geometry; exact Hgeo|].
    set (f0' := prepared_frame flag f0).
    destruct (prepared_frame_parts flag f0) as (Pf & Pnv & Pnn & Pnt & Pv & Pn & Pt).
    fold f0' in Pf, Pnv, Pnn, Pnt, Pv, Pn, Pt.
    pose proof (prepared_frame_shape _ flag _ Hs0) as Hs0'. fold f0' in Hs0'.
    pose proof (proj2 (prepared_frame_in_range flag f0) Hrange) as Hr0'. fold f0' in Hr0'.
    pose proof Hs0' as ([Hn Hlf] & [Hnv Hlv] & [Hnn Hln] & [Hnt Hlt]).
    destruct (build_unique_vertices_in_range f0' (num_faces (decode_JoeHeader hb)))
      as (vm & vf & Hbuilt & Hvf & Hvm); try assumption; try lia.
    destruct (build_unique_vertices_layout _ _ _ _ Hbuilt) as [_ Hfrom].
    pose proof (from_corners_in_range _ _ _ Hs0' Hr0' Hfrom) as Hentries.
    destruct (fill_arrays_returns f0' vm) as (arrays & Hfill); [lia | lia | exact Hentries |].
    eexists. apply Load_Returned. right. exists hb, body.
    split; [reflexivity|]. split; [exact Hhb|]. right; right.
    split; [exact Hv|]. split; [exact Hcap|]. split; [reflexivity|].
    exists fs, w1, flag, f0', vm, vf, arrays.
    split; [exact Hread|]. split; [|reflexivity].
    split; [exact Hflag|]. split; [|auto].
    rewrite prepared_lookup, Hf0. reflexivity.
Qed.

End Accepted.

Lemma byte_value_range (b : byte) : 0 <= Stored.byte_value b < 256.
Proof.
  unfold Stored.byte_value. pose proof (Byte.to_N_bounded b) as H. lia.
Qed.

Lemma le_value_range (bs : list byte) :
  0 <= Stored.le_value bs < 256 ^ Z.of_nat (length bs).
Proof.
  induction bs as [|b bs IH].
  - cbn. lia.
  - cbn [Stored.le_value length]. rewrite Nat2Z.inj_succ, Z.pow_succ_r by lia.
    pose proof (byte_value_range b). lia.
Qed.

(** Every [int] of the file is an [int]. *)
Lemma ENDIAN_SWAP_32_range (raw : list byte) :
  - 2 ^ 31 <= Stored.ENDIAN_SWAP_32 raw < 2 ^ 31.
Proof.
  unfold Stored.ENDIAN_SWAP_32, Stored.signed.
  pose proof (le_value_range (take 4 raw)) as H.
  assert (Hlen : (length (take 4 raw) <= 4)%nat) by (rewrite length_take; lia).
  assert (Hpow : 256 ^ Z.of_nat (length (take 4 raw)) <= 2 ^ 32).
  { change (2 ^ 32) with (256 ^ 4). apply Z.pow_le_mono_r; lia. }
  change (2 ^ (32 - 1)) with (2 ^ 31).
  destruct (Z.ltb_spec (Stored.le_value (take 4 raw)) (2 ^ 31)); lia.
Qed.

Lemma BinaryRead_bytes (size count : Z) (w w' : world) (data : list byte) :
  0 < size -> 0 <= count < 2 ^ 32 ->
  BinaryRead size count w = Returned (data, w') ->
  Z.of_nat (length (file w)) = size * count + Z.of_nat (length (file w')).
Proof.
  intros Hsize Hcount H. rewrite BinaryRead_value in H by assumption.
  destruct (Z.leb_spec (size * count) (Z.of_nat (length (file w)))); [|discriminate].
  inversion H; subst. cbn [with_file file]. rewrite length_drop. lia.
Qed.

Lemma read_int_bytes (w w' : world) (x : Z) :
  read_int w = Returned (x, w') ->
  Z.of_nat (length (file w)) = sizeof_int + Z.of_nat (length (file w'))
  /\ - 2 ^ 31 <= x < 2 ^ 31.
Proof.
  unfold read_int. intros H.
  apply io_bind_Returned in H as (raw & w1 & Hraw & H).
  apply io_ret_Returned in H. inversion H; subst.
  apply BinaryRead_bytes in Hraw; [|unfold sizeof_int; lia | lia].
  split; [lia | apply ENDIAN_SWAP_32_range].
Qed.

Lemma read_frame_bytes (n_faces : Z) (w w' : world) (f : JoeFrame) :
  n_faces < 2 ^ 31 ->
  read_frame n_faces w = Returned (f, w') ->
  Z.of_nat (length (file w)) = frame_bytes n_faces f + Z.of_nat (length (file w')).
Proof.
  intros Hn H. unfold read_frame in H.
  apply io_bind_Returned in H as (sf & w0 & Hsf & H).
  apply lift_Returned in Hsf as [Hsf Hw0]. cbn [fst snd] in Hsf, Hw0. subst w0.
  apply vector_size_Returned in Hsf as [Hn0 _].
  apply io_bind_Returned in H as (raw_faces & w1 & Hfaces & H).
  apply BinaryRead_bytes in Hfaces; [|unfold sizeof_JoeFace; lia | lia].
  apply io_bind_Returned in H as (nv & w2 & Hnv & H). apply read_int_bytes in Hnv as [Hb2 Hnv].
  apply io_bind_Returned in H as (nt & w3 & Hnt & H). apply read_int_bytes in Hnt as [Hb3 Hnt].
  apply io_bind_Returned in H as (nn & w4 & Hnn & H). apply read_int_bytes in Hnn as [Hb4 Hnn].
  apply io_bind_Returned in H as (sv & w5 & Hsv & H).
  apply lift_Returned in Hsv as [Hsv Hw5]. cbn [fst snd] in Hsv, Hw5. subst w5.
  apply vector_size_Returned in Hsv as [Hnv0 _].
  apply io_bind_Returned in H as (sn & w6 & Hsn & H).
  apply lift_Returned in Hsn as [Hsn Hw6]. cbn [fst snd] in Hsn, Hw6. subst w6.
  apply vector_size_Returned in Hsn as [Hnn0 _].
  apply io_bind_Returned in H as (st & w7 & Hst & H).
  apply lift_Returned in Hst as [Hst Hw7]. cbn [fst snd] in Hst, Hw7. subst w7.
  apply vector_size_Returned in Hst as [Hnt0 _].
  apply io_bind_Returned in H as (raw_verts & w8 & Hverts & H).
  apply BinaryRead_bytes in Hverts; [|unfold sizeof_JoeVertex; lia | lia].
  apply io_bind_Returned in H as (raw_normals & w9 & Hnormals & H).
  apply BinaryRead_bytes in Hnormals; [|unfold sizeof_JoeVertex; lia | lia].
  apply io_bind_Returned in H as (raw_tex & w10 & Htex & H).
  apply BinaryRead_bytes in Htex; [|unfold sizeof_JoeTexCoord; lia | lia].
  apply io_ret_Returned in H. inversion H; subst.
  unfold frame_bytes. cbn [num_verts num_normals num_texcoords]. lia.
Qed.

Lemma read_frames_bytes (n_faces : Z) (n : nat) :
  n_faces < 2 ^ 31 ->
  forall (w w' : world) (fs : list JoeFrame),
    read_frames n_faces n w = Returned (fs, w') ->
    Z.of_nat (length (file w)) = frames_bytes n_faces fs + Z.of_nat (length (file w')).
Proof.
  intros Hn. induction n as [|n IH]; intros w w' fs H; cbn [read_frames] in H.
  - apply io_ret_Returned in H. inversion H; subst. cbn. lia.
  - apply io_bind_Returned in H as (f & wa & Hf & H).
    apply io_bind_Returned in H as (rest & wb & Hrest & H).
    apply io_ret_Returned in H. inversion H; subst.
    apply read_frame_bytes in Hf; [|exact Hn]. apply IH in Hrest.
    unfold frames_bytes in *. cbn [map fold_right]. lia.
Qed.

Section Layout.

Context {MV : MathVector} {MB : ModelBase}.

(** The layout of a file that is loaded: a header of 16 bytes and, frame
    after frame, 18 bytes per face, three counts of 4 bytes, 12 bytes per
    vertex and per normal and 8 bytes per texture coordinate.  A load that
    returns true has read exactly these bytes. *)
Theorem loaded_file_has_the_frame_layout
        (filename : string) (content : list byte) (genlist : bool) (err : string)
        (w : world) :
  Load filename (Some content) genlist None err = Returned (true, w) ->
  exists (hb body : list byte) (fs : list JoeFrame) (w1 : world),
    content = hb ++ body /\ length hb = 16%nat
    /\ read_object_frames (decode_JoeHeader hb)
         {| file := body; err_output := err; m_mesh := VertexArray_clear |}
       = Returned (fs, w1)
    /\ Z.of_nat (length fs) = num_frames (decode_JoeHeader hb)
    /\ Z.of_nat (length content)
       = sizeof_JoeHeader + frames_bytes (num_faces (decode_JoeHeader hb)) fs
         + Z.of_nat (length (file w)).
Proof.
  intros H.
  apply Load_Returned in H as [(Hd & _) | (hb & body & Hd & Hhb & Hcase)]; [discriminate|].
  injection Hd as ->.
  destruct Hcase as [(_ & Hv & _) | [(_ & _ & Hv & _) | (_ & Hcap & _ & Hok)]];
    [discriminate | discriminate |].
  destruct Hok as (fs & w1 & flag & f0' & vm & vf & arrays & Hread & _ & ->).
  exists hb, body, fs, w1.
  split; [reflexivity|]. split; [exact Hhb|]. split; [exact Hread|].
  destruct (read_object_frames_shape _ _ _ _ Hread) as (Hn & Hlen & _).
  split; [lia|].
  unfold read_object_frames in Hread.
  apply io_bind_Returned in Hread as (n & w0 & Hsize & Hread).
  apply lift_Returned in Hsize as [_ Hw0]. cbn [snd] in Hw0. subst w0.
  apply read_frames_bytes in Hread; [|lia]. cbn [file] in Hread |- *.
  rewrite length_app, Hhb. unfold sizeof_JoeHeader. lia.
Qed.

End Layout.

(** No entry of the table is an orphan: every populated entry is the one
    that some index of the index array names. *)
Lemma build_unique_vertices_used
      (frame : JoeFrame) (n : Z) (vm : list VertEntry) (vf : list Z) :
  build_unique_vertices frame n = Returned (vm, vf) ->
  Z.of_nat (length vm) < 2 ^ 31 ->
  forall (k : nat) (e : VertEntry),
    vm !! k = Some e -> populated e ->
    exists p : nat, vf !! p = Some (Z.of_nat k).
Proof.
  intros Hrun Hsize.
  apply (build_unique_vertices_invariant
           (fun pos st =>
              Z.of_nat (length (fst st)) < 2 ^ 31 ->
              forall (k : nat) (e : VertEntry),
                fst st !! k = Some e -> populated e ->
                exists p : nat, Z.of_nat p < pos /\ snd st !! p = Some (Z.of_nat k))) in Hrun.
  - destruct Hrun as [_ Hall]. cbn [fst snd] in Hall.
    intros k e Hk Hpop. destruct (Hall Hsize k e Hk Hpop) as (p & _ & Hp). exists p. exact Hp.
  - cbn [fst snd]. intros _ k e Hk Hpop. apply lookup_replicate in Hk as [-> _].
    unfold populated in Hpop. cbn in Hpop. lia.
  - intros face i c [vm0 vf0] [vm1 vf1] _ Hi Hc Hall Hstep Hsize1. cbn [fst snd] in *.
    assert (Hsize0 : Z.of_nat (length vm0) < 2 ^ 31).
    { apply weld_corner_sizes in Hstep as [_ Hl]. lia. }
    specialize (Hall Hsize0).
    apply weld_corner_Returned in Hstep as (ve & [Hvi Hve] & Hpos & _ & Hcase).
    assert (Hold : forall (vm' : list VertEntry) (k : nat) (e : VertEntry) (x : Z),
               vm0 !! k = Some e -> populated e ->
               exists p : nat, Z.of_nat p < i * 3 + c + 1
                               /\ <[Z.to_nat (i * 3 + c) := x]> vf0 !! p = Some (Z.of_nat k)).
    { intros _ k e x Hk Hpop. destruct (Hall k e Hk Hpop) as (p & Hp & Hvf).
      exists p. split; [lia|]. rewrite list_lookup_insert_ne by lia. exact Hvf. }
    assert (Hnew : forall x : Z,
               exists p : nat, Z.of_nat p < i * 3 + c + 1
                               /\ <[Z.to_nat (i * 3 + c) := x]> vf0 !! p = Some x).
    { intros x. exists (Z.to_nat (i * 3 + c)). split; [lia|].
      apply list_lookup_insert_eq. lia. }
    intros k e Hk Hpop.
    destruct Hcase as [(_ & -> & ->) | [(_ & _ & _ & -> & ->) | (_ & _ & -> & ->)]].
    + apply list_lookup_insert_Some in Hk as [(<- & <- & _) | (_ & Hk)].
      * rewrite Z2Nat.id by exact Hvi. apply Hnew.
      * exact (Hold vm0 k e _ Hk Hpop).
    + exact (Hold vm0 k e _ Hk Hpop).
    + apply lookup_app_Some in Hk as [Hk | [Hge Hk]].
      * exact (Hold vm0 k e _ Hk Hpop).
      * apply list_lookup_singleton_Some in Hk as [Hk0 <-].
        replace k with (length vm0) by lia. rewrite to_int_exact by lia. apply Hnew.
Qed.

(** Every entry of the table is the initial entry or a populated one. *)
Lemma build_unique_vertices_entries
      (frame : JoeFrame) (n : Z) (vm : list VertEntry) (vf : list Z) :
  build_unique_vertices frame n = Returned (vm, vf) ->
  forall (k : nat) (e : VertEntry), vm !! k = Some e -> e = VertEntry_new \/ populated e.
Proof.
  intros Hrun.
  apply (build_unique_vertices_invariant
           (fun _ st => forall (k : nat) (e : VertEntry),
                          fst st !! k = Some e -> e = VertEntry_new \/ populated e)) in Hrun.
  - exact (proj2 Hrun).
  - cbn [fst]. intros k e Hk. apply lookup_replicate in Hk as [-> _]. left. reflexivity.
  - intros face i c [vm0 vf0] [vm1 vf1] _ _ _ Hall Hstep. cbn [fst] in *.
    apply weld_corner_Returned in Hstep as (ve & [Hvi _] & _ & _ & Hcase).
    intros k e Hk.
    destruct Hcase as [(_ & -> & _) | [(_ & _ & _ & -> & _) | (_ & _ & -> & _)]].
    + apply list_lookup_insert_Some in Hk as [(_ & <- & _) | (_ & Hk)].
      * right. exact Hvi.
      * exact (Hall k e Hk).
    + exact (Hall k e Hk).
    + apply lookup_app_Some in Hk as [Hk | [_ Hk]].
      * exact (Hall k e Hk).
      * apply list_lookup_singleton_Some in Hk as [_ <-]. right. exact Hvi.
Qed.

(** The welded table has no orphans: every populated entry is named by
    some index of the index array, and an entry that is not populated is
    the untouched initial entry in the slot of a source vertex. *)
Theorem every_populated_entry_is_used
        (frame : JoeFrame) (n : Z) (vm : list VertEntry) (vf : list Z)
        (k : nat) (e : VertEntry) :
  build_unique_vertices frame n = Returned (vm, vf) ->
  Z.of_nat (length vm) < 2 ^ 31 ->
  vm !! k = Some e ->
  (populated e -> exists p : nat, vf !! p = Some (Z.of_nat k))
  /\ (~ populated e -> e = VertEntry_new /\ Z.of_nat k < num_verts frame).
Proof.
  intros Hrun Hsize Hk. split.
  - intros Hpop. exact (build_unique_vertices_used frame n vm vf Hrun Hsize k e Hk Hpop).
  - intros Hno.
    destruct (build_unique_vertices_entries _ _ _ _ Hrun k e Hk) as [-> | Hpop];
      [|contradiction].
    split; [reflexivity|].
    destruct (build_unique_vertices_layout _ _ _ _ Hrun) as [[_ Hslots] _].
    destruct (Hslots k _ Hk) as [_ Hhigh].
    destruct (Nat.lt_ge_cases k (Z.to_nat (num_verts frame))) as [Hlt|Hge]; [lia|].
    destruct (Hhigh Hge) as [Hpos _]. cbn in Hpos. lia.
Qed.

Module Witness.

Import Example.

Local Abbreviation MV := Reference.ieee_vec3.
Local Abbreviation MB := Reference.no_errors.

Lemma face_cap_is_inclusive_witness :
  (@LoadFromHandle MV {| file := Write.put_JoeHeader (header 3 32000 1) ++ [];
                         err_output := ""; m_mesh := VertexArray_clear |}
   = (r <- @ReadData MV (decode_JoeHeader (Write.put_JoeHeader (header 3 32000 1)))
                     {| file := []; err_output := ""; m_mesh := VertexArray_clear |} ;;
      Returned (true, snd r)))
  /\ @LoadFromHandle MV {| file := Write.put_JoeHeader (header 3 32001 1) ++ [];
                           err_output := ""; m_mesh := VertexArray_clear |}
     = Returned (false, {| file := [];
                           err_output := "32001 faces (max 32000). ";
                           m_mesh := VertexArray_clear |}).
Proof.
  split.
  - apply (@face_cap_is_inclusive MV (Write.put_JoeHeader (header 3 32000 1)) [] ""
                                  VertexArray_clear); reflexivity.
  - apply (@face_cap_is_inclusive MV (Write.put_JoeHeader (header 3 32001 1)) [] ""
                                  VertexArray_clear); reflexivity.
Defined.

Lemma version_must_equal_3_witness :
  @LoadFromHandle MV {| file := Write.put_JoeHeader (header 2 1 1) ++ [];
                        err_output := ""; m_mesh := VertexArray_clear |}
  = Returned (false, {| file := [];
                        err_output := "Invalid file format (Version is 2 not 3). ";
                        m_mesh := VertexArray_clear |})
  /\ @LoadFromHandle MV {| file := Write.put_JoeHeader (header 4 1 1) ++ [];
                           err_output := ""; m_mesh := VertexArray_clear |}
     = Returned (false, {| file := [];
                           err_output := "Invalid file format (Version is 4 not 3). ";
                           m_mesh := VertexArray_clear |})
  /\ @LoadFromHandle MV {| file := Write.put_JoeHeader (header 3 1 1) ++ [];
                           err_output := ""; m_mesh := VertexArray_clear |}
     = (r <- @ReadData MV (decode_JoeHeader (Write.put_JoeHeader (header 3 1 1)))
                       {| file := []; err_output := ""; m_mesh := VertexArray_clear |} ;;
        Returned (true, snd r)).
Proof.
  split; [|split].
  - apply (@version_must_equal_3 MV (Write.put_JoeHeader (header 2 1 1)) [] ""
                                 VertexArray_clear); [reflexivity | vm_compute; discriminate].
  - apply (@version_must_equal_3 MV (Write.put_JoeHeader (header 4 1 1)) [] ""
                                 VertexArray_clear); [reflexivity | vm_compute; discriminate].
  - apply (@version_must_equal_3 MV (Write.put_JoeHeader (header 3 1 1)) [] ""
                                 VertexArray_clear); reflexivity.
Defined.

Lemma magic_is_not_validated_witness :
  @Load MV MB "model.joe"
        (Some ([x00; x00; x00; x00] ++ drop 4 (Write.put_JoeObject two_faces))) true None ""
  = @Load MV MB "model.joe"
          (Some ([xff; xff; xff; xff] ++ drop 4 (Write.put_JoeObject two_faces))) true None "".
Proof.
  apply (@magic_is_not_validated MV MB); reflexivity.
Defined.

Lemma load_of_valid_file_succeeds_witness :
  exists w2,
    @Load MV MB "model.joe" (Some (Write.put_JoeHeader (info two_faces)
                                ++ concat (map Write.put_JoeFrame (frames two_faces))))
          true None ""
    = Returned (true, w2)
    /\ Z.of_nat (length (mesh_faces (m_mesh w2)))
       = 3 * num_faces (decode_JoeHeader (Write.put_JoeHeader (info two_faces))).
Proof.
  eapply (@load_of_valid_file_succeeds MV MB "model.joe" true ""
            (Write.put_JoeHeader (info two_faces))
            (concat (map Write.put_JoeFrame (frames two_faces)))
            (frames two_faces)).
  - reflexivity.
  - reflexivity.
  - vm_compute. discriminate.
  - vm_compute. reflexivity.
  - reflexivity.
  - constructor; [|constructor]. intros face Hface c Hc.
    apply list_elem_of_In in Hface. cbn in Hface.
    assert (Hcs : c = 0 \/ c = 1 \/ c = 2) by lia.
    destruct Hface as [<- | [<- | []]]; destruct Hcs as [-> | [-> | ->]]; cbn; lia.
  - vm_compute. discriminate.
Defined.

Lemma loaded_indices_are_in_range_witness :
  exists (w2 : world) (vm : list VertEntry) (vf : list Z) (arrays : FlatArrays)
         (uv : list Float.float),
    @Load MV MB "model.joe" (Some (Write.put_JoeHeader (info two_faces)
                                ++ concat (map Write.put_JoeFrame (frames two_faces))))
          true None ""
    = Returned (true, w2)
    /\ @weld_object MV (decode_JoeHeader (Write.put_JoeHeader (info two_faces)))
                    (frames two_faces)
       = Returned (vm, vf, arrays)
    /\ Forall (fun x => 0 <= x < Z.of_nat (length vm)) (mesh_faces (m_mesh w2))
    /\ length (mesh_vertices (m_mesh w2)) = (3 * length vm)%nat
    /\ length (mesh_normals (m_mesh w2)) = (3 * length vm)%nat
    /\ mesh_texcoords (m_mesh w2) = [uv]
    /\ length uv = (2 * length vm)%nat.
Proof.
  eapply (@loaded_indices_are_in_range MV MB "model.joe" true ""
            (Write.put_JoeHeader (info two_faces))
            (concat (map Write.put_JoeFrame (frames two_faces)))
            (frames two_faces)).
  - reflexivity.
  - reflexivity.
  - vm_compute. discriminate.
  - vm_compute. reflexivity.
  - reflexivity.
  - constructor; [|constructor]. intros face Hface c Hc.
    apply list_elem_of_In in Hface. cbn in Hface.
    assert (Hcs : c = 0 \/ c = 1 \/ c = 2) by lia.
    destruct Hface as [<- | [<- | []]]; destruct Hcs as [-> | [-> | ->]]; cbn; lia.
  - vm_compute. discriminate.
Defined.

Lemma written_file_loads_witness :
  exists (w2 : world) (vm : list VertEntry) (arrays : FlatArrays),
    @Load MV MB "model.joe" (Some (Write.put_JoeObject two_faces)) true None ""
    = Returned (true, w2)
    /\ @weld_object MV (info two_faces) (frames two_faces)
       = Returned (vm, mesh_faces (m_mesh w2), arrays)
    /\ file w2 = []
    /\ Z.of_nat (length (mesh_faces (m_mesh w2))) = 3 * num_faces (info two_faces)
    /\ Forall (fun x => 0 <= x < Z.of_nat (length vm)) (mesh_faces (m_mesh w2)).
Proof.
  apply (@written_file_loads MV MB "model.joe" true "" two_faces two_faces_frame).
  - unfold is_int; cbn; lia.
  - reflexivity.
  - cbn; lia.
  - unfold is_int; cbn; lia.
  - reflexivity.
  - constructor; [|constructor].
    unfold storable_frame, frame_shape, two_faces, two_faces_frame.
    cbn [info frames faces verts normals texcoords num_faces num_verts num_normals
         num_texcoords].
    repeat match goal with
           | |- _ /\ _ => split
           | |- Forall _ (_ :: _) => constructor
           | |- Forall _ [] => constructor
           end;
      unfold storable_face, storable_vertex, storable_texcoord, is_short, is_float, one;
      cbn; lia.
  - reflexivity.
  - constructor; [|constructor]. intros face Hface c Hc.
    apply list_elem_of_In in Hface. cbn in Hface.
    assert (Hcs : c = 0 \/ c = 1 \/ c = 2) by lia.
    destruct Hface as [<- | [<- | []]]; destruct Hcs as [-> | [-> | ->]]; cbn; lia.
  - cbn; lia.
Defined.

(** C1 as stated fails: a header with version 3, no face and no frame is
    followed by no frame data, so no read is short and no index is out of
    range; [Load] then indexes frame 0 of an empty vector. *)
Lemma load_without_frames_does_not_return :
  version (decode_JoeHeader (Write.put_JoeHeader no_frame)) = 3
  /\ num_faces (decode_JoeHeader (Write.put_JoeHeader no_frame)) <= 32000
  /\ read_object_frames (decode_JoeHeader (Write.put_JoeHeader no_frame)) (opened [])
     = Returned ([], opened [])
  /\ @Load MV MB "model.joe" (Some (Write.put_JoeHeader no_frame)) true None ""
     = Aborted UndefinedBehaviour.
Proof.
  repeat split; try reflexivity. vm_compute. discriminate.
Qed.

Lemma welded_source_slots_are_unique_witness :
  build_unique_vertices one_face 1
  = Returned ([ {| original_index := 0; norm_index := 0; tex_index := 0 |};
                {| original_index := 1; norm_index := 0; tex_index := 0 |};
                {| original_index := 2; norm_index := 0; tex_index := 0 |} ],
              [0; 1; 2])
  /\ attributes {| original_index := 0; norm_index := 0; tex_index := 0 |}
     <> attributes {| original_index := 1; norm_index := 0; tex_index := 0 |}.
Proof.
  split; [reflexivity|].
  eapply (welded_source_slots_are_unique one_face 1 _ _ 0%nat 1%nat).
  - reflexivity.
  - reflexivity.
  - reflexivity.
  - discriminate.
  - unfold populated; cbn; lia.
  - unfold populated; cbn; lia.
  - left. cbn. lia.
Defined.

(** C2 as stated fails: the three corners of the one face are the same
    vertex; the second and the third come with the same other normal,
    and each of them appends an entry.  The slots 1 and 2 of the table
    are populated and hold the same triple.  This is the table that the
    loader welds from the file. *)
Lemma welder_appends_the_same_triple_twice :
  exists (f0 : JoeFrame) (vm : list VertEntry) (vf : list Z) (arrays : FlatArrays)
         (e : VertEntry),
    frames repeated_corner = [f0]
    /\ build_unique_vertices f0 1 = Returned (vm, vf)
    /\ @weld_object MV (info repeated_corner) (frames repeated_corner)
       = Returned (vm, vf, arrays)
    /\ vm !! 1%nat = Some e /\ vm !! 2%nat = Some e /\ populated e
    /\ exists w2 : world,
         @Load MV MB "model.joe" (Some (Write.put_JoeObject repeated_corner)) true None ""
         = Returned (true, w2)
         /\ mesh_faces (m_mesh w2) = vf.
Proof.
  eexists _, _, _, _, _. split; [reflexivity|].
  split; [vm_compute; reflexivity|].
  split; [vm_compute; reflexivity|].
  split; [reflexivity|]. split; [reflexivity|]. split; [unfold populated; cbn; lia|].
  eexists. split; [vm_compute; reflexivity | reflexivity].
Qed.



(** The flag on [two_faces]: the second of its two faces casts a vote, and
    one vote exceeds 2 / 4. *)
Lemma two_faces_is_flagged :
  @NeedsNormalSwap MV two_faces = Returned true
  /\ @flip_votes MV (num_faces (info two_faces)) two_faces_frame = 1
  /\ Z.quot (num_faces (info two_faces)) 4 = 0.
Proof. vm_compute. auto. Qed.

(** An object of the one face of [one_face], whose normals agree with the
    winding: no vote, no flag. *)
Lemma one_face_is_not_flagged :
  @NeedsNormalSwap MV {| info := header 3 1 1; frames := [one_face] |} = Returned false
  /\ @flip_votes MV 1 one_face = 0.
Proof. vm_compute. auto. Qed.

Lemma welding_unique_pairs_keeps_vertex_count_witness :
  exists vm vf,
    build_unique_vertices one_face 1 = Returned (vm, vf)
    /\ Z.of_nat (length vm) = num_verts one_face.
Proof.
  assert (Hone : one_pair_per_vertex (faces one_face)).
  { intros f1 f2 c1 c2 H1 H2 Hc1 Hc2 _.
    apply list_elem_of_In in H1, H2. cbn in H1, H2.
    destruct H1 as [<- | []], H2 as [<- | []].
    assert (Hs1 : c1 = 0 \/ c1 = 1 \/ c1 = 2) by lia.
    assert (Hs2 : c2 = 0 \/ c2 = 1 \/ c2 = 2) by lia.
    destruct Hs1 as [-> | [-> | ->]], Hs2 as [-> | [-> | ->]]; cbn; auto. }
  destruct (welding_unique_pairs_keeps_vertex_count one_face 1 Hone) as [Hcount Hret].
  destruct Hret as (vm & vf & Hrun).
  - cbn; lia.
  - vm_compute; reflexivity.
  - lia.
  - vm_compute; reflexivity.
  - reflexivity.
  - intros face Hface c Hc. apply list_elem_of_In in Hface. cbn in Hface.
    assert (Hcs : c = 0 \/ c = 1 \/ c = 2) by lia.
    destruct Hface as [<- | []]; destruct Hcs as [-> | [-> | ->]]; cbn; lia.
  - exists vm, vf. split; [exact Hrun | exact (Hcount vm vf Hrun)].
Defined.

Lemma BinaryRead_reads_or_asserts_witness :
  (exists data rest,
      BinaryRead 4 1 (opened (Write.put_int 7 ++ Write.put_int 9))
      = Returned (data, with_file (opened (Write.put_int 7 ++ Write.put_int 9)) rest)
      /\ file (opened (Write.put_int 7 ++ Write.put_int 9)) = data ++ rest
      /\ Z.of_nat (length data) = 4 * 1)
  /\ BinaryRead 4 3 (opened (Write.put_int 7 ++ Write.put_int 9)) = Aborted AssertionFailed.
Proof.
  split.
  - apply (BinaryRead_reads_or_asserts 4 1 (opened (Write.put_int 7 ++ Write.put_int 9)));
      [lia | lia | cbn; lia].
  - apply (BinaryRead_reads_or_asserts 4 3 (opened (Write.put_int 7 ++ Write.put_int 9)));
      [lia | lia | cbn; lia].
Defined.

Lemma load_ignores_what_follows_the_frames_witness :
  exists (w : world) (used : list byte),
    Write.put_JoeObject two_faces ++ Write.put_int 7 = used ++ file w
    /\ forall rest, @Load MV MB "model.joe" (Some (used ++ rest)) true None ""
                    = Returned (true, with_file w rest).
Proof.
  eexists.
  eapply (@load_ignores_what_follows_the_frames MV MB "model.joe"
            (Write.put_JoeObject two_faces ++ Write.put_int 7) true "" true).
  vm_compute. reflexivity.
Defined.

Lemma truncated_file_fails_the_read_assertion_witness :
  @Load MV MB "model.joe" (Some (take 60 (Write.put_JoeObject two_faces))) true None ""
  = Aborted AssertionFailed.
Proof.
  eapply (@truncated_file_fails_the_read_assertion MV MB "model.joe"
            (Write.put_JoeObject two_faces) true "" true _ _ 60%nat).
  Unshelve.
  3:{ vm_compute. reflexivity. }
  vm_compute. lia.
Defined.

Lemma failed_load_reports_and_leaves_the_mesh_clear_witness :
  (exists w : world,
      @Load MV MB "model.joe" (Some (Write.put_JoeHeader (header 2 1 1))) true None "log: "
      = Returned (false, w)
      /\ m_mesh w = VertexArray_clear
      /\ exists text : string,
          err_output w = ("log: " ++ text ++ "model.joe" ++ endl)%string)
  /\ (exists w : world,
         @Load MV MB "model.joe" None true
               (Some (pack_of (Write.put_JoeHeader (header 3 32001 1)))) "log: "
         = Returned (false, w)
         /\ m_mesh w = VertexArray_clear
         /\ exists text : string,
             err_output w = ("log: " ++ text ++ "model.joe" ++ endl)%string)
  /\ (exists w : world,
         @Load MV MB "model.joe" (Some (Write.put_JoeObject two_faces)) true
               (Some empty_pack) "log: "
         = Returned (false, w)
         /\ m_mesh w = VertexArray_clear
         /\ exists text : string,
             err_output w
             = ("log: " ++ text ++ "model.joe" ++ " in " ++ "cars.jpk" ++ endl)%string).
Proof.
  split; [|split].
  - eexists. split; [vm_compute; reflexivity|].
    apply (@failed_load_reports_and_leaves_the_mesh_clear MV MB "model.joe"
             (Some (Write.put_JoeHeader (header 2 1 1))) true None "log: ").
    vm_compute. reflexivity.
  - eexists. split; [vm_compute; reflexivity|].
    apply (@failed_load_reports_and_leaves_the_mesh_clear MV MB "model.joe"
             None true (Some (pack_of (Write.put_JoeHeader (header 3 32001 1)))) "log: ").
    vm_compute. reflexivity.
  - eexists. split; [vm_compute; reflexivity|].
    apply (@failed_load_reports_and_leaves_the_mesh_clear MV MB "model.joe"
             (Some (Write.put_JoeObject two_faces)) true (Some empty_pack) "log: ").
    vm_compute. reflexivity.
Defined.

Lemma counts_are_not_validated_from_below_witness :
  @Load MV MB "model.joe" (Some (Write.put_JoeHeader (header 3 1 (-1)) ++ [])) true None ""
  = Aborted LengthError
  /\ @Load MV MB "model.joe" (Some (Write.put_JoeHeader (header 3 1 0) ++ [])) true None ""
     = Aborted UndefinedBehaviour
  /\ @Load MV MB "model.joe" (Some (Write.put_JoeHeader (header 3 (-1) 1) ++ [])) true None ""
     = Aborted LengthError.
Proof.
  split; [|split].
  - apply (proj1 (@counts_are_not_validated_from_below MV MB "model.joe" true ""
                    (Write.put_JoeHeader (header 3 1 (-1))) [] eq_refl eq_refl
                    ltac:(vm_compute; discriminate))).
    vm_compute. reflexivity.
  - apply (proj1 (proj2 (@counts_are_not_validated_from_below MV MB "model.joe" true ""
                           (Write.put_JoeHeader (header 3 1 0)) [] eq_refl eq_refl
                           ltac:(vm_compute; discriminate)))).
    vm_compute. reflexivity.
  - apply (proj2 (proj2 (@counts_are_not_validated_from_below MV MB "model.joe" true ""
                           (Write.put_JoeHeader (header 3 (-1) 1)) [] eq_refl eq_refl
                           ltac:(vm_compute; discriminate)))).
    + vm_compute. reflexivity.
    + vm_compute. reflexivity.
Defined.

Lemma two_faces_geometry : Forall geometry_in_range (frames two_faces).
Proof.
  constructor; [|constructor]. intros face Hface c Hc.
  apply list_elem_of_In in Hface. cbn in Hface.
  assert (Hcs : c = 0 \/ c = 1 \/ c = 2) by lia.
  destruct Hface as [<- | [<- | []]]; destruct Hcs as [-> | [-> | ->]]; cbn; lia.
Defined.

Lemma two_faces_shape : Forall (frame_shape (num_faces (info two_faces))) (frames two_faces).
Proof. constructor; [|constructor]. unfold frame_shape; cbn; lia. Defined.

Lemma heuristic_returns_iff_geometry_in_range_witness :
  (exists flag, @NeedsNormalSwap MV {| info := info two_faces; frames := frames two_faces |}
                = Returned flag)
  <-> Forall geometry_in_range (frames two_faces).
Proof.
  apply (@heuristic_returns_iff_geometry_in_range MV (info two_faces) (frames two_faces)).
  - reflexivity.
  - exact two_faces_shape.
Defined.

Lemma welded_corner_keeps_its_attributes_witness :
  exists k : Z,
    0 <= k
    /\ [0; 1; 2; 0; 3; 4] !! Z.to_nat (1 * 3 + 1) = Some k
    /\ two_faces_table !! Z.to_nat k
       = Some (corner_entry {| vertexIndex := (0, 2, 1); normalIndex := (0, 1, 1);
                               textureIndex := (0, 0, 0) |} 1).
Proof.
  apply (welded_corner_keeps_its_attributes two_faces_frame 2 two_faces_table
           [0; 1; 2; 0; 3; 4] 1 1).
  - vm_compute. reflexivity.
  - intros face c Hface Hc. apply list_elem_of_In in Hface. cbn in Hface.
    assert (Hcs : c = 0 \/ c = 1 \/ c = 2) by lia.
    destruct Hface as [<- | [<- | []]]; destruct Hcs as [-> | [-> | ->]]; cbn; lia.
  - cbn. lia.
  - lia.
  - lia.
  - reflexivity.
Defined.

Lemma welded_table_sizes_witness :
  Z.of_nat (length [0; 1; 2; 0; 3; 4]) = 3 * 2
  /\ num_verts two_faces_frame <= Z.of_nat (length two_faces_table)
     <= num_verts two_faces_frame + 3 * 2.
Proof.
  apply (welded_table_sizes two_faces_frame 2 two_faces_table [0; 1; 2; 0; 3; 4]).
  vm_compute. reflexivity.
Defined.

Lemma flat_arrays_hold_the_entries_witness :
  exists out : FlatArrays,
    fill_arrays two_faces_frame two_faces_table = Returned out
    /\ exists p n uv,
        verts two_faces_frame !! Z.to_nat 2 = Some p
        /\ normals two_faces_frame !! Z.to_nat 1 = Some n
        /\ texcoord_for two_faces_frame
             {| original_index := 2; norm_index := 1; tex_index := 0 |} = Some uv
        /\ holds3 (v_vertices out) (Z.of_nat 3) (vertex p)
        /\ holds3 (v_normals out) (Z.of_nat 3) (vertex n)
        /\ v_texcoords out !! (2 * 3)%nat = Some (fst uv)
        /\ v_texcoords out !! (2 * 3 + 1)%nat = Some (snd uv).
Proof.
  eexists. split; [vm_compute; reflexivity|].
  apply (flat_arrays_hold_the_entries two_faces_frame two_faces_table _ 3
           {| original_index := 2; norm_index := 1; tex_index := 0 |}).
  - vm_compute. reflexivity.
  - cbn. lia.
  - reflexivity.
  - unfold populated; cbn; lia.
Defined.

Lemma unused_slots_stay_zero_witness :
  exists out : FlatArrays,
    fill_arrays one_face [ {| original_index := 0; norm_index := 0; tex_index := 0 |};
                           VertEntry_new ] = Returned out
    /\ holds3 (v_vertices out) (Z.of_nat 1) (Float.zero, Float.zero, Float.zero)
    /\ holds3 (v_normals out) (Z.of_nat 1) (Float.zero, Float.zero, Float.zero)
    /\ v_texcoords out !! (2 * 1)%nat = Some Float.zero
    /\ v_texcoords out !! (2 * 1 + 1)%nat = Some Float.zero.
Proof.
  eexists. split; [vm_compute; reflexivity|].
  apply (unused_slots_stay_zero one_face
           [ {| original_index := 0; norm_index := 0; tex_index := 0 |}; VertEntry_new ]
           _ 1 VertEntry_new).
  - vm_compute. reflexivity.
  - cbn. lia.
  - reflexivity.
  - cbn. lia.
Defined.

Lemma loaded_mesh_reproduces_every_corner_witness :
  exists (w : world) (hb body : list byte) (fs : list JoeFrame) (w1 : world) (flag : bool)
         (f0 : JoeFrame),
    Write.put_JoeObject two_faces = hb ++ body /\ length hb = 16%nat
    /\ read_object_frames (decode_JoeHeader hb)
         {| file := body; err_output := ""; m_mesh := VertexArray_clear |}
       = Returned (fs, w1)
    /\ @NeedsNormalSwap MV {| info := decode_JoeHeader hb; frames := @scaled MV fs |}
       = Returned flag
    /\ fs !! 0%nat = Some f0
    /\ (num_verts f0 + 3 * num_faces (decode_JoeHeader hb) < 2 ^ 24 ->
        forall (i c : Z) (face : JoeFace),
          0 <= i < num_faces (decode_JoeHeader hb) -> 0 <= c < 3 ->
          faces f0 !! Z.to_nat i = Some face ->
          exists (k : Z) (p n : JoeVertex) (uv : Float.float * Float.float),
            mesh_faces (m_mesh w) !! Z.to_nat (i * 3 + c) = Some k
            /\ verts f0 !! Z.to_nat (sel (vertexIndex face) c) = Some p
            /\ normals f0 !! Z.to_nat (sel (normalIndex face) c) = Some n
            /\ texcoord_for f0 (corner_entry face c) = Some uv
            /\ mesh_vertex_is (m_mesh w) k
                              (vertex (@scale_vertex MV p))
                              (vertex (if flag then corrected n else n))
                              uv).
Proof.
  eexists.
  apply (@loaded_mesh_reproduces_every_corner MV MB "model.joe" (Write.put_JoeObject two_faces)
           true "").
  vm_compute. reflexivity.
Defined.

Lemma index_array_comes_from_frame_0_as_read_witness :
  exists (w : world) (hb body : list byte) (fs : list JoeFrame) (w1 : world) (f0 : JoeFrame)
         (vm : list VertEntry),
    Write.put_JoeObject two_faces = hb ++ body /\ length hb = 16%nat
    /\ read_object_frames (decode_JoeHeader hb)
         {| file := body; err_output := ""; m_mesh := VertexArray_clear |}
       = Returned (fs, w1)
    /\ fs !! 0%nat = Some f0
    /\ build_unique_vertices f0 (num_faces (decode_JoeHeader hb))
       = Returned (vm, mesh_faces (m_mesh w)).
Proof.
  eexists.
  apply (@index_array_comes_from_frame_0_as_read MV MB "model.joe"
           (Write.put_JoeObject two_faces) true "").
  vm_compute. reflexivity.
Defined.

Lemma correction_is_a_quarter_turn_witness :
  swap_normal (swap_normal (point 0 0 one))
  = {| vertex := (sel (vertex (point 0 0 one)) 0,
                  Float.neg (sel (vertex (point 0 0 one)) 1),
                  Float.neg (sel (vertex (point 0 0 one)) 2)) |}
  /\ swap_normal (swap_normal (swap_normal (swap_normal (point 0 0 one)))) = point 0 0 one.
Proof.
  apply (correction_is_a_quarter_turn (point 0 0 one)).
  unfold storable_vertex, each, is_float, point, one; cbn. lia.
Defined.

Lemma flagged_iff_more_than_a_quarter_votes_witness :
  exists flag : bool,
    @NeedsNormalSwap MV {| info := info two_faces; frames := frames two_faces |}
    = Returned flag
    /\ (flag = true <->
        exists frame, frame ∈ frames two_faces
                      /\ num_faces (info two_faces)
                         < 4 * @flip_votes MV (num_faces (info two_faces)) frame).
Proof.
  apply (@flagged_iff_more_than_a_quarter_votes MV (info two_faces) (frames two_faces)).
  - reflexivity.
  - exact two_faces_shape.
  - exact two_faces_geometry.
Defined.

Lemma load_returns_true_iff_indices_in_range_witness :
  (exists w, @Load MV MB "model.joe"
               (Some (Write.put_JoeHeader (info two_faces)
                      ++ concat (map Write.put_JoeFrame (frames two_faces))))
               true None "" = Returned (true, w))
  <-> (version (decode_JoeHeader (Write.put_JoeHeader (info two_faces))) = 3
       /\ num_faces (decode_JoeHeader (Write.put_JoeHeader (info two_faces))) <= 32000
       /\ Forall geometry_in_range (frames two_faces)
       /\ frame_in_range two_faces_frame).
Proof.
  eapply (@load_returns_true_iff_indices_in_range MV MB "model.joe" true ""
            (Write.put_JoeHeader (info two_faces))
            (concat (map Write.put_JoeFrame (frames two_faces)))
            (frames two_faces) two_faces_frame).
  - reflexivity.
  - vm_compute. reflexivity.
  - reflexivity.
  - vm_compute. discriminate.
Defined.

Lemma loaded_file_has_the_frame_layout_witness :
  exists (w : world) (hb body : list byte) (fs : list JoeFrame) (w1 : world),
    Write.put_JoeObject two_faces ++ Write.put_int 7 = hb ++ body /\ length hb = 16%nat
    /\ read_object_frames (decode_JoeHeader hb)
         {| file := body; err_output := ""; m_mesh := VertexArray_clear |}
       = Returned (fs, w1)
    /\ Z.of_nat (length fs) = num_frames (decode_JoeHeader hb)
    /\ Z.of_nat (length (Write.put_JoeObject two_faces ++ Write.put_int 7))
       = sizeof_JoeHeader + frames_bytes (num_faces (decode_JoeHeader hb)) fs
         + Z.of_nat (length (file w)).
Proof.
  eexists.
  apply (@loaded_file_has_the_frame_layout MV MB "model.joe"
           (Write.put_JoeObject two_faces ++ Write.put_int 7) true "").
  vm_compute. reflexivity.
Defined.

Lemma every_populated_entry_is_used_witness :
  (populated {| original_index := 2; norm_index := 1; tex_index := 0 |} ->
   exists p : nat, [0; 1; 2; 0; 3; 4] !! p = Some (Z.of_nat 3))
  /\ (~ populated {| original_index := 2; norm_index := 1; tex_index := 0 |} ->
      {| original_index := 2; norm_index := 1; tex_index := 0 |} = VertEntry_new
      /\ Z.of_nat 3 < num_verts two_faces_frame).
Proof.
  apply (every_populated_entry_is_used two_faces_frame 2 two_faces_table [0; 1; 2; 0; 3; 4] 3).
  - vm_compute. reflexivity.
  - cbn. lia.
  - reflexivity.
Defined.

End Witness.
